(** * Network capture and action correlation: a Rocq model

    A shallow embedding of the capture-and-correlation core of the
    network intelligence server:

    - [NetworkCapture] (network.ts): the ingester of CDP Network events,
      its pending map, its finalized store and the ring buffer order;
    - [Query]: the query methods of the capture that take a filter
      ([getRequests], [applyFilter]), the regular expression of a URL
      pattern being a parameter;
    - [Correlator] (correlator.ts): the layered attribution of requests to
      recorded user actions and the chain detection inside a group;
    - [Formatter] (formatter.ts): the redaction of sensitive headers and
      of sensitive keys in JSON bodies.

    The browser manager (Puppeteer sessions, clocks) and the text layout
    of the formatter are outside the model.

    JavaScript numbers that carry time or confidence are modelled as real
    numbers ([R]): the model idealises IEEE doubles, so statements about
    [exp] are statements about the mathematical function.  Status codes,
    byte counts and indices are integers.  Objects that the code shares and
    mutates (pending entries, finalized records, the closures of body
    fetches) live in an explicit heap and are referred to by location. *)

From Stdlib Require Import ZArith Reals Lra Lia List String Ascii Bool Sorted.
From stdpp Require Import base list strings gmap pretty.

Set Warnings "-register-all".

Set Default Proof Using "Type".
Open Scope string_scope.

(** ** JavaScript strings *)

Module Js.

Definition lower_ascii (c : ascii) : ascii :=
  let n := nat_of_ascii c in
  if (65 <=? n)%nat && (n <=? 90)%nat then ascii_of_nat (n + 32) else c.

(** [String.prototype.toLowerCase], on the ASCII range. *)
Fixpoint toLowerCase (s : string) : string :=
  match s with
  | EmptyString => EmptyString
  | String c s' => String (lower_ascii c) (toLowerCase s')
  end.

Definition startsWith (s p : string) : bool := String.prefix p s.

(** [String.prototype.includes]. *)
Fixpoint includes (s sub : string) : bool :=
  String.prefix sub s ||
  match s with
  | EmptyString => false
  | String _ s' => includes s' sub
  end.

(** [s.substring(0, n)]. *)
Definition substring0 (n : nat) (s : string) : string := String.substring 0 n s.

(** Truthiness of an optional string: [undefined] and [""] are falsy. *)
Definition truthy (o : option string) : bool :=
  match o with
  | Some s => negb (String.eqb s "")
  | None => false
  end.

(** [a === b] where [a] may be [undefined]. *)
Definition strict_eq (a : option string) (b : string) : bool :=
  match a with
  | Some s => String.eqb s b
  | None => false
  end.

Definition upper_ascii (c : ascii) : ascii :=
  let n := nat_of_ascii c in
  if (97 <=? n)%nat && (n <=? 122)%nat then ascii_of_nat (n - 32) else c.

(** [String.prototype.toUpperCase], on the ASCII range. *)
Fixpoint toUpperCase (s : string) : string :=
  match s with
  | EmptyString => EmptyString
  | String c s' => String (upper_ascii c) (toUpperCase s')
  end.

End Js.

(** ** [Map<string, V>]: a map that iterates in insertion order *)

Module JsMap.
Section defs.
Context {V : Type}.

Fixpoint get (k : string) (m : list (string * V)) : option V :=
  match m with
  | [] => None
  | (k', v) :: m' => if String.eqb k k' then Some v else get k m'
  end.

(** [set] on a present key keeps its position, on a new key appends. *)
Fixpoint set (k : string) (v : V) (m : list (string * V)) : list (string * V) :=
  match m with
  | [] => [(k, v)]
  | (k', v') :: m' =>
      if String.eqb k k' then (k, v) :: m' else (k', v') :: set k v m'
  end.

Fixpoint delete (k : string) (m : list (string * V)) : list (string * V) :=
  match m with
  | [] => []
  | (k', v') :: m' =>
      if String.eqb k k' then m' else (k', v') :: delete k m'
  end.

Definition has (k : string) (m : list (string * V)) : bool :=
  match get k m with Some _ => true | None => false end.

Definition size (m : list (string * V)) : nat := length m.

Definition keys (m : list (string * V)) : list string := map fst m.

(** [for (const [id, v] of m) if (p v) { ...; break }]: the first entry,
    in insertion order, that passes the test. *)
Fixpoint findFirst (p : V -> bool) (m : list (string * V)) : option string :=
  match m with
  | [] => None
  | (k, v) :: m' => if p v then Some k else findFirst p m'
  end.
End defs.
End JsMap.

(** ** The regular expressions the code uses

    Only the constructs that occur in the source patterns: literal
    characters, [.], [.?], the escaped dot and top-level alternation, with
    or without the [i] flag.  [test] searches for a match anywhere in the
    subject, as [RegExp.prototype.test] does for an unanchored pattern. *)

Module RegExp.

Inductive atom := Lit (c : ascii) | AnyChar | OptAnyChar.

Record t := mk { alternatives : list (list atom); ignoreCase : bool }.

Definition isLineTerminator (c : ascii) : bool :=
  Ascii.eqb c "010"%char || Ascii.eqb c "013"%char.

Fixpoint matchHere (p : list atom) (s : string) : bool :=
  match p with
  | [] => true
  | Lit c :: p' =>
      match s with
      | String c' s' => Ascii.eqb c c' && matchHere p' s'
      | EmptyString => false
      end
  | AnyChar :: p' =>
      match s with
      | String c' s' => negb (isLineTerminator c') && matchHere p' s'
      | EmptyString => false
      end
  | OptAnyChar :: p' =>
      match s with
      | String c' s' => negb (isLineTerminator c') && matchHere p' s'
      | EmptyString => false
      end || matchHere p' s
  end.

Fixpoint search (p : list atom) (s : string) : bool :=
  matchHere p s ||
  match s with
  | EmptyString => false
  | String _ s' => search p s'
  end.

(** Reads the pattern text: [|] separates alternatives, [\c] is the
    literal [c], [.?] an optional character, [.] any character. *)
Fixpoint compile (src : string) (cur : list atom) (done : list (list atom))
  : list (list atom) :=
  match src with
  | EmptyString => done ++ [cur]
  | String "|" rest => compile rest [] (done ++ [cur])
  | String "\" (String c rest) => compile rest (cur ++ [Lit c]) done
  | String "." (String "?" rest) => compile rest (cur ++ [OptAnyChar]) done
  | String "." rest => compile rest (cur ++ [AnyChar]) done
  | String c rest => compile rest (cur ++ [Lit c]) done
  end.

(** [/src/] and [/src/i]. *)
Definition re (src : string) : t := mk (compile src [] []) false.
Definition rei (src : string) : t := mk (compile (Js.toLowerCase src) [] []) true.

Definition test (r : t) (s : string) : bool :=
  let subject := if ignoreCase r then Js.toLowerCase s else s in
  existsb (fun alt => search alt subject) (alternatives r).

End RegExp.

(** ** Core types (types.ts)

    A [Record<string, string>] of headers is a [gmap string string]. *)

Inductive ResourceType :=
  xhr | fetch | document | stylesheet | script | image | font | websocket | other.

Inductive ActionType := click | navigate | type_ | submit | scroll | agent_action.

Inductive CorrelationMethod := stack_trace | timing_semantic | timing_only | chain.

Record CallFrame := {
  functionName : string;
  scriptId : string;
  frame_url : string;
  frame_lineNumber : Z;
  frame_columnNumber : Z
}.

(** [StackTrace] and [CDPStackTrace] have the same shape. *)
Inductive StackTrace :=
  mkStackTrace (description : option string) (callFrames : list CallFrame)
               (parent : option StackTrace).

Definition description (st : StackTrace) : option string :=
  match st with mkStackTrace d _ _ => d end.
Definition callFrames (st : StackTrace) : list CallFrame :=
  match st with mkStackTrace _ f _ => f end.
Definition parent (st : StackTrace) : option StackTrace :=
  match st with mkStackTrace _ _ p => p end.

(** [RequestInitiator]; the CDP initiator has the same fields, its [type]
    being any string. *)
Record RequestInitiator := {
  init_type : string;
  init_stack : option StackTrace;
  init_url : option string;
  init_lineNumber : option Z;
  init_columnNumber : option Z;
  init_requestId : option string
}.

Record RequestTiming := {
  startTime : R;
  responseTime : option R;
  endTime : option R;
  duration : option R
}.

Record RedirectEntry := {
  redirect_url : string;
  redirect_status : Z;
  redirect_headers : gmap string string
}.

Record CapturedRequest := mkCapturedRequest {
  id : string;
  index : nat;
  url : string;
  method : string;
  requestHeaders : gmap string string;
  requestBody : option string;
  status : Z;
  statusText : string;
  responseHeaders : gmap string string;
  responseBody : option string;
  mimeType : string;
  responseSize : Z;
  resourceType : ResourceType;
  initiator : RequestInitiator;
  timing : RequestTiming;
  redirectChain : list RedirectEntry;
  preflightFor : option string;
  preflightRequestId : option string;
  correlatedActionId : option string;
  correlationConfidence : option R;
  correlationMethod : option CorrelationMethod
}.

Record TrackedAction := {
  action_id : string;
  action_type : ActionType;
  selector : string;
  targetDescription : string;
  action_timestamp : R;
  pageUrl : string;
  resultingRequestIds : list string
}.

Inductive ChainType := redirect | preflight | auth_flow | sequential.

(** A [RequestChain]; the human-readable [description] is left out. *)
Record RequestChain := {
  chain_type : ChainType;
  requestIds : list string
}.

(** *** CDP events *)

Record CDPRequest := {
  rq_url : string;
  rq_method : string;
  rq_headers : gmap string string;
  rq_postData : option string
}.

Record CDPRedirectResponse := {
  rd_status : Z;
  rd_headers : gmap string string;
  rd_statusText : string
}.

Record CDPRequestWillBeSent := {
  rws_requestId : string;
  rws_request : CDPRequest;
  rws_timestamp : R;
  rws_wallTime : R;
  rws_initiator : RequestInitiator;
  rws_redirectResponse : option CDPRedirectResponse;
  rws_type : option string
}.

Record CDPResponse := {
  rs_url : string;
  rs_status : Z;
  rs_statusText : string;
  rs_headers : gmap string string;
  rs_mimeType : string
}.

Record CDPResponseReceived := {
  rr_requestId : string;
  rr_response : CDPResponse;
  rr_timestamp : R;
  rr_type : option string
}.

Record CDPLoadingFinished := {
  lf_requestId : string;
  lf_timestamp : R;
  lf_encodedDataLength : Z
}.

Record CDPLoadingFailed := {
  lx_requestId : string;
  lx_errorText : string;
  lx_timestamp : R
}.

(** *** Assignments to the fields of a request object *)

Definition set_url (v : string) (r : CapturedRequest) : CapturedRequest :=
  mkCapturedRequest (id r) (index r) v (method r) (requestHeaders r) (requestBody r)
  (status r) (statusText r) (responseHeaders r) (responseBody r) (mimeType r)
  (responseSize r) (resourceType r) (initiator r) (timing r) (redirectChain r)
  (preflightFor r) (preflightRequestId r) (correlatedActionId r)
  (correlationConfidence r) (correlationMethod r).
Definition set_method (v : string) (r : CapturedRequest) : CapturedRequest :=
  mkCapturedRequest (id r) (index r) (url r) v (requestHeaders r) (requestBody r)
  (status r) (statusText r) (responseHeaders r) (responseBody r) (mimeType r)
  (responseSize r) (resourceType r) (initiator r) (timing r) (redirectChain r)
  (preflightFor r) (preflightRequestId r) (correlatedActionId r)
  (correlationConfidence r) (correlationMethod r).
Definition set_requestHeaders (v : gmap string string) (r : CapturedRequest) : CapturedRequest :=
  mkCapturedRequest (id r) (index r) (url r) (method r) v (requestBody r) (status r)
  (statusText r) (responseHeaders r) (responseBody r) (mimeType r) (responseSize r)
  (resourceType r) (initiator r) (timing r) (redirectChain r) (preflightFor r)
  (preflightRequestId r) (correlatedActionId r) (correlationConfidence r)
  (correlationMethod r).
Definition set_requestBody (v : option string) (r : CapturedRequest) : CapturedRequest :=
  mkCapturedRequest (id r) (index r) (url r) (method r) (requestHeaders r) v (status r)
  (statusText r) (responseHeaders r) (responseBody r) (mimeType r) (responseSize r)
  (resourceType r) (initiator r) (timing r) (redirectChain r) (preflightFor r)
  (preflightRequestId r) (correlatedActionId r) (correlationConfidence r)
  (correlationMethod r).
Definition set_status (v : Z) (r : CapturedRequest) : CapturedRequest :=
  mkCapturedRequest (id r) (index r) (url r) (method r) (requestHeaders r)
  (requestBody r) v (statusText r) (responseHeaders r) (responseBody r) (mimeType r)
  (responseSize r) (resourceType r) (initiator r) (timing r) (redirectChain r)
  (preflightFor r) (preflightRequestId r) (correlatedActionId r)
  (correlationConfidence r) (correlationMethod r).
Definition set_statusText (v : string) (r : CapturedRequest) : CapturedRequest :=
  mkCapturedRequest (id r) (index r) (url r) (method r) (requestHeaders r)
  (requestBody r) (status r) v (responseHeaders r) (responseBody r) (mimeType r)
  (responseSize r) (resourceType r) (initiator r) (timing r) (redirectChain r)
  (preflightFor r) (preflightRequestId r) (correlatedActionId r)
  (correlationConfidence r) (correlationMethod r).
Definition set_responseHeaders (v : gmap string string) (r : CapturedRequest) : CapturedRequest :=
  mkCapturedRequest (id r) (index r) (url r) (method r) (requestHeaders r)
  (requestBody r) (status r) (statusText r) v (responseBody r) (mimeType r)
  (responseSize r) (resourceType r) (initiator r) (timing r) (redirectChain r)
  (preflightFor r) (preflightRequestId r) (correlatedActionId r)
  (correlationConfidence r) (correlationMethod r).
Definition set_responseBody (v : option string) (r : CapturedRequest) : CapturedRequest :=
  mkCapturedRequest (id r) (index r) (url r) (method r) (requestHeaders r)
  (requestBody r) (status r) (statusText r) (responseHeaders r) v (mimeType r)
  (responseSize r) (resourceType r) (initiator r) (timing r) (redirectChain r)
  (preflightFor r) (preflightRequestId r) (correlatedActionId r)
  (correlationConfidence r) (correlationMethod r).
Definition set_mimeType (v : string) (r : CapturedRequest) : CapturedRequest :=
  mkCapturedRequest (id r) (index r) (url r) (method r) (requestHeaders r)
  (requestBody r) (status r) (statusText r) (responseHeaders r) (responseBody r) v
  (responseSize r) (resourceType r) (initiator r) (timing r) (redirectChain r)
  (preflightFor r) (preflightRequestId r) (correlatedActionId r)
  (correlationConfidence r) (correlationMethod r).
Definition set_responseSize (v : Z) (r : CapturedRequest) : CapturedRequest :=
  mkCapturedRequest (id r) (index r) (url r) (method r) (requestHeaders r)
  (requestBody r) (status r) (statusText r) (responseHeaders r) (responseBody r)
  (mimeType r) v (resourceType r) (initiator r) (timing r) (redirectChain r)
  (preflightFor r) (preflightRequestId r) (correlatedActionId r)
  (correlationConfidence r) (correlationMethod r).
Definition set_resourceType (v : ResourceType) (r : CapturedRequest) : CapturedRequest :=
  mkCapturedRequest (id r) (index r) (url r) (method r) (requestHeaders r)
  (requestBody r) (status r) (statusText r) (responseHeaders r) (responseBody r)
  (mimeType r) (responseSize r) v (initiator r) (timing r) (redirectChain r)
  (preflightFor r) (preflightRequestId r) (correlatedActionId r)
  (correlationConfidence r) (correlationMethod r).
Definition set_timing (v : RequestTiming) (r : CapturedRequest) : CapturedRequest :=
  mkCapturedRequest (id r) (index r) (url r) (method r) (requestHeaders r)
  (requestBody r) (status r) (statusText r) (responseHeaders r) (responseBody r)
  (mimeType r) (responseSize r) (resourceType r) (initiator r) v (redirectChain r)
  (preflightFor r) (preflightRequestId r) (correlatedActionId r)
  (correlationConfidence r) (correlationMethod r).
Definition set_redirectChain (v : list RedirectEntry) (r : CapturedRequest) : CapturedRequest :=
  mkCapturedRequest (id r) (index r) (url r) (method r) (requestHeaders r)
  (requestBody r) (status r) (statusText r) (responseHeaders r) (responseBody r)
  (mimeType r) (responseSize r) (resourceType r) (initiator r) (timing r) v
  (preflightFor r) (preflightRequestId r) (correlatedActionId r)
  (correlationConfidence r) (correlationMethod r).
Definition set_preflightFor (v : option string) (r : CapturedRequest) : CapturedRequest :=
  mkCapturedRequest (id r) (index r) (url r) (method r) (requestHeaders r)
  (requestBody r) (status r) (statusText r) (responseHeaders r) (responseBody r)
  (mimeType r) (responseSize r) (resourceType r) (initiator r) (timing r)
  (redirectChain r) v (preflightRequestId r) (correlatedActionId r)
  (correlationConfidence r) (correlationMethod r).
Definition set_preflightRequestId (v : option string) (r : CapturedRequest) : CapturedRequest :=
  mkCapturedRequest (id r) (index r) (url r) (method r) (requestHeaders r)
  (requestBody r) (status r) (statusText r) (responseHeaders r) (responseBody r)
  (mimeType r) (responseSize r) (resourceType r) (initiator r) (timing r)
  (redirectChain r) (preflightFor r) v (correlatedActionId r) (correlationConfidence r)
  (correlationMethod r).

(** The three attribution fields, which the correlator assigns together. *)
Definition set_correlation (a : string) (c : R) (m : CorrelationMethod)
    (r : CapturedRequest) : CapturedRequest :=
  mkCapturedRequest (id r) (index r) (url r) (method r) (requestHeaders r)
  (requestBody r) (status r) (statusText r) (responseHeaders r) (responseBody r)
  (mimeType r) (responseSize r) (resourceType r) (initiator r) (timing r)
  (redirectChain r) (preflightFor r) (preflightRequestId r) (Some a) (Some c) (Some m).

Definition set_responseTime (v : R) (t : RequestTiming) : RequestTiming :=
  {| startTime := startTime t; responseTime := Some v;
     endTime := endTime t; duration := duration t |}.
Definition set_startTime (v : R) (t : RequestTiming) : RequestTiming :=
  {| startTime := v; responseTime := responseTime t;
     endTime := endTime t; duration := duration t |}.

(** ** The network capture (network.ts)

    The class keeps two maps from request ID to request object, [pending]
    and [requests].  The objects are shared: an entry found in [pending] is
    mutated in place, the request object of an entry is the very object that
    [finalizeRequest] stores, and the callbacks of a body fetch keep their
    entry after [clear].  The model therefore allocates every entry in
    [heap] and lets the maps and the outstanding fetches hold locations. *)

Module NetworkCapture.

Record Options := {
  maxRequests : nat;
  maxResponseBodySize : nat;
  (** [RegExp[]], each pattern taken as its [test] function *)
  excludePatterns : list (string -> bool)
}.

Definition DEFAULT_OPTIONS : Options :=
  {| maxRequests := 1000; maxResponseBodySize := 512 * 1024; excludePatterns := [] |}.

(** A value of [pending]: [{ request, redirectChain }].  [chain_shared]
    records that [request.redirectChain] has been assigned the entry's
    array ([entry.request.redirectChain = entry.redirectChain]); before
    that it is the empty array the request was created with. *)
Record Entry := mkEntry {
  request : CapturedRequest;
  entry_redirectChain : list RedirectEntry;
  chain_shared : bool
}.

(** The request object of an entry, as a reader of the store sees it. *)
Definition captured (e : Entry) : CapturedRequest :=
  if chain_shared e then set_redirectChain (entry_redirectChain e) (request e)
  else request e.

Definition on_request (f : CapturedRequest -> CapturedRequest) (e : Entry) : Entry :=
  mkEntry (f (request e)) (entry_redirectChain e) (chain_shared e).

Record t := mkState {
  requests : list (string * nat);
  requestOrder : list string;
  nextIndex : nat;
  options : Options;
  timestampOffset : option R;
  pending : list (string * nat);
  (** every entry object allocated so far *)
  heap : list Entry;
  (** body fetches started and not yet settled: the request ID and the
      entry their callbacks captured *)
  fetches : list (string * nat)
}.

Definition new (o : Options) : t := mkState [] [] 0 o None [] [] [].

Definition set_requests v (s : t) : t :=
  mkState v (requestOrder s) (nextIndex s) (options s) (timestampOffset s)
  (pending s) (heap s) (fetches s).
Definition set_requestOrder v (s : t) : t :=
  mkState (requests s) v (nextIndex s) (options s) (timestampOffset s) (pending s)
  (heap s) (fetches s).
Definition set_nextIndex v (s : t) : t :=
  mkState (requests s) (requestOrder s) v (options s) (timestampOffset s) (pending s)
  (heap s) (fetches s).
Definition set_timestampOffset v (s : t) : t :=
  mkState (requests s) (requestOrder s) (nextIndex s) (options s) v (pending s)
  (heap s) (fetches s).
Definition set_pending v (s : t) : t :=
  mkState (requests s) (requestOrder s) (nextIndex s) (options s) (timestampOffset s)
  v (heap s) (fetches s).
Definition set_heap v (s : t) : t :=
  mkState (requests s) (requestOrder s) (nextIndex s) (options s) (timestampOffset s)
  (pending s) v (fetches s).
Definition set_fetches v (s : t) : t :=
  mkState (requests s) (requestOrder s) (nextIndex s) (options s) (timestampOffset s)
  (pending s) (heap s) v.

(** An assignment to fields of the request object at location [l]. *)
Definition modify (l : nat) (f : CapturedRequest -> CapturedRequest) (s : t) : t :=
  set_heap (alter (on_request f) l (heap s)) s.

(** Convert CDP monotonic timestamp (seconds) to wall clock (ms). *)
Definition toWallTimeMs (s : t) (cdpTimestamp : R) : R :=
  match timestampOffset s with
  | None => (cdpTimestamp * 1000)%R
  | Some offset => ((cdpTimestamp + offset) * 1000)%R
  end.

Definition shouldExclude (s : t) (u : string) : bool :=
  existsb (fun pattern => pattern u) (excludePatterns (options s)).

Definition shouldFetchBody (r : CapturedRequest) : bool :=
  let mime := mimeType r in
  negb (Js.startsWith mime "image/" || Js.startsWith mime "video/" ||
        Js.startsWith mime "audio/" || Js.includes mime "font" ||
        Js.includes mime "wasm").

Definition truncateBody (s : t) (body : string) (base64Encoded : bool) : string :=
  if base64Encoded then
    "[base64 encoded, " ++ pretty (String.length body) ++ " chars]"
  else if (maxResponseBodySize (options s) <? String.length body)%nat then
    Js.substring0 (maxResponseBodySize (options s)) body ++
    String "010" "... [truncated, " ++ pretty (String.length body) ++ " total chars]"
  else body.

Fixpoint convertStackTrace (cdpStack : StackTrace) : StackTrace :=
  match cdpStack with
  | mkStackTrace d frames p =>
      mkStackTrace d frames
        match p with
        | Some p' => Some (convertStackTrace p')
        | None => None
        end
  end.

Definition convertInitiator (cdpInitiator : RequestInitiator) : RequestInitiator :=
  {| init_type := init_type cdpInitiator;
     init_stack := match init_stack cdpInitiator with
                   | Some st => Some (convertStackTrace st)
                   | None => None
                   end;
     init_url := init_url cdpInitiator;
     init_lineNumber := init_lineNumber cdpInitiator;
     init_columnNumber := init_columnNumber cdpInitiator;
     init_requestId := init_requestId cdpInitiator |}.

Definition classifyResourceType (cdpType : option string) : ResourceType :=
  match cdpType with
  | None => other
  | Some ty =>
      if String.eqb ty "XHR" then xhr
      else if String.eqb ty "Fetch" then fetch
      else if String.eqb ty "Document" then document
      else if String.eqb ty "Stylesheet" then stylesheet
      else if String.eqb ty "Script" then script
      else if String.eqb ty "Image" then image
      else if String.eqb ty "Font" then font
      else if String.eqb ty "WebSocket" then websocket
      else other
  end.

(** [finalizeRequest(requestId, partial)], [partial] being the request
    object of the entry at [l].  [onRequestComplete] is not set. *)
Definition finalizeRequest (requestId : string) (l : nat) (s : t) : t :=
  let s := set_pending (JsMap.delete requestId (pending s)) s in
  (* Enforce ring buffer size *)
  let s :=
    if (maxRequests (options s) <=? JsMap.size (requests s))%nat then
      match requestOrder s with
      | oldest :: rest =>
          let s := set_requestOrder rest s in
          if Js.truthy (Some oldest)
          then set_requests (JsMap.delete oldest (requests s)) s
          else s
      | [] => s
      end
    else s in
  let s := set_requests (JsMap.set requestId l (requests s)) s in
  set_requestOrder (requestOrder s ++ [requestId]) s.

(** The entry of a request that [handleRequestWillBeSent] creates. *)
Definition newEntry (params : CDPRequestWillBeSent) (s : t) : Entry :=
  mkEntry
    {| id := rws_requestId params;
       index := nextIndex s;
       url := rq_url (rws_request params);
       method := rq_method (rws_request params);
       requestHeaders := rq_headers (rws_request params);
       requestBody := rq_postData (rws_request params);
       status := 0;
       statusText := "";
       responseHeaders := ∅;
       responseBody := None;
       mimeType := "";
       responseSize := 0;
       resourceType := classifyResourceType (rws_type params);
       initiator := convertInitiator (rws_initiator params);
       timing := {| startTime := rws_wallTime params * 1000;
                    responseTime := None; endTime := None; duration := None |};
       redirectChain := [];
       preflightFor := None;
       preflightRequestId := None;
       correlatedActionId := None;
       correlationConfidence := None;
       correlationMethod := None |}
    [] false.

(** [entry.request.preflightFor === requestId] for the entry at [l]. *)
Definition isPreflightFor (s : t) (requestId : string) (l : nat) : bool :=
  match heap s !! l with
  | Some e => Js.strict_eq (preflightFor (request e)) requestId
  | None => false
  end.

(** "Detect preflight relationships", the last part of
    [handleRequestWillBeSent]. *)
Definition detectPreflight (params : CDPRequestWillBeSent) (s : t) : t :=
  let rid := rws_requestId params in
  let ini := rws_initiator params in
  if String.eqb (init_type ini) "preflight" && Js.truthy (init_requestId ini) then
    let target := default "" (init_requestId ini) in
    (* Mark this preflight as being for the actual request *)
    let s := match JsMap.get rid (pending s) with
             | Some l => modify l (set_preflightFor (Some target)) s
             | None => s
             end in
    (* Mark the actual request as having this preflight *)
    let s := match JsMap.get target (pending s) with
             | Some l => modify l (set_preflightRequestId (Some rid)) s
             | None => s
             end in
    match JsMap.get target (requests s) with
    | Some l => modify l (set_preflightRequestId (Some rid)) s
    | None => s
    end
  else
    let backfill (found : option string) (s : t) : t :=
      match found with
      | Some preflightId =>
          match JsMap.get rid (pending s) with
          | Some l => modify l (set_preflightRequestId (Some preflightId)) s
          | None => s
          end
      | None => s
      end in
    let s := backfill (JsMap.findFirst (isPreflightFor s rid) (pending s)) s in
    backfill (JsMap.findFirst (isPreflightFor s rid) (requests s)) s.

(** "Compute timestamp offset on first event". *)
Definition computeOffset (params : CDPRequestWillBeSent) (s : t) : t :=
  match timestampOffset s with
  | None => set_timestampOffset
              (Some (rws_wallTime params - rws_timestamp params)%R) s
  | Some _ => s
  end.

(** "This is a redirect": record the previous response in the chain of the
    existing entry and update the request to the new URL. *)
Definition recordRedirect (params : CDPRequestWillBeSent)
    (redirectResponse : CDPRedirectResponse) (existing : Entry) : Entry :=
  mkEntry
    (set_timing (set_startTime (rws_wallTime params * 1000)
                               (timing (request existing)))
    (set_requestBody (rq_postData (rws_request params))
    (set_requestHeaders (rq_headers (rws_request params))
    (set_method (rq_method (rws_request params))
    (set_url (rq_url (rws_request params)) (request existing))))))
    (entry_redirectChain existing ++
       [{| redirect_url := url (request existing);
           redirect_status := rd_status redirectResponse;
           redirect_headers := rd_headers redirectResponse |}])
    (chain_shared existing).

(** "New request": [this.pending.set(params.requestId, {...})]. *)
Definition createRequest (params : CDPRequestWillBeSent) (s : t) : t :=
  set_nextIndex (S (nextIndex s))
    (set_pending (JsMap.set (rws_requestId params) (length (heap s)) (pending s))
       (set_heap (heap s ++ [newEntry params s]) s)).

Definition handleRequestWillBeSent (params : CDPRequestWillBeSent) (s : t) : t :=
  if shouldExclude s (rq_url (rws_request params)) then s else
  let s := computeOffset params s in
  match rws_redirectResponse params, JsMap.get (rws_requestId params) (pending s) with
  | Some redirectResponse, Some l =>
      set_heap (alter (recordRedirect params redirectResponse) l (heap s)) s
  | _, _ => detectPreflight params (createRequest params s)
  end.

Definition handleResponseReceived (params : CDPResponseReceived) (s : t) : t :=
  match JsMap.get (rr_requestId params) (pending s) with
  | None => s
  | Some l =>
      modify l (fun r =>
        let r := set_status (rs_status (rr_response params)) r in
        let r := set_statusText (rs_statusText (rr_response params)) r in
        let r := set_responseHeaders (rs_headers (rr_response params)) r in
        let r := set_mimeType (rs_mimeType (rr_response params)) r in
        let r := set_timing (set_responseTime (toWallTimeMs s (rr_timestamp params))
                                              (timing r)) r in
        (* Update resource type if CDP provided one *)
        if Js.truthy (rr_type params)
        then set_resourceType (classifyResourceType (rr_type params)) r
        else r) s
  end.

(** [timing.endTime] and [timing.duration] at the end of a request. *)
Definition stampEnd (s : t) (cdpTimestamp : R) (r : CapturedRequest) : CapturedRequest :=
  let endT := toWallTimeMs s cdpTimestamp in
  set_timing {| startTime := startTime (timing r);
                responseTime := responseTime (timing r);
                endTime := Some endT;
                duration := Some (endT - startTime (timing r))%R |} r.

(** [entry.request.redirectChain = entry.redirectChain]. *)
Definition shareChain (l : nat) (s : t) : t :=
  set_heap (alter (fun e => mkEntry (request e) (entry_redirectChain e) true)
                  l (heap s)) s.

(** [getResponseBody] tells whether the caller passed the callback. *)
Definition handleLoadingFinished (params : CDPLoadingFinished)
    (getResponseBody : bool) (s : t) : t :=
  match JsMap.get (lf_requestId params) (pending s) with
  | None => s
  | Some l =>
      let s := modify l (fun r =>
                 stampEnd s (lf_timestamp params)
                   (set_responseSize (lf_encodedDataLength params) r)) s in
      (* Copy redirect chain *)
      let s := shareChain l s in
      let fetchBody := match heap s !! l with
                       | Some e => shouldFetchBody (request e)
                       | None => false
                       end in
      if getResponseBody && fetchBody
      then set_fetches (fetches s ++ [(lf_requestId params, l)]) s
      else finalizeRequest (lf_requestId params) l s
  end.

Definition handleLoadingFailed (params : CDPLoadingFailed) (s : t) : t :=
  match JsMap.get (lx_requestId params) (pending s) with
  | None => s
  | Some l =>
      let s := modify l (fun r =>
                 let r := if (status r =? 0)%Z
                          then set_statusText (lx_errorText params) (set_status 0 r)
                          else r in
                 stampEnd s (lx_timestamp params) r) s in
      let s := shareChain l s in
      finalizeRequest (lx_requestId params) l s
  end.

Definition clear (s : t) : t :=
  set_timestampOffset None
    (set_nextIndex 0 (set_pending [] (set_requestOrder [] (set_requests [] s)))).

(** How the promise returned by [getResponseBody] settles. *)
Inductive FetchResult :=
| Fulfilled (result : option (string * bool))
| Rejected.

(** The [.then] and [.catch] callbacks of the [k]-th outstanding fetch. *)
Definition fetchSettled (k : nat) (res : FetchResult) (s : t) : t :=
  match fetches s !! k with
  | None => s
  | Some (requestId, l) =>
      let s := set_fetches (delete k (fetches s)) s in
      let s := match res with
               | Fulfilled (Some (body, base64Encoded)) =>
                   modify l (set_responseBody
                               (Some (truncateBody s body base64Encoded))) s
               | Fulfilled None | Rejected => s
               end in
      finalizeRequest requestId l s
  end.

(** *** Queries *)

Definition getRequest (requestId : string) (s : t) : option CapturedRequest :=
  match JsMap.get requestId (requests s) with
  | Some l => captured <$> heap s !! l
  | None => None
  end.

Definition size (s : t) : nat := JsMap.size (requests s).

Definition pendingCount (s : t) : nat := JsMap.size (pending s).

(** *** Event sequences *)

Inductive Event :=
| RequestWillBeSent (params : CDPRequestWillBeSent)
| ResponseReceived (params : CDPResponseReceived)
| LoadingFinished (params : CDPLoadingFinished) (getResponseBody : bool)
| LoadingFailed (params : CDPLoadingFailed)
| Clear
| FetchSettled (k : nat) (res : FetchResult).

Definition step (s : t) (e : Event) : t :=
  match e with
  | RequestWillBeSent params => handleRequestWillBeSent params s
  | ResponseReceived params => handleResponseReceived params s
  | LoadingFinished params getResponseBody =>
      handleLoadingFinished params getResponseBody s
  | LoadingFailed params => handleLoadingFailed params s
  | Clear => clear s
  | FetchSettled k res => fetchSettled k res s
  end.

Definition run (s : t) (es : list Event) : t := fold_left step es s.

(** An event that creates no request and coalesces none: anything but a
    [RequestWillBeSent] whose URL passes the exclusion filter. *)
Definition notCaptured (s : t) (e : Event) : bool :=
  match e with
  | RequestWillBeSent params => shouldExclude s (rq_url (rws_request params))
  | _ => true
  end.

(** The entry that an event is coalesced into as a redirect hop: the event
    is a [RequestWillBeSent] with a [redirectResponse], its URL is not
    excluded, and its request ID is pending. *)
Definition coalescedInto (s : t) (e : Event) : option nat :=
  match e with
  | RequestWillBeSent params =>
      if shouldExclude s (rq_url (rws_request params)) then None else
      match rws_redirectResponse params with
      | Some _ => JsMap.get (rws_requestId params) (pending s)
      | None => None
      end
  | _ => None
  end.

Definition hit (s : t) (e : Event) (l : nat) : nat :=
  match coalescedInto s e with
  | Some l' => if (l' =? l)%nat then 1 else 0
  | None => 0
  end.

(** The number of events of [es], applied from [s] on, that are coalesced
    into the entry at [l]. *)
Fixpoint hopsInto (l : nat) (s : t) (es : list Event) : nat :=
  match es with
  | [] => 0
  | e :: es' => hit s e l + hopsInto l (step s e) es'
  end.

(** The redirect-bearing [RequestWillBeSent] events of a request ID. *)
Definition redirectBearing (requestId : string) (e : Event) : bool :=
  match e with
  | RequestWillBeSent params =>
      String.eqb (rws_requestId params) requestId &&
      match rws_redirectResponse params with Some _ => true | None => false end
  | _ => false
  end.

Definition observedRedirects (requestId : string) (es : list Event) : nat :=
  length (List.filter (redirectBearing requestId) es).

(** Every location held by a map or an outstanding fetch is allocated. *)
Definition locsBelow (n : nat) (m : list (string * nat)) : Prop :=
  Forall (fun kv => (kv.2 < n)%nat) m.

Definition valid (s : t) : Prop :=
  locsBelow (length (heap s)) (pending s) /\
  locsBelow (length (heap s)) (requests s) /\
  locsBelow (length (heap s)) (fetches s).

(** The request object of every committed or fetching entry shares the
    redirect chain of its entry. *)
Definition sharedWhenDone (s : t) : Prop :=
  forall rid l e,
    In (rid, l) (requests s) \/ In (rid, l) (fetches s) ->
    heap s !! l = Some e -> chain_shared e = true.

Definition chainLength (o : option Entry) : nat :=
  match o with
  | Some e => length (entry_redirectChain e)
  | None => 0
  end.

(** *** Event sequences that pair preflights one to one *)

(** Some entry allocated so far has this request ID. *)
Definition knownId (s : t) (requestId : string) : bool :=
  existsb (fun e => String.eqb (id (request e)) requestId) (heap s).

(** Some entry allocated so far is a preflight for this request ID. *)
Definition namedTarget (s : t) (requestId : string) : bool :=
  existsb (fun e => Js.strict_eq (preflightFor (request e)) requestId) (heap s).

(** The event reaches "New request". *)
Definition creates (s : t) (params : CDPRequestWillBeSent) : bool :=
  negb (shouldExclude s (rq_url (rws_request params))) &&
  negb match rws_redirectResponse params, JsMap.get (rws_requestId params) (pending s) with
       | Some _, Some _ => true
       | _, _ => false
       end.

(** The request that the event declares itself a preflight for. *)
Definition preflightTarget (params : CDPRequestWillBeSent) : option string :=
  if String.eqb (init_type (rws_initiator params)) "preflight" &&
     Js.truthy (init_requestId (rws_initiator params))
  then init_requestId (rws_initiator params)
  else None.

(** Every outstanding body fetch belongs to an entry that is still pending. *)
Definition fetchesPending (s : t) : bool :=
  forallb (fun kv => match JsMap.get kv.1 (pending s) with
                     | Some l => (l =? kv.2)%nat
                     | None => false
                     end) (fetches s).

(** The discipline of an event source that pairs preflights one to one: a
    new request has an ID that was never used; a new preflight names a
    target that no earlier preflight names, and is not itself named by an
    earlier preflight; and no body fetch outlives its pending entry. *)
Definition orderlyEvent (s : t) (e : Event) : bool :=
  match e with
  | RequestWillBeSent params =>
      if creates s params then
        negb (knownId s (rws_requestId params)) &&
        match preflightTarget params with
        | Some target =>
            negb (namedTarget s target) && negb (namedTarget s (rws_requestId params))
        | None => true
        end
      else true
  | _ => true
  end && fetchesPending (step s e).

Fixpoint orderly (s : t) (es : list Event) : bool :=
  match es with
  | [] => true
  | e :: es' => orderlyEvent s e && orderly (step s e) es'
  end.

(** The fields that link a preflight and its request. *)
Definition links (e : Entry) : string * option string * option string :=
  (id (request e), preflightFor (request e), preflightRequestId (request e)).

(** An entry that the maps still hold. *)
Definition reach (s : t) (l : nat) : Prop :=
  exists k, In (k, l) (pending s) \/ In (k, l) (requests s).

(** The value that the scans of a non-preflight request leave in its
    [preflightRequestId]. *)
Definition backfilled (s : t) (requestId : string) (before : option string)
  : option string :=
  match JsMap.findFirst (isPreflightFor s requestId) (requests s) with
  | Some k => Some k
  | None =>
      match JsMap.findFirst (isPreflightFor s requestId) (pending s) with
      | Some k => Some k
      | None => before
      end
  end.

(** What an orderly event sequence maintains. *)
Record paired (s : t) : Prop := {
  paired_valid : valid s;
  paired_keys : forall k l e,
    In (k, l) (pending s) \/ In (k, l) (requests s) ->
    heap s !! l = Some e -> id (request e) = k;
  paired_unique : forall l1 l2 e1 e2,
    heap s !! l1 = Some e1 -> heap s !! l2 = Some e2 ->
    id (request e1) = id (request e2) -> l1 = l2;
  paired_known : forall l e a,
    heap s !! l = Some e -> preflightRequestId (request e) = Some a ->
    exists l' e', heap s !! l' = Some e' /\ id (request e') = a;
  paired_named : forall l1 l2 e1 e2 target,
    heap s !! l1 = Some e1 -> heap s !! l2 = Some e2 ->
    preflightFor (request e1) = Some target ->
    preflightFor (request e2) = Some target -> l1 = l2;
  paired_back : forall la lb ea eb,
    heap s !! la = Some ea -> heap s !! lb = Some eb ->
    preflightRequestId (request eb) = Some (id (request ea)) ->
    preflightFor (request ea) = Some (id (request eb));
  paired_forth : forall la lb ea eb,
    reach s la -> reach s lb ->
    heap s !! la = Some ea -> heap s !! lb = Some eb ->
    preflightFor (request ea) = Some (id (request eb)) ->
    preflightRequestId (request eb) = Some (id (request ea))
}.

(** A request without its preflight links. *)
Definition linkless (r : CapturedRequest) : CapturedRequest :=
  set_preflightFor None (set_preflightRequestId None r).

(** Everything of a state except its heap. *)
Definition control (s : t) :=
  (requests s, requestOrder s, nextIndex s, options s, timestampOffset s,
   pending s, fetches s).

(** *** Event sources that keep the counters and the ring buffer exact *)

(** An entry that a map or an outstanding body fetch holds. *)
Definition member (s : t) (k : string) (l : nat) : Prop :=
  In (k, l) (pending s) \/ In (k, l) (requests s) \/ In (k, l) (fetches s).

(** Every entry is held under the ID of its request. *)
Definition keyed (s : t) : Prop :=
  forall k l e, member s k l -> heap s !! l = Some e -> id (request e) = k.

(** No body fetch settles for an entry that is no longer pending: after
    every event, the outstanding fetches belong to pending entries. *)
Fixpoint fetchesLive (s : t) (es : list Event) : bool :=
  match es with
  | [] => true
  | e :: es' => fetchesPending (step s e) && fetchesLive (step s e) es'
  end.

(** The store holds a record under this ID. *)
Definition stored (s : t) (requestId : string) : bool :=
  JsMap.has requestId (requests s).

(** A body fetch is outstanding for this ID. *)
Definition fetching (s : t) (requestId : string) : bool :=
  existsb (fun kv => String.eqb kv.1 requestId) (fetches s).

(** The discipline of an event source whose request IDs identify requests:
    a new request has an ID that is not empty and is neither the ID of a
    stored record nor that of an outstanding body fetch; and no
    [LoadingFinished] or [LoadingFailed] arrives for an ID whose body is
    being fetched.  [clear] may come at any time, also while body fetches
    are outstanding, and those fetches may settle afterwards. *)
Definition tidyEvent (s : t) (e : Event) : bool :=
  match e with
  | RequestWillBeSent params =>
      if creates s params then
        Js.truthy (Some (rws_requestId params)) &&
        negb (stored s (rws_requestId params)) &&
        negb (fetching s (rws_requestId params))
      else true
  | LoadingFinished params _ => negb (fetching s (lf_requestId params))
  | LoadingFailed params => negb (fetching s (lx_requestId params))
  | _ => true
  end.

Fixpoint tidy (s : t) (es : list Event) : bool :=
  match es with
  | [] => true
  | e :: es' => tidyEvent s e && tidy (step s e) es'
  end.

(** What a tidy event source maintains of the ring buffer: the eviction
    order lists the stored IDs in insertion order; the IDs of each map and
    of the outstanding fetches are distinct and not empty; no pending or
    fetching ID is stored; and the store is within its bound (which is one
    record when [maxRequests] is 0). *)
Definition ring (s : t) : Prop :=
  requestOrder s = JsMap.keys (requests s) /\
  List.NoDup (JsMap.keys (requests s)) /\
  List.NoDup (JsMap.keys (pending s)) /\
  List.NoDup (JsMap.keys (fetches s)) /\
  (forall k, In k (JsMap.keys (pending s)) \/ In k (JsMap.keys (fetches s)) ->
             ~ In k (JsMap.keys (requests s))) /\
  (forall k, In k (JsMap.keys (pending s)) \/ In k (JsMap.keys (requests s)) \/
             In k (JsMap.keys (fetches s)) -> k <> "") /\
  (JsMap.size (requests s) <= Nat.max 1 (maxRequests (options s)))%nat.

(** The request object of a pending entry. *)
Definition pendingRequest (requestId : string) (s : t) : option CapturedRequest :=
  match JsMap.get requestId (pending s) with
  | Some l => request <$> heap s !! l
  | None => None
  end.

Definition isRequestWillBeSent (e : Event) : bool :=
  match e with RequestWillBeSent _ => true | _ => false end.

End NetworkCapture.

(** ** JavaScript numbers and arrays *)

(** Comparisons of JavaScript numbers, as booleans. *)
Definition Rleb (x y : R) : bool := if Rle_dec x y then true else false.
Definition Rltb (x y : R) : bool := if Rlt_dec x y then true else false.

(** Truthiness of an optional number: [undefined] and [0] are falsy. *)
Definition truthyNumber (o : option R) : bool :=
  match o with
  | Some x => if Req_dec_T x 0 then false else true
  | None => false
  end.

(** [Array.prototype.sort] is stable; [before y x] says that the comparator
    puts [y] strictly before [x]. *)
Section sort.
Context {A : Type} (before : A -> A -> bool).

Fixpoint insertSorted (x : A) (l : list A) : list A :=
  match l with
  | [] => [x]
  | y :: l' => if before y x then y :: insertSorted x l' else x :: y :: l'
  end.

Definition sortBy (l : list A) : list A := fold_right insertSorted [] l.
End sort.

(** ** The query methods of [NetworkCapture] that take a filter *)

Module Query.
Import NetworkCapture.

Record NetworkFilter := {
  urlPattern : option string;
  filter_method : option string;
  statusMin : option Z;
  statusMax : option Z;
  filter_resourceType : option ResourceType;
  sinceActionId : option string;
  sinceTimestamp : option R;
  limit : option nat
}.

Definition sameResourceType (a b : ResourceType) : bool :=
  match a, b with
  | xhr, xhr | fetch, fetch | document, document | stylesheet, stylesheet
  | script, script | image, image | font, font | websocket, websocket
  | other, other => true
  | _, _ => false
  end.

(** The filter without its [limit]. *)
Definition withoutLimit (f : NetworkFilter) : NetworkFilter :=
  {| urlPattern := urlPattern f; filter_method := filter_method f;
     statusMin := statusMin f; statusMax := statusMax f;
     filter_resourceType := filter_resourceType f;
     sinceActionId := sinceActionId f; sinceTimestamp := sinceTimestamp f;
     limit := None |}.

Section queries.

(** [new RegExp(pattern, "i")], as the test it compiles to; [None] when the
    pattern is not a valid regular expression. *)
Variable RegExp_i : string -> option (string -> bool).

(** The callback of [applyFilter]. *)
Definition passesFilter (filter : NetworkFilter) (req : CapturedRequest) : bool :=
  (if Js.truthy (urlPattern filter) then
     let pattern := default "" (urlPattern filter) in
     match RegExp_i pattern with
     | Some test => test (url req)
     | None =>
         (* Invalid regex: treat as literal substring match *)
         Js.includes (Js.toLowerCase (url req)) (Js.toLowerCase pattern)
     end
   else true) &&
  (if Js.truthy (filter_method filter) then
     String.eqb (Js.toUpperCase (method req))
                (Js.toUpperCase (default "" (filter_method filter)))
   else true) &&
  match statusMin filter with
  | Some lo => negb (status req <? lo)%Z
  | None => true
  end &&
  match statusMax filter with
  | Some hi => negb (hi <? status req)%Z
  | None => true
  end &&
  match filter_resourceType filter with
  | Some ty => sameResourceType (resourceType req) ty
  | None => true
  end &&
  match sinceTimestamp filter with
  | Some since =>
      if Rlt_dec (startTime (timing req)) since then false else true
  | None => true
  end.

Definition applyFilter (requests : list CapturedRequest) (filter : NetworkFilter)
  : list CapturedRequest :=
  List.filter (passesFilter filter) requests.

(** [Array.from(this.requests.values())]. *)
Definition values (s : t) : list CapturedRequest :=
  omap (fun kv : string * nat => captured <$> heap s !! kv.2) (requests s).

Definition byIndex (a b : CapturedRequest) : bool := (index a <? index b)%nat.

Definition getRequests (filter : option NetworkFilter) (s : t)
  : list CapturedRequest :=
  let results := values s in
  let results := match filter with
                 | Some f => applyFilter results f
                 | None => results
                 end in
  (* Sort by index (chronological order) *)
  let results := sortBy byIndex results in
  match filter with
  | Some f =>
      match limit f with
      | Some n =>
          if negb (n =? 0)%nat && (n <? length results)%nat
          then take n results else results
      | None => results
      end
  | None => results
  end.

Definition getRequestsSince (timestampMs : R) (s : t) : list CapturedRequest :=
  getRequests
    (Some {| urlPattern := None; filter_method := None; statusMin := None;
             statusMax := None; filter_resourceType := None;
             sinceActionId := None; sinceTimestamp := Some timestampMs;
             limit := None |}) s.

End queries.

End Query.

(** ** The correlator (correlator.ts) *)

(** The values [JSON.parse] returns. *)
Inductive JsonValue :=
| JNull
| JBool (b : bool)
| JNumber (x : R)
| JString (s : string)
| JArray (items : list JsonValue)
| JObject (properties : list (string * JsonValue)).

Module Json.

(** The value of a JavaScript expression: [None] is [undefined]. *)
Definition truthy (v : option JsonValue) : bool :=
  match v with
  | None | Some JNull => false
  | Some (JBool b) => b
  | Some (JNumber x) => if Req_dec_T x 0 then false else true
  | Some (JString s) => negb (String.eqb s "")
  | Some (JArray _) | Some (JObject _) => true
  end.

Fixpoint lookup (k : string) (properties : list (string * JsonValue))
  : option JsonValue :=
  match properties with
  | [] => None
  | (k', v) :: rest => if String.eqb k k' then Some v else lookup k rest
  end.

(** [v.k] for a key that no prototype defines: the outer [None] is the
    [TypeError] of a property read on [null]. *)
Definition prop (v : JsonValue) (k : string) : option (option JsonValue) :=
  match v with
  | JNull => None
  | JObject properties => Some (lookup k properties)
  | _ => Some None
  end.

(** [v?.k] where [v] may be [undefined]. *)
Definition optProp (v : option JsonValue) (k : string) : option JsonValue :=
  match v with
  | None | Some JNull => None
  | Some v' => default None (prop v' k)
  end.

(** [a || b]. *)
Definition or (a b : option JsonValue) : option JsonValue :=
  if truthy a then a else b.

End Json.

Module Correlator.

#[local] Open Scope R_scope.

(** User-triggerable event types found in CDP async stack descriptions *)
Definition USER_EVENT_TYPES : list string :=
  ["click"; "dblclick"; "mousedown"; "mouseup"; "submit"; "input"; "change";
   "keydown"; "keyup"; "keypress"; "touchstart"; "touchend"; "pointerdown";
   "pointerup"; "focus"; "blur"].

(** URL patterns that indicate background/non-user-triggered requests *)
Definition BACKGROUND_PATTERNS : list RegExp.t :=
  map RegExp.rei
    ["analytics"; "tracking"; "telemetry"; "heartbeat"; "health"; "ping";
     "beacon"; "google-analytics"; "gtag"; "fbevents"; "segment\.io";
     "hotjar"; "sentry"; "datadog"; "newrelic"].

Record Options := {
  maxCorrelationWindow : R;
  minConfidence : R;
  networkQuietPeriod : R
}.

Definition DEFAULT_OPTIONS : Options :=
  {| maxCorrelationWindow := 2000; minConfidence := 0.2; networkQuietPeriod := 500 |}.

Record t := mkCorrelator {
  actions : list TrackedAction;
  options : Options
}.

Definition new (o : Options) : t := mkCorrelator [] o.

Definition recordAction (action : TrackedAction) (c : t) : t :=
  mkCorrelator (actions c ++ [action]) (options c).

Definition clear (c : t) : t := mkCorrelator [] (options c).

(** An action object of [this.actions]: its position and its content. *)
Definition refs (c : t) : list (nat * TrackedAction) := imap pair (actions c).

(** [this.actions.find((a) => a.id === actionId)]. *)
Definition getAction (actionId : string) (c : t) : option (nat * TrackedAction) :=
  head (List.filter (fun a => String.eqb (action_id a.2) actionId) (refs c)).

(** The result of [correlateRequest]. *)
Record Match := mkMatch {
  match_action : nat * TrackedAction;
  match_confidence : R;
  match_method : CorrelationMethod
}.

(** [delta >= -10 && delta <= this.options.maxCorrelationWindow]. *)
Definition inWindow (c : t) (r : CapturedRequest) (a : TrackedAction) : bool :=
  let delta := (startTime (timing r) - action_timestamp a)%R in
  Rleb (-10) delta && Rleb delta (maxCorrelationWindow (options c)).

(** *** Stack trace analysis (Layer 1) *)

(** Walk the async stack trace to find the originating user event. *)
Fixpoint extractEventOriginFrom (current : StackTrace) (depth : nat)
  : option (string * nat) :=
  if (50 <=? depth)%nat then None else
  let next := match parent current with
              | Some p => extractEventOriginFrom p (S depth)
              | None => None
              end in
  match description current with
  | Some d =>
      if negb (String.eqb d "") &&
         existsb (String.eqb (Js.toLowerCase d)) USER_EVENT_TYPES
      then Some (Js.toLowerCase d, depth)
      else next
  | None => next
  end.

Definition extractEventOrigin (stack : StackTrace) : option (string * nat) :=
  extractEventOriginFrom stack 0%nat.

Definition eventMatchesAction (eventType : string) (a : TrackedAction) : bool :=
  (String.eqb eventType "click" && match action_type a with click => true | _ => false end) ||
  (String.eqb eventType "submit" && match action_type a with submit => true | _ => false end) ||
  (existsb (String.eqb eventType) ["input"; "change"; "keydown"] &&
     match action_type a with type_ => true | _ => false end) ||
  (String.eqb eventType "submit" && match action_type a with navigate => true | _ => false end).

Definition matchByStackTrace (c : t) (r : CapturedRequest)
  : option ((nat * TrackedAction) * R) :=
  match init_stack (initiator r) with
  | None => None
  | Some stack =>
      match extractEventOrigin stack with
      | None => None
      | Some (eventType, asyncDepth) =>
          let candidates :=
            List.filter (fun a => eventMatchesAction eventType a.2 && inWindow c r a.2)
                   (refs c) in
          match candidates with
          | [] => None
          | first :: rest =>
              (* Pick the closest action by time *)
              let closest :=
                fold_left (fun best current =>
                  let bestDelta := Rabs (startTime (timing r) - action_timestamp best.2) in
                  let currentDelta := Rabs (startTime (timing r) - action_timestamp current.2) in
                  if Rltb currentDelta bestDelta then current else best)
                  rest first in
              Some (closest, Rmax 0.85 (0.95 - INR asyncDepth * 0.02))
          end
      end
  end.

(** *** Timing + semantic scoring (Layer 2 & 3) *)

Definition isLikelyBackground (r : CapturedRequest) : bool :=
  existsb (fun pattern => RegExp.test pattern (url r)) BACKGROUND_PATTERNS.

(** Text-URL pattern matching: text, url, method and bonus. *)
Definition patterns : list (RegExp.t * RegExp.t * option string * R) :=
  [ (RegExp.re "login|sign.?in", RegExp.re "auth|login|sign.?in|session", Some "POST", 0.3%R);
    (RegExp.re "register|sign.?up", RegExp.re "register|sign.?up|user", Some "POST", 0.3%R);
    (RegExp.re "save|update|submit", RegExp.re ".", Some "POST", 0.15%R);
    (RegExp.re "delete|remove", RegExp.re ".", Some "DELETE", 0.25%R);
    (RegExp.re "search", RegExp.re "search|query|find", Some "GET", 0.25%R);
    (RegExp.re "load.?more|next", RegExp.re "page|offset|cursor|limit", Some "GET", 0.2%R);
    (RegExp.re "logout|sign.?out", RegExp.re "logout|sign.?out|session", None, 0.3%R) ].

(** The bonus of the first pattern that applies, [0] when none does. *)
Fixpoint patternBonus (description u method_ : string)
    (ps : list (RegExp.t * RegExp.t * option string * R)) : R :=
  match ps with
  | [] => 0
  | (text, urlRe, m, bonus) :: rest =>
      if RegExp.test text description && RegExp.test urlRe u &&
         match m with
         | None => true
         | Some m' => negb (Js.truthy (Some m')) || String.eqb m' method_
         end
      then bonus
      else patternBonus description u method_ rest
  end.

Definition semanticScore (a : TrackedAction) (r : CapturedRequest) : R :=
  let u := Js.toLowerCase (url r) in
  let description := Js.toLowerCase (targetDescription a) in
  (* Navigate action + document request *)
  (match action_type a, resourceType r with
   | navigate, document => 0.35
   | _, _ => 0
   end +
   (* Submit action + POST request *)
   (match action_type a with
    | submit => if String.eqb (method r) "POST" then 0.25 else 0
    | _ => 0
    end) +
   (* Click action + XHR/Fetch request *)
   (match action_type a, resourceType r with
    | click, xhr | click, fetch => 0.15
    | _, _ => 0
    end) +
   patternBonus description u (method r) patterns)%R.

(** The time proximity term of [computeScore]. *)
Definition proximity (deltaMs : R) : R := (0.35 * exp (- deltaMs / 150))%R.

Definition computeScore (a : TrackedAction) (r : CapturedRequest) : R :=
  let deltaMs := (startTime (timing r) - action_timestamp a)%R in
  let score := (0 + proximity deltaMs) in
  let score := (score + semanticScore a r)%R in
  let score := if isLikelyBackground r then (score - 0.2)%R else score in
  Rmax 0 (Rmin 1 score).

(** *** Chain detection (Layer 4) *)

(** "Check if this request's initiator references a request that is
    already correlated". *)
Definition preflightParent (c : t) (r : CapturedRequest)
    (allRequests : list CapturedRequest) : option Match :=
  if String.eqb (init_type (initiator r)) "preflight" &&
     Js.truthy (init_requestId (initiator r))
  then
    match head (List.filter (fun p => Js.strict_eq (init_requestId (initiator r)) (id p))
                            allRequests) with
    | Some parent =>
        if Js.truthy (correlatedActionId parent)
        then match getAction (default "" (correlatedActionId parent)) c with
             | Some action => Some (mkMatch action 0.85 chain)
             | None => None
             end
        else None
    | None => None
    end
  else None.

(** The correlated requests with a known end time, latest end first. *)
Definition recentCorrelated (allRequests : list CapturedRequest)
  : list CapturedRequest :=
  sortBy (fun a b => Rltb (default 0 (endTime (timing b)) -
                           default 0 (endTime (timing a))) 0)
         (List.filter (fun p => Js.truthy (correlatedActionId p) &&
                                truthyNumber (endTime (timing p)))
                      allRequests).

(** "Check for temporal chain: request started right after another
    correlated request finished": the loop over [recentCorrelated]. *)
Fixpoint temporalChain (c : t) (r : CapturedRequest)
    (parents : list CapturedRequest) : option Match :=
  match parents with
  | [] => None
  | parent :: rest =>
      if negb (truthyNumber (endTime (timing parent))) then temporalChain c r rest else
      let gap := (startTime (timing r) - default 0 (endTime (timing parent)))%R in
      if Rleb 0 gap && Rleb gap 100 then
        match getAction (default "" (correlatedActionId parent)) c with
        | Some action => Some (mkMatch action 0.5 chain)
        | None => temporalChain c r rest
        end
      else temporalChain c r rest
  end.

Definition matchByChain (c : t) (r : CapturedRequest)
    (allRequests : list CapturedRequest) : option Match :=
  match preflightParent c r allRequests with
  | Some m => Some m
  | None => temporalChain c r (recentCorrelated allRequests)
  end.

(** *** [correlateRequest] *)

Definition correlateRequest (c : t) (r : CapturedRequest)
    (allRequests : list CapturedRequest) : option Match :=
  (* Layer 0: Preflight requests should inherit from their actual request *)
  let layer0 :=
    if String.eqb (init_type (initiator r)) "preflight" &&
       Js.truthy (init_requestId (initiator r))
    then matchByChain c r allRequests
    else None in
  match layer0 with
  | Some chainMatch => Some chainMatch
  | None =>
      (* Layer 1: Stack trace analysis *)
      match matchByStackTrace c r with
      | Some (action, confidence) => Some (mkMatch action confidence stack_trace)
      | None =>
          (* Layer 2 & 3: Timing + semantic matching *)
          let candidates := List.filter (fun a => inWindow c r a.2) (refs c) in
          match candidates with
          | [] =>
              (* Layer 4: Check if this request is part of an existing chain *)
              matchByChain c r allRequests
          | _ =>
              let scored :=
                sortBy (fun a b => Rltb (b.2 - a.2) 0)
                  (List.filter (fun s => Rleb (minConfidence (options c)) s.2)
                     (map (fun action => (action, computeScore action.2 r))
                          candidates)) in
              match scored with
              | [] => None
              | best :: _ =>
                  Some (mkMatch best.1 best.2
                          (if Rleb 0.5 best.2 then timing_semantic else timing_only))
              end
          end
      end
  end.

(** The attribution fields of a request. *)
Definition attribution (r : CapturedRequest)
  : option string * option R * option CorrelationMethod :=
  (correlatedActionId r, correlationConfidence r, correlationMethod r).

(** *** Chain detection within a correlation group *)

Definition redirectChains (requests : list CapturedRequest) : list RequestChain :=
  flat_map (fun req =>
    match redirectChain req with
    | [] => []
    | _ => [{| chain_type := redirect; requestIds := [id req] |}]
    end) requests.

Definition preflightChains (requests : list CapturedRequest) : list RequestChain :=
  flat_map (fun req =>
    if Js.truthy (preflightRequestId req) then
      match head (List.filter (fun p => Js.strict_eq (preflightRequestId req) (id p))
                              requests) with
      | Some pre => [{| chain_type := preflight; requestIds := [id pre; id req] |}]
      | None => []
      end
    else []) requests.

(** [r.requestHeaders["Authorization"] || r.requestHeaders["authorization"]]. *)
Definition authHeader (r : CapturedRequest) : option string :=
  if Js.truthy (requestHeaders r !! "Authorization")
  then requestHeaders r !! "Authorization"
  else requestHeaders r !! "authorization".

(** [body.token || body.access_token || body.jwt || body.data?.token ||
    body.data?.access_token]; [None] when the read throws. *)
Definition tokenValue (body : JsonValue) : option (option JsonValue) :=
  match body with
  | JNull => None
  | _ =>
      let member k := default None (Json.prop body k) in
      Some (Json.or (member "token")
           (Json.or (member "access_token")
           (Json.or (member "jwt")
           (Json.or (Json.optProp (member "data") "token")
                    (Json.optProp (member "data") "access_token")))))
  end.

Definition isAuthPost (r : CapturedRequest) : bool :=
  String.eqb (method r) "POST" &&
  RegExp.test (RegExp.rei "auth|login|sign.?in|token|session|oauth") (url r).

(** Find subsequent requests using this token. *)
Definition authenticatedBy (authReq : CapturedRequest) (tokenPrefix : string)
    (requests : list CapturedRequest) : list CapturedRequest :=
  List.filter (fun r =>
    negb (Rleb (startTime (timing r)) (startTime (timing authReq))) &&
    Js.truthy (authHeader r) &&
    Js.includes (default "" (authHeader r)) tokenPrefix) requests.

(** The loop of [detectSequentialChains] over adjacent requests. *)
Fixpoint sequentialPairs (sorted : list CapturedRequest) : list RequestChain :=
  match sorted with
  | current :: (next :: _) as rest =>
      ((if truthyNumber (endTime (timing current)) then
          let gap := startTime (timing next) - default 0 (endTime (timing current)) in
          if Rleb 0 gap && Rleb gap 50
          then [{| chain_type := sequential; requestIds := [id current; id next] |}]
          else []
        else []) ++ sequentialPairs rest)%list
  | _ => []
  end.

Definition byStartTime (a b : CapturedRequest) : bool :=
  Rltb (startTime (timing a) - startTime (timing b)) 0.

Definition detectSequentialChains (requests : list CapturedRequest)
  : list RequestChain :=
  sequentialPairs (sortBy byStartTime requests).

Section with_JSON.

(** [JSON.parse]: [None] when it throws. *)
Variable JSON_parse : string -> option JsonValue.

(** The loop of [detectAuthFlow] over the auth-like requests. *)
Fixpoint authFlowFrom (candidates requests : list CapturedRequest)
  : option RequestChain :=
  match candidates with
  | [] => None
  | authReq :: rest =>
      if (status authReq <? 200)%Z || (300 <=? status authReq)%Z
      then authFlowFrom rest requests
      else if negb (Js.truthy (responseBody authReq)) then authFlowFrom rest requests
      else
        match JSON_parse (default "" (responseBody authReq)) with
        | None => authFlowFrom rest requests
        | Some body =>
            match tokenValue body with
            | Some (Some (JString token)) =>
                if String.eqb token "" then authFlowFrom rest requests else
                let tokenPrefix := Js.substring0 20 token in
                match authenticatedBy authReq tokenPrefix requests with
                | [] => authFlowFrom rest requests
                | authenticated =>
                    Some {| chain_type := auth_flow;
                            requestIds := id authReq :: map id authenticated |}
                end
            | _ => authFlowFrom rest requests
            end
        end
  end.

Definition detectAuthFlow (requests : list CapturedRequest) : option RequestChain :=
  (* Find auth-like POST requests that return tokens *)
  authFlowFrom (List.filter isAuthPost requests) requests.

Definition detectChains (requests : list CapturedRequest) : list RequestChain :=
  (redirectChains requests ++
   preflightChains requests ++
   match detectAuthFlow requests with
   | Some authChain => [authChain]
   | None => []
   end ++
   detectSequentialChains requests)%list.

(** *** [correlateAction] and [correlateAll]

    Both receive an array of request objects and assign the attribution
    fields of its elements in place: the array is threaded through as a
    list, and a result refers to its requests by their positions. *)

Record CorrelationResult := mkResult {
  result_action : nat * TrackedAction;
  result_requests : list nat;
  result_chains : list RequestChain;
  result_confidence : R
}.

Definition set_resultingRequestIds (ids : list string) (a : TrackedAction)
  : TrackedAction :=
  {| action_id := action_id a; action_type := action_type a;
     selector := selector a; targetDescription := targetDescription a;
     action_timestamp := action_timestamp a; pageUrl := pageUrl a;
     resultingRequestIds := ids |}.

(** The request objects at the given positions. *)
Definition objects (all : list CapturedRequest) (positions : list nat)
  : list CapturedRequest :=
  omap (fun i => all !! i) positions.

(** Positions ordered by the start time of their request. *)
Definition sortPositions (all : list CapturedRequest) (positions : list nat)
  : list nat :=
  map fst (sortBy (fun a b => byStartTime a.2 b.2)
             (omap (fun i => pair i <$> all !! i) positions)).

(** One iteration of the loop of [correlateAction]. *)
Definition correlateActionStep (c : t) (actionId : string)
    (st : list CapturedRequest * list nat * R) (i : nat)
  : list CapturedRequest * list nat * R :=
  let '(all, correlated, totalConfidence) := st in
  match all !! i with
  | None => st
  | Some request =>
      match correlateRequest c request all with
      | Some m =>
          if String.eqb (action_id (match_action m).2) actionId then
            (<[i := set_correlation actionId (match_confidence m) (match_method m)
                      request]> all,
             (correlated ++ [i])%list,
             totalConfidence + match_confidence m)
          else st
      | None => st
      end
  end.

Definition correlateAction (c : t) (actionId : string)
    (allRequests : list CapturedRequest)
  : t * list CapturedRequest * option CorrelationResult :=
  match getAction actionId c with
  | None => (c, allRequests, None)
  | Some (k, action) =>
      let '(all, correlated, totalConfidence) :=
        fold_left (correlateActionStep c actionId)
                  (seq 0 (length allRequests)) (allRequests, [], 0) in
      match correlated with
      | [] => (c, all, None)
      | _ =>
          (* Sort by start time *)
          let correlated := sortPositions all correlated in
          (* Update action with resulting request IDs *)
          let action := set_resultingRequestIds (map id (objects all correlated)) action in
          let c := mkCorrelator (<[k := action]> (actions c)) (options c) in
          (c, all,
           Some (mkResult (k, action) correlated
                   (detectChains (objects all correlated))
                   (totalConfidence / INR (length correlated))))
      end
  end.

(** One iteration of the first loop of [correlateAll]; [results] is the
    map from action ID to the action and the positions pushed so far. *)
Definition correlateAllStep (c : t)
    (st : list CapturedRequest * list (string * ((nat * TrackedAction) * list nat)))
    (i : nat)
  : list CapturedRequest * list (string * ((nat * TrackedAction) * list nat)) :=
  let '(all, results) := st in
  match all !! i with
  | None => st
  | Some request =>
      if Js.truthy (correlatedActionId request) then st else
      match correlateRequest c request all with
      | None => st
      | Some m =>
          let actionId := action_id (match_action m).2 in
          let all := <[i := set_correlation actionId (match_confidence m)
                             (match_method m) request]> all in
          let results :=
            if JsMap.has actionId results then results
            else JsMap.set actionId (match_action m, []) results in
          let results :=
            match JsMap.get actionId results with
            | Some (action, positions) =>
                JsMap.set actionId (action, (positions ++ [i])%list) results
            | None => results
            end in
          (all, results)
      end
  end.

Definition correlateAll (c : t) (requests : list CapturedRequest)
  : t * list CapturedRequest * list CorrelationResult :=
  let '(all, results) :=
    fold_left (correlateAllStep c) (seq 0 (length requests)) (requests, []) in
  (* Finalize each result *)
  let '(c, finalized) :=
    fold_left (fun (acc : t * list CorrelationResult)
                   (entry : string * ((nat * TrackedAction) * list nat)) =>
      let '(c, out) := acc in
      let '(k, _) := entry.2.1 in
      let positions := sortPositions all entry.2.2 in
      match actions c !! k with
      | None => acc
      | Some action =>
          let action := set_resultingRequestIds (map id (objects all positions)) action in
          (mkCorrelator (<[k := action]> (actions c)) (options c),
           (out ++ [mkResult (k, action) positions
                      (detectChains (objects all positions))
                      (fold_left (fun sum r => sum + default 0 (correlationConfidence r))
                                 (objects all positions) 0
                       / INR (length positions))])%list)
      end) results (c, []) in
  (c, all,
   sortBy (fun a b => Rltb (action_timestamp (result_action a).2 -
                            action_timestamp (result_action b).2) 0)
          finalized).

End with_JSON.

(** *** Notions for the properties of the correlator *)

(** The array [scored] of [correlateRequest]. *)
Definition timingScored (c : t) (r : CapturedRequest)
  : list ((nat * TrackedAction) * R) :=
  sortBy (fun a b : (nat * TrackedAction) * R => Rltb (b.2 - a.2) 0)
    (List.filter (fun s => Rleb (minConfidence (options c)) s.2)
       (map (fun action : nat * TrackedAction => (action, computeScore action.2 r))
          (List.filter (fun a => inWindow c r a.2) (refs c)))).

(** The stack trace [n] async hops up. *)
Fixpoint ancestor (n : nat) (st : StackTrace) : option StackTrace :=
  match n with
  | O => Some st
  | S n' => match parent st with
            | Some p => ancestor n' p
            | None => None
            end
  end.

(** The test of [extractEventOrigin] on one stack trace. *)
Definition userEvent (st : StackTrace) : bool :=
  match description st with
  | Some d => negb (String.eqb d "") &&
              existsb (String.eqb (Js.toLowerCase d)) USER_EVENT_TYPES
  | None => false
  end.

(** A request without its attribution. *)
Definition unattributed (r : CapturedRequest) : CapturedRequest :=
  mkCapturedRequest (id r) (index r) (url r) (method r) (requestHeaders r)
  (requestBody r) (status r) (statusText r) (responseHeaders r) (responseBody r)
  (mimeType r) (responseSize r) (resourceType r) (initiator r) (timing r)
  (redirectChain r) (preflightFor r) (preflightRequestId r) None None None.

(** What the loop of [correlateAll] may do to a request. *)
Definition keptOrAttributed (r r' : CapturedRequest) : Prop :=
  unattributed r' = unattributed r /\
  (Js.truthy (correlatedActionId r) = true -> r' = r).

(** What the loop of [correlateAction] may do to a request. *)
Definition keptOrAttributedTo (actionId : string) (r r' : CapturedRequest) : Prop :=
  unattributed r' = unattributed r /\
  (r' = r \/ correlatedActionId r' = Some actionId).

Definition pointwise (P : CapturedRequest -> CapturedRequest -> Prop)
    (all all' : list CapturedRequest) : Prop :=
  length all' = length all /\
  forall i r, all !! i = Some r -> exists r', all' !! i = Some r' /\ P r r'.

(** The test of Layer 0 and of the first check of [matchByChain]:
    [request.initiator.type === "preflight" && request.initiator.requestId]. *)
Definition isPreflight (r : CapturedRequest) : bool :=
  String.eqb (init_type (initiator r)) "preflight" &&
  Js.truthy (init_requestId (initiator r)).

(** [x] is the first element of [l] that passes [test]. *)
Definition firstSuch {A} (test : A -> bool) (l : list A) (x : A) : Prop :=
  exists l1 l2, l = (l1 ++ x :: l2)%list /\ test x = true /\
                forall y, In y l1 -> test y = false.

(** The end time that the chain search sorts by: [timing.endTime || 0]. *)
Definition endOrZero (p : CapturedRequest) : R := default 0 (endTime (timing p)).

(** What the loop of the temporal chain search tests of a parent: a known
    end time at most 100 ms before the start of [r], and a recorded
    action. *)
Definition inChainGap (c : t) (r p : CapturedRequest) : bool :=
  truthyNumber (endTime (timing p)) &&
  (Rleb 0 (startTime (timing r) - endOrZero p) &&
   Rleb (startTime (timing r) - endOrZero p) 100) &&
  match getAction (default "" (correlatedActionId p)) c with
  | Some _ => true
  | None => false
  end.

(** A request that the temporal chain search can attribute [r] to: it is
    correlated to a recorded action and has a known end time that precedes
    the start of [r] by at most 100 ms. *)
Definition temporalParent (c : t) (r p : CapturedRequest) : bool :=
  Js.truthy (correlatedActionId p) && truthyNumber (endTime (timing p)) &&
  (Rleb 0 (startTime (timing r) - endOrZero p) &&
   Rleb (startTime (timing r) - endOrZero p) 100) &&
  match getAction (default "" (correlatedActionId p)) c with
  | Some _ => true
  | None => false
  end.

End Correlator.

(** ** The redaction helpers of the formatter *)

Module Formatter.

Definition SENSITIVE_HEADER_NAMES : list string :=
  ["authorization"; "cookie"; "set-cookie"; "x-csrf-token"; "x-xsrf-token"].

Definition redactSensitiveHeader (name value : string) : string :=
  if existsb (String.eqb (Js.toLowerCase name)) SENSITIVE_HEADER_NAMES then
    if (String.length value <=? 20)%nat then "[REDACTED]"
    else Js.substring0 15 value ++ "...[REDACTED]"
  else value.

Definition SENSITIVE_BODY_KEYS : list string :=
  ["password"; "passwd"; "secret"; "token"; "csrf"; "ssn"; "credit_card";
   "card_number"; "cvv"; "cvc"; "pin"; "otp"].

Definition sensitiveKey (key : string) : bool :=
  existsb (String.eqb (Js.toLowerCase key)) SENSITIVE_BODY_KEYS.

(** [result[key] = value] on an object under construction: the key
    [__proto__] reaches the prototype setter and adds no property. *)
Definition assign (key : string) (value : JsonValue)
    (result : list (string * JsonValue)) : list (string * JsonValue) :=
  if String.eqb key "__proto__" then result else JsMap.set key value result.

Fixpoint redactObject (obj : JsonValue) : JsonValue :=
  match obj with
  | JArray items => JArray (map redactObject items)
  | JObject properties =>
      JObject
        (fold_left
           (fun result kv =>
              match kv with
              | (key, value) =>
                  if sensitiveKey key then assign key (JString "[REDACTED]") result
                  else
                    match value with
                    | JArray _ | JObject _ => assign key (redactObject value) result
                    | _ => assign key value result
                    end
              end)
           properties [])
  | _ => obj
  end.

(** No sensitive key, at any depth, holds anything but the placeholder. *)
Fixpoint redacted (v : JsonValue) : Prop :=
  match v with
  | JArray items => fold_right (fun item rest => redacted item /\ rest) True items
  | JObject properties =>
      fold_right
        (fun kv rest =>
           match kv with
           | (key, value) =>
               (if sensitiveKey key then value = JString "[REDACTED]"
                else redacted value) /\ rest
           end)
        True properties
  | _ => True
  end.

(** A property that [redactObject] may leave in an object. *)
Definition okProperty (kv : string * JsonValue) : Prop :=
  if sensitiveKey kv.1 then kv.2 = JString "[REDACTED]" else redacted kv.2.

End Formatter.

(** ** Event fixtures

    Small event builders in the style of the test fixtures: a script
    initiated GET, its response and the end of its loading. *)

Module Fixtures.
Import NetworkCapture.

Definition scriptInitiator : RequestInitiator :=
  {| init_type := "script"; init_stack := None; init_url := None;
     init_lineNumber := None; init_columnNumber := None; init_requestId := None |}.

Definition preflightInitiator (target : string) : RequestInitiator :=
  {| init_type := "preflight"; init_stack := None; init_url := None;
     init_lineNumber := None; init_columnNumber := None;
     init_requestId := Some target |}.

Definition willBeSentParams (requestId u method_ : string)
    (ini : RequestInitiator) (redirectResponse : option CDPRedirectResponse)
  : CDPRequestWillBeSent :=
  {| rws_requestId := requestId;
     rws_request := {| rq_url := u; rq_method := method_;
                       rq_headers := ∅; rq_postData := None |};
     rws_timestamp := 12345; rws_wallTime := 1705312245;
     rws_initiator := ini;
     rws_redirectResponse := redirectResponse;
     rws_type := None |}.

Definition willBeSent (requestId u method_ : string) (ini : RequestInitiator)
    (redirectResponse : option CDPRedirectResponse) : Event :=
  RequestWillBeSent (willBeSentParams requestId u method_ ini redirectResponse).

Definition get (requestId u : string) : Event :=
  willBeSent requestId u "GET" scriptInitiator None.

Definition responseReceived (requestId u : string) : Event :=
  ResponseReceived
    {| rr_requestId := requestId;
       rr_response := {| rs_url := u; rs_status := 200; rs_statusText := "OK";
                         rs_headers := ∅; rs_mimeType := "text/html" |};
       rr_timestamp := 12345.1; rr_type := None |}.

Definition finished (requestId : string) (getResponseBody : bool) : Event :=
  LoadingFinished
    {| lf_requestId := requestId; lf_timestamp := 12345.11;
       lf_encodedDataLength := 100 |} getResponseBody.

(** A complete request lifecycle, without body fetch. *)
Definition lifecycle (requestId : string) : list Event :=
  [ get requestId ("https://api.example.com/page/" ++ requestId);
    responseReceived requestId ("https://api.example.com/page/" ++ requestId);
    finished requestId false ].

Definition withMaxRequests (n : nat) : Options :=
  {| maxRequests := n; maxResponseBodySize := 512 * 1024; excludePatterns := [] |}.

(** The race of the test "should discard body fetch results after
    clear()": a body fetch is outstanding when [clear] runs, and is
    fulfilled afterwards. *)
Definition beforeStaleFetch : t :=
  run (new DEFAULT_OPTIONS)
    [ get "req_1" "https://api.example.com/users";
      responseReceived "req_1" "https://api.example.com/users";
      finished "req_1" true;
      Clear ].

Definition afterStaleFetch : t :=
  step beforeStaleFetch (FetchSettled 0 (Fulfilled (Some ("stale data", false)))).

(** Five lifecycles on a store of two, the ID [A] being used twice. *)
Definition reusedId : t :=
  run (new (withMaxRequests 2))
    (lifecycle "A" ++ lifecycle "A" ++ lifecycle "B" ++ lifecycle "C").

Definition reusedIdCommit : t := run reusedId (lifecycle "D").

(** The redirect test: [/old] is redirected to [/new] and on to [/final]. *)
Definition redirected (status_ : Z) : option CDPRedirectResponse :=
  Some {| rd_status := status_; rd_headers := ∅; rd_statusText := "Moved" |}.

Definition redirectChainEvents : list Event :=
  [ get "R" "https://example.com/old";
    willBeSent "R" "https://example.com/new" "GET" scriptInitiator (redirected 301);
    willBeSent "R" "https://example.com/final" "GET" scriptInitiator (redirected 302);
    responseReceived "R" "https://example.com/final";
    finished "R" true;
    FetchSettled 0 (Fulfilled None) ].

(** The same redirect when the capture excludes URLs that contain [/old]:
    the first hop is dropped, and the redirect-bearing event for [/new]
    finds no pending entry. *)
Definition excludingOld : Options :=
  {| maxRequests := 1000; maxResponseBodySize := 512 * 1024;
     excludePatterns := [fun u => Js.includes u "/old"] |}.

Definition redirectAfterExcluded : list Event :=
  [ get "R" "https://example.com/old";
    willBeSent "R" "https://example.com/new" "GET" scriptInitiator (redirected 301);
    responseReceived "R" "https://example.com/new";
    finished "R" false ].

(** The CORS test in reverse order: the actual request is finalized before
    its preflight arrives.  Body fetches are outstanding in between. *)
Definition corsReversed : list Event :=
  [ willBeSent "req_actual" "https://api.example.com/data" "POST" scriptInitiator None;
    responseReceived "req_actual" "https://api.example.com/data";
    finished "req_actual" true;
    FetchSettled 0 (Fulfilled (Some ("{}", false)));
    willBeSent "req_preflight" "https://api.example.com/data" "OPTIONS"
      (preflightInitiator "req_actual") None;
    responseReceived "req_preflight" "https://api.example.com/data";
    finished "req_preflight" true;
    FetchSettled 0 Rejected ].

(** Two preflights that name the same request. *)
Definition twoPreflights : list Event :=
  [ willBeSent "T" "https://api.example.com/data" "POST" scriptInitiator None;
    willBeSent "P1" "https://api.example.com/data" "OPTIONS" (preflightInitiator "T") None;
    willBeSent "P2" "https://api.example.com/data" "OPTIONS" (preflightInitiator "T") None;
    finished "P1" false; finished "P2" false; finished "T" false ].

(** The ring buffer test: five lifecycles on a store of three. *)
Definition ringBuffer : t :=
  run (new (withMaxRequests 3))
    (lifecycle "R0" ++ lifecycle "R1" ++ lifecycle "R2" ++ lifecycle "R3" ++
     lifecycle "R4").

(** The ring buffer test just before its last commit: [R4] has its
    response and is not finished. *)
Definition beforeLastCommit : list Event :=
  lifecycle "R0" ++ lifecycle "R1" ++ lifecycle "R2" ++ lifecycle "R3" ++
  [ get "R4" "https://api.example.com/page/R4";
    responseReceived "R4" "https://api.example.com/page/R4" ].

(** The race of [beforeStaleFetch] on a store of two, followed by two
    more lifecycles. *)
Definition staleRaceThenTwo : list Event :=
  [ get "req_1" "https://api.example.com/users";
    responseReceived "req_1" "https://api.example.com/users";
    finished "req_1" true;
    Clear;
    FetchSettled 0 (Fulfilled (Some ("stale data", false))) ]
  ++ lifecycle "R0" ++ lifecycle "R1".

(** *** Actions and finalized requests for the correlator *)

Definition action (actionId : string) (ty : ActionType) (target : string)
    (at_ : R) : TrackedAction :=
  {| action_id := actionId; action_type := ty; selector := "#target";
     targetDescription := target; action_timestamp := at_;
     pageUrl := "https://app.example.com/"; resultingRequestIds := [] |}.

Definition finalized (requestId u method_ : string) (ini : RequestInitiator)
    (start : R) (end_ : option R) : CapturedRequest :=
  {| id := requestId; index := 0; url := u; method := method_;
     requestHeaders := ∅; requestBody := None;
     status := 200; statusText := "OK"; responseHeaders := ∅;
     responseBody := None; mimeType := "application/json"; responseSize := 100;
     resourceType := fetch; initiator := ini;
     timing := {| startTime := start; responseTime := None;
                  endTime := end_; duration := None |};
     redirectChain := []; preflightFor := None; preflightRequestId := None;
     correlatedActionId := None; correlationConfidence := None;
     correlationMethod := None |}.

Definition withActions (l : list TrackedAction) : Correlator.t :=
  fold_left (fun c a => Correlator.recordAction a c) l
            (Correlator.new Correlator.DEFAULT_OPTIONS).

(** A request that starts 10 ms before the timestamp of a click. *)
Definition earlyClick : TrackedAction := action "action_1" click "button Load" 1000.

Definition earlyRequest : CapturedRequest :=
  finalized "req_early" "https://api.example.com/data" "GET" scriptInitiator 990 None.

(** A scroll is recorded at 1000 ms.  A request correlated to it ends at
    1950 ms, and another request starts 50 ms later: the action is inside
    the timing window of that request and scores next to nothing. *)
Definition scrollAction : TrackedAction := action "action_1" scroll "page" 1000.

Definition chainParent : CapturedRequest :=
  set_correlation "action_1" 0.9 stack_trace
    (finalized "req_parent" "https://api.example.com/items" "GET" scriptInitiator
       1900 (Some 1950%R)).

Definition chainChild : CapturedRequest :=
  finalized "req_child" "https://api.example.com/items/1" "GET" scriptInitiator
    2000 None.

(** The same child when the scroll happened more than two seconds before. *)
Definition oldScroll : TrackedAction := action "action_1" scroll "page" (-1000).

(** Two clicks five seconds apart; a CORS preflight that starts with the
    first click and the request it is a preflight for, which starts with
    the second. *)
Definition firstClick : TrackedAction := action "action_1" click "button" 0.
Definition secondClick : TrackedAction := action "action_2" click "button" 5000.

Definition corsPreflight : CapturedRequest :=
  finalized "req_preflight" "https://api.example.com/data" "OPTIONS"
    (preflightInitiator "req_actual") 0 None.

Definition corsActual : CapturedRequest :=
  finalized "req_actual" "https://api.example.com/data" "POST" scriptInitiator
    5000 None.

Definition twoClicks : Correlator.t := withActions [firstClick; secondClick].

(** The attributions that the scenario goes through. *)
Definition preflightByTiming : CapturedRequest :=
  set_correlation "action_1" 0.5 timing_semantic corsPreflight.

Definition actualByTiming : CapturedRequest :=
  set_correlation "action_2" 0.5 timing_semantic corsActual.

Definition preflightByChain : CapturedRequest :=
  set_correlation "action_2" 0.85 chain preflightByTiming.

(** The action log once [correlateAll] has filled in the request IDs. *)
Definition twoClicksCorrelated : Correlator.t :=
  Correlator.mkCorrelator
    [ Correlator.set_resultingRequestIds ["req_preflight"] firstClick;
      Correlator.set_resultingRequestIds ["req_actual"] secondClick ]
    Correlator.DEFAULT_OPTIONS.

(** The auth flow test: a login that returns a token, and a request that
    sends the token. *)
Definition token : string := "eyJhbGciOiJIUzI1NiIsInR5cCI6IkpXVCJ9.payload.sig".

Definition quote : string := String "034" EmptyString.

(** The text [{"access_token":"<token>"}] and the value it parses to. *)
Definition loginBody : string :=
  "{" ++ quote ++ "access_token" ++ quote ++ ":" ++ quote ++ token ++ quote ++ "}".

Definition loginJson : JsonValue := JObject [("access_token", JString token)].

Definition authLogin : CapturedRequest :=
  set_responseBody (Some loginBody)
    (finalized "req_auth" "https://api.example.com/auth/login" "POST"
       scriptInitiator 1000 (Some 1050%R)).

(** The authenticated request, its header named as given. *)
Definition profileWith (headerName : string) : CapturedRequest :=
  set_requestHeaders {[ headerName := "Bearer " ++ token ]}
    (finalized "req_profile" "https://api.example.com/user/profile" "GET"
       scriptInitiator 1100 (Some 1150%R)).


(** A fetch issued from a click handler: the async parent of its stack
    trace carries the event.  It starts 100 ms after the first click. *)
Definition clickStack : StackTrace :=
  mkStackTrace None [] (Some (mkStackTrace (Some "click") [] None)).

Definition stackInitiator : RequestInitiator :=
  {| init_type := "script"; init_stack := Some clickStack; init_url := None;
     init_lineNumber := None; init_columnNumber := None; init_requestId := None |}.

Definition clickedRequest : CapturedRequest :=
  finalized "req_click" "https://api.example.com/data" "POST" stackInitiator 100 None.

(** A [JSON.parse] that knows the login body. *)
Definition parseLogin (text : string) : option JsonValue :=
  if String.eqb text loginBody then Some loginJson else None.

(** A request that fails before any response. *)
Definition failedParams (requestId : string) : CDPLoadingFailed :=
  {| lx_requestId := requestId; lx_errorText := "net::ERR_FAILED";
     lx_timestamp := 12345.2 |}.

Definition finishedParams (requestId : string) : CDPLoadingFinished :=
  {| lf_requestId := requestId; lf_timestamp := 12345.11;
     lf_encodedDataLength := 100 |}.

Definition responseParams (requestId u : string) : CDPResponseReceived :=
  {| rr_requestId := requestId;
     rr_response := {| rs_url := u; rs_status := 200; rs_statusText := "OK";
                       rs_headers := ∅; rs_mimeType := "text/html" |};
     rr_timestamp := 12345.1; rr_type := None |}.

(** A request that has its response and is not finished. *)
Definition responded (requestId : string) : list Event :=
  [ get requestId ("https://api.example.com/page/" ++ requestId);
    responseReceived requestId ("https://api.example.com/page/" ++ requestId) ].

End Fixtures.

(** ** Proof tools *)

(** Evaluation of the model on concrete input: everything is computed but
    the operations on real numbers, whose comparisons are then decided by
    linear arithmetic. *)
Ltac jsEval :=
  cbv -[IZR Rplus Rminus Rmult Rdiv Ropp Rinv exp Rleb Rltb Rmax Rmin Rabs INR
        truthyNumber Req_dec_T Rle_dec Rlt_dec Correlator.proximity
        Correlator.computeScore].

Ltac jsEvalIn H :=
  cbv -[IZR Rplus Rminus Rmult Rdiv Ropp Rinv exp Rleb Rltb Rmax Rmin Rabs INR
        truthyNumber Req_dec_T Rle_dec Rlt_dec Correlator.proximity
        Correlator.computeScore] in H.

(** Case analysis on the conditions the goal branches on. *)
Ltac branches :=
  repeat match goal with
         | |- context [if ?b then _ else _] => destruct b eqn:?
         | |- context [match ?o with Some _ => _ | None => _ end] => destruct o eqn:?
         | |- context [match ?l with [] => _ | _ :: _ => _ end] => destruct l eqn:?
         end.

(** * Properties *)

(** ** Body fetches and [clear] *)

(** C1. A body fetch that settles after [clear] must not commit its record;
    the code commits it.  In the race of the test suite the store is empty
    right after [clear], and once the stale fetch is fulfilled the store
    holds [req_1] again, with the stale body. *)
Theorem stale_fetch_commits_after_clear :
  NetworkCapture.size Fixtures.beforeStaleFetch = 0%nat /\
  NetworkCapture.fetches Fixtures.beforeStaleFetch = [("req_1", 0%nat)] /\
  NetworkCapture.size Fixtures.afterStaleFetch = 1%nat /\
  responseBody <$> NetworkCapture.getRequest "req_1" Fixtures.afterStaleFetch
    = Some (Some "stale data").
Proof. vm_compute. repeat split; reflexivity. Qed.

(** ** The ring buffer *)

(** C2. The bounds [pendingCount + storeSize <= nextIndex] and
    [storeSize <= MaxRequests] do not survive every event sequence.  When a
    request ID is committed a second time, [requestOrder] lists it twice
    while the store holds it once; the later eviction of the second copy
    deletes nothing, and the store grows past [maxRequests].  The stale
    body fetch of C1 breaks the other bound: it commits a record after
    [clear] has reset [nextIndex]. *)
Theorem store_exceeds_maxRequests :
  NetworkCapture.maxRequests (NetworkCapture.options Fixtures.reusedIdCommit) = 2%nat /\
  NetworkCapture.size Fixtures.reusedIdCommit = 3%nat /\
  NetworkCapture.nextIndex Fixtures.afterStaleFetch = 0%nat /\
  (NetworkCapture.pendingCount Fixtures.afterStaleFetch +
   NetworkCapture.size Fixtures.afterStaleFetch = 1)%nat.
Proof. vm_compute. repeat split; reflexivity. Qed.

(** Request IDs have to identify requests for the ring buffer to work.
    After the lifecycles [A], [A], [B], [C] on a store of two, the store is
    full with [B] and [C] and [requestOrder] still starts with the spent
    [A]: committing [D] evicts nothing, and [B], the earliest inserted
    record, stays. *)
Lemma reused_id_defeats_eviction :
  NetworkCapture.maxRequests (NetworkCapture.options Fixtures.reusedId) = 2%nat /\
  JsMap.keys (NetworkCapture.requests Fixtures.reusedId) = ["B"; "C"] /\
  NetworkCapture.requestOrder Fixtures.reusedId = ["A"; "B"; "C"] /\
  JsMap.keys (NetworkCapture.requests Fixtures.reusedIdCommit) = ["B"; "C"; "D"].
Proof. vm_compute. repeat split; reflexivity. Qed.

(** The ring buffer scenario of the test suite holds: with [maxRequests]
    three, five lifecycles [R0] to [R4] leave exactly [R2], [R3], [R4]. *)
Lemma ring_buffer_scenario :
  NetworkCapture.size Fixtures.ringBuffer = 3%nat /\
  JsMap.keys (NetworkCapture.requests Fixtures.ringBuffer) = ["R2"; "R3"; "R4"] /\
  NetworkCapture.getRequest "R0" Fixtures.ringBuffer = None /\
  NetworkCapture.getRequest "R1" Fixtures.ringBuffer = None /\
  id <$> NetworkCapture.getRequest "R2" Fixtures.ringBuffer = Some "R2" /\
  id <$> NetworkCapture.getRequest "R3" Fixtures.ringBuffer = Some "R3" /\
  id <$> NetworkCapture.getRequest "R4" Fixtures.ringBuffer = Some "R4".
Proof. vm_compute. repeat split; reflexivity. Qed.

(** ** Insertion-ordered maps *)

Section jsmap_facts.
Context {V : Type}.
Implicit Types (m : list (string * V)) (k : string) (v : V).

Lemma get_In k v m : JsMap.get k m = Some v -> In (k, v) m.
Proof.
  induction m as [|[k' v'] m IH]; cbn; [discriminate|].
  destruct (String.eqb_spec k k') as [->|Hne].
  - intros [= ->]. left; reflexivity.
  - intros H. right. exact (IH H).
Qed.

Lemma In_set kv k v m : In kv (JsMap.set k v m) -> kv = (k, v) \/ In kv m.
Proof.
  induction m as [|[k' v'] m IH]; cbn.
  - intros [<-|[]]. left; reflexivity.
  - destruct (String.eqb k k'); cbn.
    + intros [<-|H]; [left; reflexivity | right; right; exact H].
    + intros [<-|H]; [right; left; reflexivity|].
      destruct (IH H) as [->|H']; [left; reflexivity | right; right; exact H'].
Qed.

Lemma In_delete kv k m : In kv (JsMap.delete k m) -> In kv m.
Proof.
  induction m as [|[k' v'] m IH]; cbn; [tauto|].
  destruct (String.eqb k k'); cbn.
  - intros H; right; exact H.
  - intros [<-|H]; [left; reflexivity | right; exact (IH H)].
Qed.

Lemma get_set_eq k v m : JsMap.get k (JsMap.set k v m) = Some v.
Proof.
  induction m as [|[k' v'] m IH]; cbn.
  - rewrite String.eqb_refl. reflexivity.
  - destruct (String.eqb k k') eqn:E; cbn.
    + rewrite String.eqb_refl. reflexivity.
    + rewrite E. exact IH.
Qed.

Lemma get_set_ne k k' v m :
  k <> k' -> JsMap.get k' (JsMap.set k v m) = JsMap.get k' m.
Proof.
  intros Hne. induction m as [|[k0 v0] m IH]; cbn.
  - destruct (String.eqb_spec k' k); [congruence | reflexivity].
  - destruct (String.eqb_spec k k0) as [->|Hk]; cbn.
    + destruct (String.eqb_spec k' k0); [congruence | reflexivity].
    + destruct (String.eqb k' k0); [reflexivity | exact IH].
Qed.

End jsmap_facts.

(** ** What the handlers leave unchanged *)

Section frame.
Import NetworkCapture.

Lemma modify_control l f s : control (modify l f s) = control s.
Proof. reflexivity. Qed.

Lemma detectPreflight_control params s :
  control (detectPreflight params s) = control s.
Proof.
  unfold detectPreflight. branches; reflexivity.
Qed.

Lemma finalizeRequest_frame requestId l s :
  nextIndex (finalizeRequest requestId l s) = nextIndex s /\
  options (finalizeRequest requestId l s) = options s /\
  timestampOffset (finalizeRequest requestId l s) = timestampOffset s /\
  heap (finalizeRequest requestId l s) = heap s /\
  fetches (finalizeRequest requestId l s) = fetches s /\
  pending (finalizeRequest requestId l s) = JsMap.delete requestId (pending s).
Proof.
  unfold finalizeRequest; cbn. branches; repeat split; reflexivity.
Qed.

Lemma control_inv s s' :
  control s = control s' ->
  requests s = requests s' /\ requestOrder s = requestOrder s' /\
  nextIndex s = nextIndex s' /\ options s = options s' /\
  timestampOffset s = timestampOffset s' /\ pending s = pending s' /\
  fetches s = fetches s'.
Proof. unfold control. intros [=]. repeat split; assumption. Qed.

Lemma computeOffset_frame params s :
  requests (computeOffset params s) = requests s /\
  requestOrder (computeOffset params s) = requestOrder s /\
  nextIndex (computeOffset params s) = nextIndex s /\
  options (computeOffset params s) = options s /\
  pending (computeOffset params s) = pending s /\
  heap (computeOffset params s) = heap s /\
  fetches (computeOffset params s) = fetches s.
Proof. unfold computeOffset. destruct (timestampOffset s); repeat split. Qed.

Lemma options_step s e : options (step s e) = options s.
Proof.
  destruct e as [p|p|p b|p| |k res]; cbn.
  - unfold handleRequestWillBeSent.
    destruct (computeOffset_frame p s) as (_ & _ & _ & Ho & _).
    branches; try reflexivity; try exact Ho;
      match goal with
      | |- options (detectPreflight ?q ?s') = _ =>
          destruct (control_inv _ _ (detectPreflight_control q s'))
            as (_ & _ & _ & -> & _); exact Ho
      end.
  - unfold handleResponseReceived. branches; reflexivity.
  - unfold handleLoadingFinished. branches; try reflexivity.
    rewrite (proj1 (proj2 (finalizeRequest_frame _ _ _))). reflexivity.
  - unfold handleLoadingFailed. branches; try reflexivity.
    rewrite (proj1 (proj2 (finalizeRequest_frame _ _ _))). reflexivity.
  - reflexivity.
  - unfold fetchSettled. destruct (fetches s !! k) as [[rid l]|]; [|reflexivity].
    rewrite (proj1 (proj2 (finalizeRequest_frame _ _ _))).
    destruct res as [[[body b64]|]|]; reflexivity.
Qed.

Lemma run_cons s e es : run s (e :: es) = run (step s e) es.
Proof. reflexivity. Qed.

Lemma run_app s es es' : run s (es ++ es') = run (run s es) es'.
Proof. apply fold_left_app. Qed.

Lemma options_run es s : options (run s es) = options s.
Proof.
  revert s; induction es as [|e es IH]; intros s; [reflexivity|].
  rewrite run_cons, IH. apply options_step.
Qed.

End frame.

(** ** Entries in the heap *)

Section heap_facts.
Import NetworkCapture.

Lemma modify_lookup l0 f s l e :
  heap s !! l = Some e ->
  heap (modify l0 f s) !! l = Some (if decide (l0 = l) then on_request f e else e).
Proof.
  intros He. unfold modify; cbn. destruct (decide (l0 = l)) as [->|Hne].
  - rewrite list_lookup_alter_eq, He. reflexivity.
  - rewrite list_lookup_alter_ne by exact Hne. exact He.
Qed.

Lemma modify_lookup_None l0 f s l :
  heap s !! l = None -> heap (modify l0 f s) !! l = None.
Proof.
  intros He. unfold modify; cbn. destruct (decide (l0 = l)) as [->|Hne].
  - rewrite list_lookup_alter_eq, He. reflexivity.
  - rewrite list_lookup_alter_ne by exact Hne. exact He.
Qed.

(** [detectPreflight] assigns nothing but preflight links. *)
Lemma detectPreflight_lookup params s l e :
  heap s !! l = Some e ->
  exists e', heap (detectPreflight params s) !! l = Some e' /\
             entry_redirectChain e' = entry_redirectChain e /\
             chain_shared e' = chain_shared e /\
             linkless (request e') = linkless (request e).
Proof.
  intros He. unfold detectPreflight.
  assert (Hstep : forall s0 e0 l0 v,
             heap s0 !! l = Some e0 ->
             (exists e1, heap (modify l0 (set_preflightFor v) s0) !! l = Some e1 /\
                         entry_redirectChain e1 = entry_redirectChain e0 /\
                         chain_shared e1 = chain_shared e0 /\
                         linkless (request e1) = linkless (request e0)) /\
             (exists e1, heap (modify l0 (set_preflightRequestId v) s0) !! l = Some e1 /\
                         entry_redirectChain e1 = entry_redirectChain e0 /\
                         chain_shared e1 = chain_shared e0 /\
                         linkless (request e1) = linkless (request e0))).
  { intros s0 e0 l0 v H0. split; eexists; (split; [apply modify_lookup, H0|]);
      destruct (decide (l0 = l)); repeat split; reflexivity. }
  assert (Hkeep : forall s0 (o : option nat) v,
             (exists e0, heap s0 !! l = Some e0 /\
                         entry_redirectChain e0 = entry_redirectChain e /\
                         chain_shared e0 = chain_shared e /\
                         linkless (request e0) = linkless (request e)) ->
             (exists e1, heap (match o with
                               | Some l0 => modify l0 (set_preflightFor v) s0
                               | None => s0 end) !! l = Some e1 /\
                         entry_redirectChain e1 = entry_redirectChain e /\
                         chain_shared e1 = chain_shared e /\
                         linkless (request e1) = linkless (request e)) /\
             (exists e1, heap (match o with
                               | Some l0 => modify l0 (set_preflightRequestId v) s0
                               | None => s0 end) !! l = Some e1 /\
                         entry_redirectChain e1 = entry_redirectChain e /\
                         chain_shared e1 = chain_shared e /\
                         linkless (request e1) = linkless (request e))).
  { intros s0 o v (e0 & H0 & Hc & Hs & Hl). destruct o as [l0|].
    - destruct (Hstep s0 e0 l0 v H0) as [(e1 & ? & ? & ? & ?) (e2 & ? & ? & ? & ?)].
      split; eexists; (split; [eassumption|]); repeat split; congruence.
    - split; exists e0; auto. }
  assert (H0 : exists e0, heap s !! l = Some e0 /\
                          entry_redirectChain e0 = entry_redirectChain e /\
                          chain_shared e0 = chain_shared e /\
                          linkless (request e0) = linkless (request e))
    by (exists e; auto).
  destruct (_ && _).
  - apply Hkeep, Hkeep, Hkeep. exact H0.
  - set (rid := rws_requestId params).
    assert (Hback : forall found s0,
               (exists e0, heap s0 !! l = Some e0 /\
                           entry_redirectChain e0 = entry_redirectChain e /\
                           chain_shared e0 = chain_shared e /\
                           linkless (request e0) = linkless (request e)) ->
               exists e1,
                 heap (match found with
                       | Some preflightId =>
                           match JsMap.get rid (pending s0) with
                           | Some l0 => modify l0 (set_preflightRequestId (Some preflightId)) s0
                           | None => s0
                           end
                       | None => s0
                       end) !! l = Some e1 /\
                 entry_redirectChain e1 = entry_redirectChain e /\
                 chain_shared e1 = chain_shared e /\
                 linkless (request e1) = linkless (request e)).
    { intros found s0 Hs0. destruct found as [pid|]; [|exact Hs0].
      apply (Hkeep s0 (JsMap.get rid (pending s0)) (Some pid)), Hs0. }
    apply Hback, Hback, H0.
Qed.

End heap_facts.

(** ** [clear] resets the index counter and the timestamp offset *)

Section clear_facts.
Import NetworkCapture.

Lemma shouldExclude_step s e u : shouldExclude (step s e) u = shouldExclude s u.
Proof. unfold shouldExclude. rewrite options_step. reflexivity. Qed.

Lemma notCaptured_step s e e' : notCaptured (step s e) e' = notCaptured s e'.
Proof. destruct e'; cbn; try reflexivity. apply shouldExclude_step. Qed.

(** A state in which nothing has been captured since the last [clear]. *)
Lemma cleared_step s e :
  notCaptured s e = true ->
  nextIndex s = 0%nat -> timestampOffset s = None -> pending s = [] ->
  nextIndex (step s e) = 0%nat /\ timestampOffset (step s e) = None /\
  pending (step s e) = [].
Proof.
  intros Hq Hn Ho Hp. destruct e as [p|p|p b|p| |k res]; cbn in *.
  - unfold handleRequestWillBeSent. rewrite Hq. auto.
  - unfold handleResponseReceived. rewrite Hp. cbn. auto.
  - unfold handleLoadingFinished. rewrite Hp. cbn. auto.
  - unfold handleLoadingFailed. rewrite Hp. cbn. auto.
  - auto.
  - unfold fetchSettled. destruct (fetches s !! k) as [[rid l]|]; [|auto].
    match goal with |- context [finalizeRequest ?a ?b ?c] =>
      destruct (finalizeRequest_frame a b c) as (-> & _ & -> & _ & _ & ->) end.
    destruct res as [[[body b64]|]|]; cbn; rewrite Hp; auto.
Qed.

Lemma cleared_run es s :
  forallb (notCaptured s) es = true ->
  nextIndex s = 0%nat -> timestampOffset s = None -> pending s = [] ->
  nextIndex (run s es) = 0%nat /\ timestampOffset (run s es) = None /\
  pending (run s es) = [].
Proof.
  revert s; induction es as [|e es IH]; intros s Hq Hn Ho Hp; [auto|].
  cbn [forallb] in Hq. apply andb_prop in Hq as [Hq Hqs].
  destruct (cleared_step s e Hq Hn Ho Hp) as (Hn' & Ho' & Hp').
  rewrite run_cons. apply IH; try assumption.
  rewrite <- Hqs. clear. induction es as [|e' es IH]; [reflexivity|].
  cbn [forallb]. rewrite notCaptured_step, IH. reflexivity.
Qed.

End clear_facts.

(** C10. [clear] also resets the index counter and the timestamp offset.
    Whatever happened before [clear], and whatever events that capture
    nothing follow it (excluded requests, events of unknown IDs, stale body
    fetches, further clears), the first request that is captured afterwards
    gets index 0 and sets the offset to its own [wallTime - timestamp], so
    every later projection to wall-clock time uses that offset. *)
Theorem clear_resets_index_and_offset
    (s : NetworkCapture.t) (es : list NetworkCapture.Event)
    (params : CDPRequestWillBeSent) :
  forallb (NetworkCapture.notCaptured s) es = true ->
  NetworkCapture.shouldExclude s (rq_url (rws_request params)) = false ->
  let s' := NetworkCapture.handleRequestWillBeSent params
              (NetworkCapture.run (NetworkCapture.clear s) es) in
  NetworkCapture.timestampOffset s'
    = Some (rws_wallTime params - rws_timestamp params)%R /\
  (forall x, NetworkCapture.toWallTimeMs s' x
             = ((x + (rws_wallTime params - rws_timestamp params)) * 1000)%R) /\
  NetworkCapture.nextIndex s' = 1%nat /\
  exists l e,
    JsMap.get (rws_requestId params) (NetworkCapture.pending s') = Some l /\
    NetworkCapture.heap s' !! l = Some e /\
    id (NetworkCapture.request e) = rws_requestId params /\
    index (NetworkCapture.request e) = 0%nat.
Proof.
  intros Hq Hx s'.
  set (s1 := NetworkCapture.run (NetworkCapture.clear s) es) in *.
  destruct (cleared_run es (NetworkCapture.clear s)) as (Hn & Ho & Hp);
    [exact Hq | reflexivity | reflexivity | reflexivity |].
  fold s1 in Hn, Ho, Hp.
  assert (Hx1 : NetworkCapture.shouldExclude s1 (rq_url (rws_request params)) = false).
  { unfold NetworkCapture.shouldExclude, s1.
    rewrite options_run. exact Hx. }
  assert (Hs' : s' = NetworkCapture.detectPreflight params
                       (NetworkCapture.createRequest params
                          (NetworkCapture.computeOffset params s1))).
  { unfold s', NetworkCapture.handleRequestWillBeSent. rewrite Hx1.
    unfold NetworkCapture.computeOffset at 1. rewrite Ho.
    cbn [NetworkCapture.pending NetworkCapture.set_timestampOffset].
    rewrite Hp. cbn [JsMap.get].
    destruct (rws_redirectResponse params); reflexivity. }
  rewrite Hs'. clear Hs'.
  set (s2 := NetworkCapture.createRequest params
               (NetworkCapture.computeOffset params s1)).
  destruct (control_inv _ _ (detectPreflight_control params s2))
    as (_ & _ & Hn2 & _ & Ho2 & Hp2 & _).
  assert (Hoff : NetworkCapture.timestampOffset
                   (NetworkCapture.detectPreflight params s2)
                 = Some (rws_wallTime params - rws_timestamp params)%R).
  { rewrite Ho2. unfold s2, NetworkCapture.computeOffset. rewrite Ho. reflexivity. }
  split; [exact Hoff|].
  split; [intros x; unfold NetworkCapture.toWallTimeMs; rewrite Hoff; reflexivity|].
  split.
  { rewrite Hn2. unfold s2, NetworkCapture.computeOffset. rewrite Ho. cbn.
    rewrite Hn. reflexivity. }
  destruct (detectPreflight_lookup params s2 (length (NetworkCapture.heap s1))
              (NetworkCapture.newEntry params
                 (NetworkCapture.computeOffset params s1)))
    as (e' & He' & _ & _ & Hl).
  { unfold s2, NetworkCapture.computeOffset. rewrite Ho. cbn.
    apply list_lookup_middle. reflexivity. }
  exists (length (NetworkCapture.heap s1)), e'.
  split.
  { rewrite Hp2. unfold s2, NetworkCapture.computeOffset. rewrite Ho. cbn.
    apply get_set_eq. }
  split; [exact He'|].
  split.
  - change (id (NetworkCapture.linkless (NetworkCapture.request e'))
            = rws_requestId params).
    rewrite Hl. reflexivity.
  - change (index (NetworkCapture.linkless (NetworkCapture.request e')) = 0%nat).
    rewrite Hl. unfold NetworkCapture.computeOffset. rewrite Ho. cbn. exact Hn.
Qed.


Lemma clear_resets_index_and_offset_witness :
  let s := Fixtures.ringBuffer in
  let es := [Fixtures.responseReceived "R4" "https://api.example.com/page/R4";
             NetworkCapture.Clear;
             Fixtures.finished "R4" true] in
  let params := Fixtures.willBeSentParams "R5" "https://api.example.com/page/R5"
                  "GET" Fixtures.scriptInitiator None in
  forallb (NetworkCapture.notCaptured s) es = true /\
  NetworkCapture.shouldExclude s (rq_url (rws_request params)) = false /\
  NetworkCapture.nextIndex s = 5%nat /\
  NetworkCapture.nextIndex
    (NetworkCapture.handleRequestWillBeSent params
       (NetworkCapture.run (NetworkCapture.clear s) es)) = 1%nat.
Proof.
  intros s es params.
  split; [reflexivity|]. split; [reflexivity|]. split; [reflexivity|].
  apply (clear_resets_index_and_offset s es params); reflexivity.
Defined.

(** ** How a step changes the entries of the heap *)

Section entry_facts.
Import NetworkCapture.

Lemma alter_lookup (g : Entry -> Entry) l0 (h : list Entry) l e :
  h !! l = Some e -> alter g l0 h !! l = Some (if decide (l0 = l) then g e else e).
Proof.
  intros He. destruct (decide (l0 = l)) as [->|Hne].
  - rewrite list_lookup_alter_eq, He. reflexivity.
  - rewrite list_lookup_alter_ne by exact Hne. exact He.
Qed.

Lemma detectPreflight_length params s :
  length (heap (detectPreflight params s)) = length (heap s).
Proof.
  unfold detectPreflight. branches; unfold modify; cbn;
    rewrite ?length_alter; reflexivity.
Qed.

Lemma finalizeRequest_heap requestId l s :
  heap (finalizeRequest requestId l s) = heap s.
Proof. apply finalizeRequest_frame. Qed.

(** The heap after each handler, as the heap of an intermediate state. *)
Lemma handleLoadingFinished_heap params b s l :
  JsMap.get (lf_requestId params) (pending s) = Some l ->
  heap (handleLoadingFinished params b s)
  = heap (shareChain l
            (modify l (fun r => stampEnd s (lf_timestamp params)
                                  (set_responseSize (lf_encodedDataLength params) r)) s)).
Proof.
  intros Hl. unfold handleLoadingFinished. rewrite Hl.
  match goal with |- context [if ?c then _ else _] => destruct c end;
    [reflexivity | apply finalizeRequest_heap].
Qed.

Lemma step_length s ev : (length (heap s) <= length (heap (step s ev)))%nat.
Proof.
  destruct ev as [p|p|p b|p| |k res]; cbn.
  - unfold handleRequestWillBeSent.
    destruct (computeOffset_frame p s) as (_ & _ & _ & _ & _ & Hh & _).
    branches; try lia.
    + cbn. rewrite length_alter, Hh. lia.
    + rewrite detectPreflight_length. cbn. rewrite length_app, Hh. lia.
    + rewrite detectPreflight_length. cbn. rewrite length_app, Hh. lia.
  - unfold handleResponseReceived. branches; unfold modify; cbn;
      rewrite ?length_alter; lia.
  - destruct (JsMap.get (lf_requestId p) (pending s)) as [l|] eqn:Hl.
    + rewrite (handleLoadingFinished_heap p b s l Hl).
      unfold shareChain, modify; cbn. rewrite !length_alter. lia.
    + unfold handleLoadingFinished. rewrite Hl. lia.
  - unfold handleLoadingFailed. branches; [|lia].
    rewrite finalizeRequest_heap. unfold shareChain, modify; cbn.
    rewrite !length_alter. lia.
  - cbn. lia.
  - unfold fetchSettled. destruct (fetches s !! k) as [[rid l]|]; [|lia].
    rewrite finalizeRequest_heap.
    destruct res as [[[body b64]|]|]; unfold modify; cbn;
      rewrite ?length_alter; lia.
Qed.

Lemma modify_entry l0 f s l e :
  heap s !! l = Some e ->
  exists e', heap (modify l0 f s) !! l = Some e' /\
             entry_redirectChain e' = entry_redirectChain e /\
             chain_shared e' = chain_shared e.
Proof.
  intros He. eexists. split; [apply modify_lookup, He|].
  destruct (decide (l0 = l)); split; reflexivity.
Qed.

Lemma shareChain_entry l0 s l e :
  heap s !! l = Some e ->
  exists e', heap (shareChain l0 s) !! l = Some e' /\
             entry_redirectChain e' = entry_redirectChain e /\
             (chain_shared e = true \/ l0 = l -> chain_shared e' = true).
Proof.
  intros He. eexists. split; [unfold shareChain; cbn; apply alter_lookup, He|].
  destruct (decide (l0 = l)); cbn; split; try reflexivity; intuition congruence.
Qed.

(** An allocated entry stays allocated; its chain grows by one hop exactly
    when the event is coalesced into it, and its request keeps sharing it. *)
Lemma step_entry s ev l e :
  heap s !! l = Some e ->
  exists e', heap (step s ev) !! l = Some e' /\
             (chain_shared e = true -> chain_shared e' = true) /\
             length (entry_redirectChain e')
             = (length (entry_redirectChain e) + hit s ev l)%nat.
Proof.
  intros He. destruct ev as [p|p|p b|p| |k res]; cbn [step].
  - unfold hit, coalescedInto, handleRequestWillBeSent.
    destruct (shouldExclude s _); [exists e; split; [assumption | split; [tauto | cbn; lia]]|].
    destruct (computeOffset_frame p s) as (_ & _ & _ & _ & Hp & Hh & _).
    rewrite Hp.
    assert (Hnew : exists e',
               heap (detectPreflight p (createRequest p (computeOffset p s))) !! l
               = Some e' /\
               (chain_shared e = true -> chain_shared e' = true) /\
               length (entry_redirectChain e') = (length (entry_redirectChain e) + 0)%nat).
    { destruct (detectPreflight_lookup p (createRequest p (computeOffset p s)) l e)
        as (e' & He' & Hc & Hs & _).
      { cbn. rewrite Hh. apply lookup_app_l_Some, He. }
      exists e'. split; [exact He'|]. rewrite Hc, Hs. split; [tauto|lia]. }
    destruct (rws_redirectResponse p) as [rr|]; [|exact Hnew].
    destruct (JsMap.get (rws_requestId p) (pending s)) as [l0|]; [|exact Hnew].
    eexists. split; [cbn; rewrite Hh; apply alter_lookup, He|].
    destruct (decide (l0 = l)) as [->|Hne].
    + rewrite Nat.eqb_refl. cbn. rewrite length_app. cbn. split; [tauto|lia].
    + apply Nat.eqb_neq in Hne. rewrite Hne. split; [tauto|lia].
  - unfold hit; cbn. unfold handleResponseReceived.
    destruct (JsMap.get _ _) as [l0|]; [|exists e; split; [assumption | split; [tauto | cbn; lia]]].
    destruct (modify_entry l0
                (fun r =>
                   let r := set_status (rs_status (rr_response p)) r in
                   let r := set_statusText (rs_statusText (rr_response p)) r in
                   let r := set_responseHeaders (rs_headers (rr_response p)) r in
                   let r := set_mimeType (rs_mimeType (rr_response p)) r in
                   let r := set_timing (set_responseTime (toWallTimeMs s (rr_timestamp p))
                                                         (timing r)) r in
                   if Js.truthy (rr_type p)
                   then set_resourceType (classifyResourceType (rr_type p)) r
                   else r) s l e He) as (e' & He' & Hc & Hs).
    exists e'. split; [exact He'|]. rewrite Hc, Hs. split; [tauto|lia].
  - unfold hit; cbn.
    destruct (JsMap.get (lf_requestId p) (pending s)) as [l0|] eqn:Hl.
    + rewrite (handleLoadingFinished_heap p b s l0 Hl).
      destruct (modify_entry l0
                  (fun r => stampEnd s (lf_timestamp p)
                              (set_responseSize (lf_encodedDataLength p) r)) s l e He)
        as (e1 & He1 & Hc1 & Hs1).
      destruct (shareChain_entry l0 _ l e1 He1) as (e2 & He2 & Hc2 & Hs2).
      exists e2. split; [exact He2|]. rewrite Hc2, Hc1.
      split; [intros; apply Hs2; left; congruence | lia].
    + unfold handleLoadingFinished. rewrite Hl.
      exists e; split; [assumption | split; [tauto | cbn; lia]].
  - unfold hit; cbn. unfold handleLoadingFailed.
    destruct (JsMap.get (lx_requestId p) (pending s)) as [l0|];
      [|exists e; split; [assumption | split; [tauto | cbn; lia]]].
    rewrite finalizeRequest_heap.
    destruct (modify_entry l0
                (fun r =>
                   let r := if (status r =? 0)%Z
                            then set_statusText (lx_errorText p) (set_status 0 r)
                            else r in
                   stampEnd s (lx_timestamp p) r) s l e He)
      as (e1 & He1 & Hc1 & Hs1).
    destruct (shareChain_entry l0 _ l e1 He1) as (e2 & He2 & Hc2 & Hs2).
    exists e2. split; [exact He2|]. rewrite Hc2, Hc1.
    split; [intros; apply Hs2; left; congruence | lia].
  - exists e; split; [assumption | split; [tauto | cbn; lia]].
  - unfold hit; cbn. unfold fetchSettled.
    destruct (fetches s !! k) as [[rid l0]|];
      [|exists e; split; [assumption | split; [tauto | cbn; lia]]].
    rewrite finalizeRequest_heap.
    destruct res as [[[body b64]|]|]; cbn [heap set_fetches];
      try (exists e; split; [assumption | split; [tauto | cbn; lia]]).
    match goal with
    | |- context [modify l0 ?f ?s0] =>
        destruct (modify_entry l0 f s0 l e He) as (e' & He' & Hc & Hs)
    end.
    exists e'. split; [exact He'|]. rewrite Hc, Hs. split; [tauto|lia].
Qed.

End entry_facts.

(** ** Validity of the locations, and sharing of the chain *)

Section valid_facts.
Import NetworkCapture.

Lemma locsBelow_mono n n' m : (n <= n')%nat -> locsBelow n m -> locsBelow n' m.
Proof.
  intros Hn. unfold locsBelow. rewrite !List.Forall_forall.
  intros H kv Hkv. specialize (H kv Hkv). lia.
Qed.

Lemma locsBelow_In n m k l : locsBelow n m -> In (k, l) m -> (l < n)%nat.
Proof. unfold locsBelow. rewrite List.Forall_forall. intros H Hin. exact (H _ Hin). Qed.

Lemma locsBelow_set n m k l : locsBelow n m -> (l < n)%nat -> locsBelow n (JsMap.set k l m).
Proof.
  unfold locsBelow. rewrite !List.Forall_forall. intros H Hl kv Hkv.
  destruct (In_set _ _ _ _ Hkv) as [->|Hin]; [exact Hl | exact (H _ Hin)].
Qed.

Lemma locsBelow_delete n m k : locsBelow n m -> locsBelow n (JsMap.delete k m).
Proof.
  unfold locsBelow. rewrite !List.Forall_forall. intros H kv Hkv.
  exact (H _ (In_delete _ _ _ Hkv)).
Qed.

Lemma In_list_delete {A} (x : A) k (l : list A) : In x (delete k l) -> In x l.
Proof.
  revert k; induction l as [|y l IH]; intros [|k]; cbn; try tauto.
  intros [<-|H]; [left; reflexivity | right; exact (IH _ H)].
Qed.

Lemma lookup_In {A} (l : list A) k x : l !! k = Some x -> In x l.
Proof. intros H. apply list_elem_of_In, list_elem_of_lookup. eauto. Qed.

(** The store after a commit holds the committed entry and entries it held
    before. *)
Lemma finalizeRequest_requests_In requestId l s kv :
  In kv (requests (finalizeRequest requestId l s)) ->
  kv = (requestId, l) \/ In kv (requests s).
Proof.
  unfold finalizeRequest. cbn. branches; cbn; intros H;
    destruct (In_set _ _ _ _ H) as [->|H']; auto;
    right; eauto using In_delete.
Qed.

Lemma finalizeRequest_valid requestId l s :
  valid s -> (l < length (heap s))%nat -> valid (finalizeRequest requestId l s).
Proof.
  intros (Hp & Hr & Hf) Hl.
  destruct (finalizeRequest_frame requestId l s) as (_ & _ & _ & Hh & Hf' & Hp').
  unfold valid. rewrite Hh, Hf', Hp'.
  split; [apply locsBelow_delete, Hp|]. split; [|exact Hf].
  unfold locsBelow. rewrite List.Forall_forall. intros [k v] Hkv.
  destruct (finalizeRequest_requests_In _ _ _ _ Hkv) as [[= -> ->]|Hin];
    [exact Hl | exact (locsBelow_In _ _ _ _ Hr Hin)].
Qed.

Lemma valid_heap s h :
  valid s -> length h = length (heap s) -> valid (set_heap h s).
Proof. unfold valid; cbn. intros H ->. exact H. Qed.

Lemma valid_modify l f s : valid s -> valid (modify l f s).
Proof. intros H. apply valid_heap; [exact H | apply length_alter]. Qed.

Lemma valid_shareChain l s : valid s -> valid (shareChain l s).
Proof. intros H. apply valid_heap; [exact H | apply length_alter]. Qed.

Lemma valid_detectPreflight params s : valid s -> valid (detectPreflight params s).
Proof.
  intros H. unfold valid.
  destruct (control_inv _ _ (detectPreflight_control params s))
    as (-> & _ & _ & _ & _ & -> & ->).
  rewrite detectPreflight_length. exact H.
Qed.

Lemma valid_step s ev : valid s -> valid (step s ev).
Proof.
  intros Hv. destruct ev as [p|p|p b|p| |k res]; cbn [step].
  - unfold handleRequestWillBeSent.
    destruct (shouldExclude s _); [exact Hv|].
    assert (Hv' : valid (computeOffset p s)).
    { unfold computeOffset. destruct (timestampOffset s); exact Hv. }
    assert (Hnew : valid (detectPreflight p (createRequest p (computeOffset p s)))).
    { apply valid_detectPreflight. destruct Hv' as (Hp & Hr & Hf).
      unfold valid, createRequest; cbn. rewrite length_app; cbn.
      split; [|split].
      - apply locsBelow_set; [|lia]. eapply locsBelow_mono; [|exact Hp]. lia.
      - eapply locsBelow_mono; [|exact Hr]. lia.
      - eapply locsBelow_mono; [|exact Hf]. lia. }
    destruct (rws_redirectResponse p); [|exact Hnew].
    destruct (JsMap.get _ _); [|exact Hnew].
    apply valid_heap; [exact Hv' | apply length_alter].
  - unfold handleResponseReceived. destruct (JsMap.get _ _); [|exact Hv].
    apply valid_modify, Hv.
  - unfold handleLoadingFinished.
    destruct (JsMap.get (lf_requestId p) (pending s)) as [l|] eqn:Hl; [|exact Hv].
    assert (Hl' : (l < length (heap s))%nat)
      by (destruct Hv as (Hp & _); exact (locsBelow_In _ _ _ _ Hp (get_In _ _ _ Hl))).
    match goal with |- context [shareChain l ?s1] => set (s2 := shareChain l s1) end.
    assert (Hv2 : valid s2) by (apply valid_shareChain, valid_modify, Hv).
    assert (Hlen : length (heap s2) = length (heap s))
      by (unfold s2, shareChain, modify; cbn; rewrite !length_alter; reflexivity).
    match goal with |- context [if ?c then _ else _] => destruct c end.
    + destruct Hv2 as (Hp & Hr & Hf). unfold valid; cbn. repeat split; try assumption.
      unfold locsBelow. apply Forall_app. split; [exact Hf|].
      constructor; [cbn; rewrite !length_alter; lia | constructor].
    + apply finalizeRequest_valid; [exact Hv2 | lia].
  - unfold handleLoadingFailed.
    destruct (JsMap.get (lx_requestId p) (pending s)) as [l|] eqn:Hl; [|exact Hv].
    assert (Hl' : (l < length (heap s))%nat)
      by (destruct Hv as (Hp & _); exact (locsBelow_In _ _ _ _ Hp (get_In _ _ _ Hl))).
    apply finalizeRequest_valid; [apply valid_shareChain, valid_modify, Hv|].
    unfold shareChain, modify; cbn. rewrite !length_alter. exact Hl'.
  - destruct Hv as (Hp & Hr & Hf). unfold valid, clear; cbn.
    repeat split; try constructor. exact Hf.
  - unfold fetchSettled.
    destruct (fetches s !! k) as [[rid l]|] eqn:Hk; [|exact Hv].
    assert (Hl' : (l < length (heap s))%nat)
      by (destruct Hv as (_ & _ & Hf); exact (locsBelow_In _ _ _ _ Hf (lookup_In _ _ _ Hk))).
    assert (Hv1 : valid (set_fetches (delete k (fetches s)) s)).
    { destruct Hv as (Hp & Hr & Hf). unfold valid; cbn. repeat split; try assumption.
      unfold locsBelow in *. rewrite List.Forall_forall in *. intros kv Hkv.
      exact (Hf _ (In_list_delete _ _ _ Hkv)). }
    destruct res as [[[body b64]|]|].
    + apply finalizeRequest_valid; [apply valid_modify, Hv1|].
      unfold modify; cbn. rewrite length_alter. exact Hl'.
    + apply finalizeRequest_valid; [exact Hv1 | exact Hl'].
    + apply finalizeRequest_valid; [exact Hv1 | exact Hl'].
Qed.

Lemma valid_run es s : valid s -> valid (run s es).
Proof.
  revert s; induction es as [|e es IH]; intros s Hv; [exact Hv|].
  rewrite run_cons. apply IH, valid_step, Hv.
Qed.

Lemma valid_new o : valid (new o).
Proof. repeat split; constructor. Qed.

End valid_facts.

Section shared_facts.
Import NetworkCapture.

Lemma shareChain_shared l s e' :
  heap (shareChain l s) !! l = Some e' -> chain_shared e' = true.
Proof.
  unfold shareChain; cbn. rewrite list_lookup_alter_eq.
  destruct (heap s !! l); cbn; [intros [= <-]; reflexivity | discriminate].
Qed.

(** A committed or fetching entry was one before the step, or its chain has
    just been shared. *)
Lemma done_step s ev rid l :
  In (rid, l) (requests (step s ev)) \/ In (rid, l) (fetches (step s ev)) ->
  (In (rid, l) (requests s) \/ In (rid, l) (fetches s)) \/
  (forall e', heap (step s ev) !! l = Some e' -> chain_shared e' = true).
Proof.
  destruct ev as [p|p|p b|p| |k res]; cbn [step].
  - unfold handleRequestWillBeSent.
    destruct (shouldExclude s _); [auto|].
    destruct (computeOffset_frame p s) as (Hr & _ & _ & _ & _ & _ & Hf).
    assert (Hnew : In (rid, l) (requests (detectPreflight p (createRequest p (computeOffset p s)))) \/
                   In (rid, l) (fetches (detectPreflight p (createRequest p (computeOffset p s)))) ->
                   In (rid, l) (requests s) \/ In (rid, l) (fetches s)).
    { destruct (control_inv _ _ (detectPreflight_control p (createRequest p (computeOffset p s))))
        as (-> & _ & _ & _ & _ & _ & ->).
      cbn. rewrite Hr, Hf. auto. }
    destruct (rws_redirectResponse p); [|auto].
    destruct (JsMap.get _ _); [|auto].
    cbn. rewrite Hr, Hf. auto.
  - unfold handleResponseReceived. destruct (JsMap.get _ _); auto.
  - destruct (JsMap.get (lf_requestId p) (pending s)) as [l0|] eqn:Hl.
    + rewrite (handleLoadingFinished_heap p b s l0 Hl).
      unfold handleLoadingFinished. rewrite Hl.
      match goal with |- context [if ?c then _ else _] => destruct c end.
      * cbn. intros [H|H]; [auto|].
        apply in_app_or in H as [H|[[= <- <-]|[]]]; [auto|].
        right. intros e'. apply (shareChain_shared l0 (modify l0 _ s)).
      * match goal with
        | |- context [finalizeRequest ?a ?b ?c] =>
            destruct (finalizeRequest_frame a b c) as (_ & _ & _ & _ & Hf & _)
        end.
        rewrite Hf. cbn [fetches shareChain modify set_heap].
        intros [H|H]; [|auto].
        apply finalizeRequest_requests_In in H as [[= -> ->]|H]; [|auto].
        right. intros e'. apply (shareChain_shared l0 (modify l0 _ s)).
    + unfold handleLoadingFinished. rewrite Hl. auto.
  - unfold handleLoadingFailed.
    destruct (JsMap.get (lx_requestId p) (pending s)) as [l0|] eqn:Hl; [|auto].
    rewrite finalizeRequest_heap.
    match goal with
    | |- context [finalizeRequest ?a ?b ?c] =>
        destruct (finalizeRequest_frame a b c) as (_ & _ & _ & _ & Hf & _)
    end.
    rewrite Hf. cbn [fetches shareChain modify set_heap].
    intros [H|H]; [|auto].
    apply finalizeRequest_requests_In in H as [[= -> ->]|H]; [|auto].
    right. intros e'. apply (shareChain_shared l0 (modify l0 _ s)).
  - cbn. intros [[]|H]; auto.
  - unfold fetchSettled.
    destruct (fetches s !! k) as [[rid0 l0]|] eqn:Hk; [|auto].
    match goal with
    | |- context [finalizeRequest ?a ?b ?c] =>
        destruct (finalizeRequest_frame a b c) as (_ & _ & _ & _ & Hf & _)
    end.
    rewrite Hf. intros [H|H].
    + apply finalizeRequest_requests_In in H as [[= -> ->]|H].
      * left; right. exact (lookup_In _ _ _ Hk).
      * left; left. destruct res as [[[body b64]|]|]; exact H.
    + left; right. apply (In_list_delete _ k).
      destruct res as [[[body b64]|]|]; exact H.
Qed.

Lemma sharedWhenDone_step s ev :
  valid s -> sharedWhenDone s -> sharedWhenDone (step s ev).
Proof.
  intros Hv Hs rid l e' Hin He'.
  destruct (done_step s ev rid l Hin) as [Hold|Hnew]; [|exact (Hnew _ He')].
  assert (Hl : (l < length (heap s))%nat).
  { destruct Hv as (_ & Hr & Hf).
    destruct Hold as [H|H];
      [exact (locsBelow_In _ _ _ _ Hr H) | exact (locsBelow_In _ _ _ _ Hf H)]. }
  apply lookup_lt_is_Some_2 in Hl as [e He].
  destruct (step_entry s ev l e He) as (e1 & He1 & Hsh & _).
  rewrite He1 in He'. injection He' as <-.
  apply Hsh. exact (Hs rid l e Hold He).
Qed.

Lemma sharedWhenDone_run es s :
  valid s -> sharedWhenDone s -> sharedWhenDone (run s es).
Proof.
  revert s; induction es as [|e es IH]; intros s Hv Hs; [exact Hs|].
  rewrite run_cons. apply IH; [apply valid_step, Hv | apply sharedWhenDone_step; assumption].
Qed.

(** The chain of an entry grows by the events coalesced into it. *)
Lemma chainLength_step s ev l :
  valid s ->
  chainLength (heap (step s ev) !! l) = (chainLength (heap s !! l) + hit s ev l)%nat.
Proof.
  intros Hv. destruct (heap s !! l) as [e|] eqn:He.
  - destruct (step_entry s ev l e He) as (e' & -> & _ & Hlen). exact Hlen.
  - assert (Hhit : hit s ev l = 0%nat).
    { unfold hit. destruct (coalescedInto s ev) as [l'|] eqn:Hc; [|reflexivity].
      destruct (Nat.eqb_spec l' l) as [->|]; [|reflexivity]. exfalso.
      apply lookup_ge_None_1 in He.
      destruct ev as [p| | | | |]; cbn in Hc; try discriminate.
      destruct (shouldExclude s _); [discriminate|].
      destruct (rws_redirectResponse p); [|discriminate].
      destruct Hv as (Hp & _).
      pose proof (locsBelow_In _ _ _ _ Hp (get_In _ _ _ Hc)). lia. }
    rewrite Hhit. cbn.
    destruct (heap (step s ev) !! l) as [e'|] eqn:He'; [|reflexivity]. cbn.
    (* only the creation of a request allocates *)
    destruct ev as [p|p|p b|p| |k res]; cbn [step] in He'.
    + unfold handleRequestWillBeSent in He'.
      destruct (shouldExclude s _); [congruence|].
      destruct (computeOffset_frame p s) as (_ & _ & _ & _ & _ & Hh & _).
      assert (Hnew : heap (detectPreflight p (createRequest p (computeOffset p s))) !! l
                     = Some e' -> length (entry_redirectChain e') = 0%nat).
      { intros H.
        assert (Hl : l = length (heap s)).
        { apply lookup_lt_Some in H. rewrite detectPreflight_length in H.
          cbn in H. rewrite length_app, Hh in H. cbn in H.
          apply lookup_ge_None_1 in He. lia. }
        destruct (detectPreflight_lookup p (createRequest p (computeOffset p s)) l
                    (newEntry p (computeOffset p s))) as (e1 & He1 & Hc & _).
        { cbn. rewrite Hh, Hl. apply list_lookup_middle. reflexivity. }
        rewrite He1 in H. injection H as <-. rewrite Hc. reflexivity. }
      destruct (rws_redirectResponse p); [|exact (Hnew He')].
      destruct (JsMap.get _ _); [|exact (Hnew He')].
      cbn in He'. apply lookup_lt_Some in He'.
      rewrite length_alter, Hh in He'. apply lookup_ge_None_1 in He. lia.
    + exfalso. apply lookup_lt_Some in He'. apply lookup_ge_None_1 in He.
      unfold handleResponseReceived in He'.
      destruct (JsMap.get _ _); unfold modify in He'; cbn in He';
        rewrite ?length_alter in He'; lia.
    + exfalso. apply lookup_lt_Some in He'. apply lookup_ge_None_1 in He.
      destruct (JsMap.get (lf_requestId p) (pending s)) as [l0|] eqn:Hl.
      * rewrite (handleLoadingFinished_heap p b s l0 Hl) in He'.
        unfold shareChain, modify in He'; cbn in He'.
        rewrite !length_alter in He'. lia.
      * unfold handleLoadingFinished in He'. rewrite Hl in He'. lia.
    + exfalso. apply lookup_lt_Some in He'. apply lookup_ge_None_1 in He.
      unfold handleLoadingFailed in He'.
      destruct (JsMap.get _ _); [|lia].
      rewrite finalizeRequest_heap in He'.
      unfold shareChain, modify in He'; cbn in He'.
      rewrite !length_alter in He'. lia.
    + cbn in He'. congruence.
    + exfalso. apply lookup_lt_Some in He'. apply lookup_ge_None_1 in He.
      unfold fetchSettled in He'.
      destruct (fetches s !! k) as [[rid l0]|]; [|lia].
      rewrite finalizeRequest_heap in He'.
      destruct res as [[[body b64]|]|]; unfold modify in He'; cbn in He';
        rewrite ?length_alter in He'; lia.
Qed.

Lemma chainLength_run es s l :
  valid s ->
  chainLength (heap (run s es) !! l) = (chainLength (heap s !! l) + hopsInto l s es)%nat.
Proof.
  revert s; induction es as [|e es IH]; intros s Hv; [cbn; lia|].
  rewrite run_cons, IH by (apply valid_step, Hv).
  rewrite chainLength_step by exact Hv. cbn. lia.
Qed.

End shared_facts.

(** ** Redirect chains *)

(** C5, as stated, fails.  With URLs containing [/old] excluded, the first
    hop of a redirect is dropped; the redirect-bearing event for the next
    hop finds no pending entry and starts a new record.  One
    redirect-bearing event was observed for [R], and the finalized record
    has an empty chain. *)
Lemma redirect_chain_misses_uncoalesced_hop :
  NetworkCapture.observedRedirects "R" Fixtures.redirectAfterExcluded = 1%nat /\
  (length ∘ redirectChain) <$>
    NetworkCapture.getRequest "R"
      (NetworkCapture.run (NetworkCapture.new Fixtures.excludingOld)
         Fixtures.redirectAfterExcluded)
  = Some 0%nat.
Proof. vm_compute. split; reflexivity. Qed.

(** C5, amended.  After every event sequence, the redirect chain of a
    finalized record has one entry for each event that was coalesced into
    it: each [RequestWillBeSent] that carried a [redirectResponse], had a
    URL that is not excluded, and found the record pending under its
    request ID.  Excluded events and redirect-bearing events that find no
    pending record add no hop. *)
Theorem redirect_chain_counts_coalesced_hops
    (o : NetworkCapture.Options) (es : list NetworkCapture.Event)
    (requestId : string) (l : nat) :
  JsMap.get requestId (NetworkCapture.requests (NetworkCapture.run (NetworkCapture.new o) es))
    = Some l ->
  (length ∘ redirectChain) <$>
    NetworkCapture.getRequest requestId (NetworkCapture.run (NetworkCapture.new o) es)
  = Some (NetworkCapture.hopsInto l (NetworkCapture.new o) es).
Proof.
  intros Hl. set (s := NetworkCapture.run (NetworkCapture.new o) es) in *.
  assert (Hv : NetworkCapture.valid s) by apply valid_run, valid_new.
  assert (Hs : NetworkCapture.sharedWhenDone s).
  { apply sharedWhenDone_run; [apply valid_new|]. intros rid l' e [[]|[]]. }
  assert (Hlt : (l < length (NetworkCapture.heap s))%nat).
  { destruct Hv as (_ & Hr & _). exact (locsBelow_In _ _ _ _ Hr (get_In _ _ _ Hl)). }
  apply lookup_lt_is_Some_2 in Hlt as [e He].
  unfold NetworkCapture.getRequest. rewrite Hl, He. cbn.
  pose proof (chainLength_run es (NetworkCapture.new o) l (valid_new o)) as Hc.
  fold s in Hc. rewrite He in Hc. cbn [NetworkCapture.new NetworkCapture.heap] in Hc.
  rewrite lookup_nil in Hc. cbn in Hc. rewrite <- Hc.
  unfold NetworkCapture.captured.
  rewrite (Hs requestId l e (or_introl (get_In _ _ _ Hl)) He). reflexivity.
Qed.

Lemma redirect_chain_counts_coalesced_hops_witness :
  JsMap.get "R" (NetworkCapture.requests
                   (NetworkCapture.run (NetworkCapture.new NetworkCapture.DEFAULT_OPTIONS)
                      Fixtures.redirectChainEvents)) = Some 0%nat /\
  NetworkCapture.hopsInto 0 (NetworkCapture.new NetworkCapture.DEFAULT_OPTIONS)
    Fixtures.redirectChainEvents = 2%nat /\
  (length ∘ redirectChain) <$>
    NetworkCapture.getRequest "R"
      (NetworkCapture.run (NetworkCapture.new NetworkCapture.DEFAULT_OPTIONS)
         Fixtures.redirectChainEvents)
  = Some (NetworkCapture.hopsInto 0 (NetworkCapture.new NetworkCapture.DEFAULT_OPTIONS)
            Fixtures.redirectChainEvents).
Proof.
  split; [reflexivity|]. split; [reflexivity|].
  apply (redirect_chain_counts_coalesced_hops NetworkCapture.DEFAULT_OPTIONS
           Fixtures.redirectChainEvents "R" 0).
  reflexivity.
Defined.

(** ** Real numbers *)

Section real_facts.
#[local] Open Scope R_scope.

Lemma Rleb_true x y : x <= y -> Rleb x y = true.
Proof. intros H. unfold Rleb. destruct (Rle_dec x y); [reflexivity | contradiction]. Qed.

Lemma Rleb_false x y : y < x -> Rleb x y = false.
Proof. intros H. unfold Rleb. destruct (Rle_dec x y); [lra | reflexivity]. Qed.

Lemma Rleb_spec x y : reflect (x <= y) (Rleb x y).
Proof. unfold Rleb. destruct (Rle_dec x y); constructor; assumption. Qed.

Lemma Rltb_true x y : x < y -> Rltb x y = true.
Proof. intros H. unfold Rltb. destruct (Rlt_dec x y); [reflexivity | contradiction]. Qed.

Lemma Rltb_false x y : y <= x -> Rltb x y = false.
Proof. intros H. unfold Rltb. destruct (Rlt_dec x y); [lra | reflexivity]. Qed.

Lemma Rltb_spec x y : reflect (x < y) (Rltb x y).
Proof. unfold Rltb. destruct (Rlt_dec x y); constructor; assumption. Qed.

Lemma truthyNumber_Some x : x <> 0 -> truthyNumber (Some x) = true.
Proof. intros H. unfold truthyNumber. destruct (Req_dec_T x 0); [contradiction | reflexivity]. Qed.

Lemma truthyNumber_true o :
  truthyNumber o = true -> exists x, o = Some x /\ x <> 0.
Proof.
  destruct o as [x|]; [|discriminate]. unfold truthyNumber.
  destruct (Req_dec_T x 0); [discriminate|]. eauto.
Qed.

(** The clamp of [computeScore]. *)
Lemma clamp_id x : 0 <= x <= 1 -> Rmax 0 (Rmin 1 x) = x.
Proof. intros [H0 H1]. rewrite Rmin_right by exact H1. apply Rmax_right, H0. Qed.

Lemma clamp_le x : Rmax 0 (Rmin 1 x) <= 1.
Proof. apply Rmax_lub; [lra | apply Rmin_l]. Qed.

Lemma clamp_low x : x <= 0 -> Rmax 0 (Rmin 1 x) = 0.
Proof. intros H. rewrite Rmin_right by lra. apply Rmax_left, H. Qed.

End real_facts.

(** Decides the comparisons of real numbers that occur in a goal. *)
Ltac Rdecide :=
  repeat first
    [ rewrite Rleb_true by lra
    | rewrite Rleb_false by lra
    | rewrite Rltb_true by lra
    | rewrite Rltb_false by lra
    | rewrite truthyNumber_Some by lra ].

Ltac jsRun := repeat (jsEval; progress Rdecide); jsEval.

(** ** The proximity term *)

Section proximity_facts.
#[local] Open Scope R_scope.

Lemma proximity_pos d : 0 < Correlator.proximity d.
Proof. unfold Correlator.proximity. pose proof (exp_pos (- d / 150)). lra. Qed.

Lemma proximity_zero : Correlator.proximity 0 = 0.35.
Proof.
  unfold Correlator.proximity. replace (- 0 / 150) with 0 by lra.
  rewrite exp_0. lra.
Qed.

(** For a request that starts before the action, the term exceeds 0.35. *)
Lemma proximity_negative d : d < 0 -> 0.35 < Correlator.proximity d.
Proof.
  intros Hd. unfold Correlator.proximity.
  assert (1 < exp (- d / 150)) by (rewrite <- exp_0; apply exp_increasing; lra).
  lra.
Qed.

Lemma proximity_le d : 0 <= d -> Correlator.proximity d <= 0.35.
Proof.
  intros Hd. destruct (Req_dec_T d 0) as [->|Hne].
  - rewrite proximity_zero. lra.
  - unfold Correlator.proximity.
    assert (exp (- d / 150) < 1) by (rewrite <- exp_0; apply exp_increasing; lra).
    lra.
Qed.

Lemma proximity_upper d : 0 <= d -> Correlator.proximity d <= 0.35 / (1 + d / 150).
Proof.
  intros Hd. unfold Correlator.proximity.
  replace (- d / 150) with (- (d / 150)) by lra.
  rewrite exp_Ropp.
  pose proof (exp_ineq1_le (d / 150)) as H.
  assert (H0 : 0 < 1 + d / 150) by lra.
  assert (/ exp (d / 150) <= / (1 + d / 150)) by (apply Rinv_le_contravar; lra).
  unfold Rdiv at 2. apply Rmult_le_compat_l; lra.
Qed.

End proximity_facts.

(** ** Layer 4 *)

Section layer4_facts.
#[local] Open Scope R_scope.
Import Correlator.

Lemma scroll_score_low :
  computeScore Fixtures.scrollAction Fixtures.chainChild < 0.2.
Proof.
  unfold computeScore.
  assert (Hs : semanticScore Fixtures.scrollAction Fixtures.chainChild = 0)
    by (jsEval; lra).
  assert (Hb : isLikelyBackground Fixtures.chainChild = false) by reflexivity.
  rewrite Hs, Hb.
  pose proof (proximity_upper (startTime (timing Fixtures.chainChild)
                               - action_timestamp Fixtures.scrollAction)) as Hp.
  cbn in Hp. specialize (Hp ltac:(lra)).
  pose proof (proximity_pos (2000 - 1000)) as Hpos.
  assert (0.35 / (1 + (2000 - 1000) / 150) < 0.2) by lra.
  cbn. rewrite clamp_id; lra.
Qed.

End layer4_facts.

(** C6, as stated, fails.  The scroll lies inside the timing window of the
    child request and its score is below [minConfidence]; a correlated
    parent ended 50 ms before the child started, so the temporal chain
    search would attribute the child with confidence 0.5.
    [correlateRequest] returns [null] without searching. *)
Lemma low_score_skips_layer4 :
  Correlator.inWindow (Fixtures.withActions [Fixtures.scrollAction])
    Fixtures.chainChild Fixtures.scrollAction = true /\
  (Correlator.computeScore Fixtures.scrollAction Fixtures.chainChild
   < Correlator.minConfidence Correlator.DEFAULT_OPTIONS)%R /\
  Correlator.matchByChain (Fixtures.withActions [Fixtures.scrollAction])
    Fixtures.chainChild [Fixtures.chainParent; Fixtures.chainChild]
  = Some (Correlator.mkMatch (0%nat, Fixtures.scrollAction) 0.5 chain) /\
  Correlator.correlateRequest (Fixtures.withActions [Fixtures.scrollAction])
    Fixtures.chainChild [Fixtures.chainParent; Fixtures.chainChild]
  = None.
Proof.
  pose proof scroll_score_low as Hs. jsEvalIn Hs.
  split; [jsRun; reflexivity|].
  split; [exact scroll_score_low|].
  split; [jsRun; reflexivity|].
  jsRun. reflexivity.
Qed.

Section chain_search_facts.
#[local] Open Scope R_scope.
Import Correlator.

Lemma In_insertSorted {A} (before : A -> A -> bool) x y l :
  In x (insertSorted before y l) <-> x = y \/ In x l.
Proof.
  induction l as [|z l IH]; cbn; [intuition congruence|].
  destruct (before z y); cbn; rewrite ?IH; intuition congruence.
Qed.

Lemma In_sortBy {A} (before : A -> A -> bool) x l :
  In x (sortBy before l) <-> In x l.
Proof.
  induction l as [|y l IH]; cbn; [tauto|].
  rewrite In_insertSorted, IH. intuition congruence.
Qed.

Lemma head_filter_Some {A} (p : A -> bool) l x :
  head (List.filter p l) = Some x -> In x l /\ p x = true.
Proof.
  intros H. apply filter_In. destruct (List.filter p l) as [|y l']; [discriminate|].
  injection H as ->. left; reflexivity.
Qed.

Lemma filter_andb_nil {A} (p q : A -> bool) l :
  List.filter q l = [] -> List.filter (fun a => p a && q a) l = [].
Proof.
  induction l as [|x l IH]; cbn; [reflexivity|].
  destruct (q x); [discriminate|]. rewrite andb_false_r. exact IH.
Qed.

(** [getAction] returns an action of the log that has the ID asked for. *)
Lemma getAction_spec actionId c k a :
  getAction actionId c = Some (k, a) ->
  actions c !! k = Some a /\ action_id a = actionId.
Proof.
  unfold getAction, refs. intros H.
  apply head_filter_Some in H as [Hin Hid]. cbn in Hid.
  apply String.eqb_eq in Hid. split; [|exact Hid].
  apply list_elem_of_In, list_elem_of_lookup in Hin as [i Hi].
  rewrite list_lookup_imap in Hi.
  destruct (actions c !! i) as [a'|] eqn:Ha; [|discriminate].
  cbn in Hi. injection Hi as <- <-. exact Ha.
Qed.

(** The temporal chain search answers with a correlated parent that has a
    known end time at most 100 ms before the start of the request. *)
Lemma temporalChain_Some c r parents m :
  temporalChain c r parents = Some m ->
  match_method m = chain /\ match_confidence m = 0.5 /\
  exists parent t,
    In parent parents /\
    getAction (default "" (correlatedActionId parent)) c = Some (match_action m) /\
    endTime (timing parent) = Some t /\ t <> 0 /\
    0 <= startTime (timing r) - t <= 100.
Proof.
  induction parents as [|parent rest IH]; cbn; [discriminate|].
  intros H.
  assert (Hrest : temporalChain c r rest = Some m ->
                  match_method m = chain /\ match_confidence m = 0.5 /\
                  exists parent0 t,
                    (parent = parent0 \/ In parent0 rest) /\
                    getAction (default "" (correlatedActionId parent0)) c
                    = Some (match_action m) /\
                    endTime (timing parent0) = Some t /\ t <> 0 /\
                    0 <= startTime (timing r) - t <= 100).
  { intros H'. destruct (IH H') as (? & ? & p0 & t & ? & ?). eauto 10. }
  destruct (truthyNumber (endTime (timing parent))) eqn:Ht; cbn in H; [|auto].
  apply truthyNumber_true in Ht as (t & Ht & Hne). rewrite Ht in H. cbn in H.
  destruct (Rleb_spec 0 (startTime (timing r) - t)) as [H0|]; cbn in H; [|auto].
  destruct (Rleb_spec (startTime (timing r) - t) 100) as [H1|]; cbn in H; [|auto].
  destruct (getAction _ c) as [action|] eqn:Ha; [|auto].
  injection H as <-. cbn. repeat split.
  exists parent, t. rewrite Ht. auto 10.
Qed.

Lemma matchByChain_Some c r allRequests m :
  matchByChain c r allRequests = Some m ->
  match_method m = chain /\
  exists parent,
    In parent allRequests /\
    Js.truthy (correlatedActionId parent) = true /\
    getAction (default "" (correlatedActionId parent)) c = Some (match_action m) /\
    ((match_confidence m = 0.85 /\ init_type (initiator r) = "preflight" /\
      init_requestId (initiator r) = Some (id parent)) \/
     (match_confidence m = 0.5 /\
      exists t, endTime (timing parent) = Some t /\ t <> 0 /\
                0 <= startTime (timing r) - t <= 100)).
Proof.
  unfold matchByChain. destruct (preflightParent c r allRequests) as [m'|] eqn:Hp.
  - intros [= ->]. unfold preflightParent in Hp.
    destruct (String.eqb_spec (init_type (initiator r)) "preflight") as [Hty|];
      [|discriminate]. cbn in Hp.
    destruct (Js.truthy (init_requestId (initiator r))); [|discriminate].
    destruct (head _) as [parent|] eqn:Hh; [|discriminate].
    apply head_filter_Some in Hh as [Hin Hid].
    destruct (Js.truthy (correlatedActionId parent)) eqn:Hc; [|discriminate].
    destruct (getAction _ c) as [action|] eqn:Ha; [|discriminate].
    injection Hp as <-. cbn. split; [reflexivity|].
    exists parent. repeat split; try assumption. left. repeat split; try assumption.
    unfold Js.strict_eq in Hid.
    destruct (init_requestId (initiator r)) as [t|]; [|discriminate].
    apply String.eqb_eq in Hid. congruence.
  - intros H. apply temporalChain_Some in H as (Hm & Hc & parent & t & Hin & Ha & Ht & Hne & Hgap).
    split; [exact Hm|]. exists parent.
    unfold recentCorrelated in Hin. apply In_sortBy, filter_In in Hin as [Hin Hf].
    apply andb_prop in Hf as [Hf _].
    repeat split; try assumption. right. split; [exact Hc|]. eauto.
Qed.

End chain_search_facts.

(** C7.  The proximity term is [0.35 * exp (- delta / 150)], and it should
    not exceed the 0.35 it has at [delta = 0].  The timing window admits a
    request that starts 10 ms before the action, and for it the term is
    larger than 0.35: the exponent is positive. *)
Theorem proximity_exceeds_bonus_before_action :
  Correlator.inWindow (Fixtures.withActions [Fixtures.earlyClick])
    Fixtures.earlyRequest Fixtures.earlyClick = true /\
  (startTime (timing Fixtures.earlyRequest)
   - action_timestamp Fixtures.earlyClick = -10)%R /\
  Correlator.proximity 0 = 0.35%R /\
  (0.35 < Correlator.proximity (-10))%R.
Proof.
  split; [jsRun; reflexivity|].
  split; [cbn; lra|].
  split; [exact proximity_zero|].
  apply proximity_negative. lra.
Qed.

(** ** Auth flow chains *)

Section auth_flow_facts.
#[local] Open Scope R_scope.
Import Correlator.

Lemma authHeader_login : authHeader Fixtures.authLogin = None.
Proof. vm_compute. reflexivity. Qed.

Lemma authHeader_uppercase : authHeader (Fixtures.profileWith "AUTHORIZATION") = None.
Proof. vm_compute. reflexivity. Qed.

Lemma authHeader_capitalized :
  authHeader (Fixtures.profileWith "Authorization")
  = Some ("Bearer " ++ Fixtures.token)%string.
Proof. vm_compute. reflexivity. Qed.

Lemma uppercase_header_not_found prefix :
  authenticatedBy Fixtures.authLogin prefix
    [Fixtures.authLogin; Fixtures.profileWith "AUTHORIZATION"] = [].
Proof.
  unfold authenticatedBy. cbn [List.filter].
  rewrite authHeader_login, authHeader_uppercase. cbn [Js.truthy].
  rewrite !andb_false_r. reflexivity.
Qed.

(** With the header spelled [Authorization] the chain is detected. *)
Lemma auth_flow_detected (JSON_parse : string -> option JsonValue) :
  JSON_parse Fixtures.loginBody = Some Fixtures.loginJson ->
  detectAuthFlow JSON_parse [Fixtures.authLogin; Fixtures.profileWith "Authorization"]
  = Some {| chain_type := auth_flow; requestIds := ["req_auth"; "req_profile"] |}.
Proof.
  intros Hparse. unfold detectAuthFlow.
  change (List.filter isAuthPost
            [Fixtures.authLogin; Fixtures.profileWith "Authorization"])
    with [Fixtures.authLogin].
  cbn [authFlowFrom].
  change (default "" (responseBody Fixtures.authLogin)) with Fixtures.loginBody.
  rewrite Hparse.
  change ((status Fixtures.authLogin <? 200)%Z || (300 <=? status Fixtures.authLogin)%Z)
    with false.
  change (negb (Js.truthy (responseBody Fixtures.authLogin))) with false.
  change (tokenValue Fixtures.loginJson) with (Some (Some (JString Fixtures.token))).
  change (Fixtures.token =? "")%string with false.
  cbn match. unfold authenticatedBy. cbn [List.filter].
  rewrite authHeader_login, authHeader_capitalized. cbn [Js.truthy].
  change (startTime (timing Fixtures.authLogin)) with 1000.
  change (startTime (timing (Fixtures.profileWith "Authorization"))) with 1100.
  rewrite andb_false_r. Rdecide.
  change (negb false && negb (("Bearer " ++ Fixtures.token) =? "")%string &&
          Js.includes (default "" (Some ("Bearer " ++ Fixtures.token)%string))
            (Js.substring0 20 Fixtures.token)) with true.
  reflexivity.
Qed.

End auth_flow_facts.

(** C8.  Every later request whose [Authorization] header, under any
    capitalization of its name, contains the token prefix should be a
    dependent of the auth-flow chain.  The code reads the header under the
    two spellings [Authorization] and [authorization] only: whatever
    [JSON.parse] returns for the login body, a dependent that names the
    header [AUTHORIZATION] is not found, and no chain is emitted. *)
Theorem auth_flow_misses_uppercase_header (JSON_parse : string -> option JsonValue) :
  Correlator.detectAuthFlow JSON_parse
    [Fixtures.authLogin; Fixtures.profileWith "AUTHORIZATION"] = None.
Proof.
  unfold Correlator.detectAuthFlow.
  change (List.filter Correlator.isAuthPost
            [Fixtures.authLogin; Fixtures.profileWith "AUTHORIZATION"])
    with [Fixtures.authLogin].
  cbn [Correlator.authFlowFrom].
  change ((status Fixtures.authLogin <? 200)%Z || (300 <=? status Fixtures.authLogin)%Z)
    with false.
  change (negb (Js.truthy (responseBody Fixtures.authLogin))) with false.
  cbn match.
  destruct (JSON_parse _) as [body|]; [|reflexivity].
  destruct (Correlator.tokenValue body) as [[[]|]|]; try reflexivity.
  destruct (String.eqb s ""); [reflexivity|].
  rewrite uppercase_header_not_found. reflexivity.
Qed.

(** ** Attribution *)

Section attribution_facts.
#[local] Open Scope R_scope.
Import Correlator.

(** The score of a click for a fetch that starts with it, when no text
    pattern applies and the URL is not a background URL. *)
Lemma computeScore_click_fetch a r :
  action_type a = click -> resourceType r = fetch ->
  startTime (timing r) = action_timestamp a ->
  patternBonus (Js.toLowerCase (targetDescription a)) (Js.toLowerCase (url r))
    (method r) patterns = 0 ->
  isLikelyBackground r = false ->
  computeScore a r = 0.5.
Proof.
  intros Ha Hr Ht Hp Hb. unfold computeScore, semanticScore.
  rewrite Ha, Hr, Ht, Hp, Hb.
  replace (action_timestamp a - action_timestamp a) with 0 by lra.
  rewrite proximity_zero. rewrite clamp_id; lra.
Qed.

End attribution_facts.

Ltac scoreClickFetch :=
  rewrite computeScore_click_fetch by (reflexivity || (jsEval; lra)).

Ltac jsRunScores :=
  repeat (jsEval; progress (Rdecide; repeat scoreClickFetch; Rdecide)); jsEval.


Section correlate_loops.
#[local] Open Scope R_scope.
Import Correlator.

(** The iterations of the loops of [correlateAll] and [correlateAction]. *)
Lemma correlateAllStep_match c all results i request m :
  all !! i = Some request ->
  Js.truthy (correlatedActionId request) = false ->
  correlateRequest c request all = Some m ->
  correlateAllStep c (all, results) i
  = (<[i := set_correlation (action_id (match_action m).2) (match_confidence m)
              (match_method m) request]> all,
     let results' :=
       if JsMap.has (action_id (match_action m).2) results then results
       else JsMap.set (action_id (match_action m).2) (match_action m, []) results in
     match JsMap.get (action_id (match_action m).2) results' with
     | Some (action, positions) =>
         JsMap.set (action_id (match_action m).2) (action, (positions ++ [i])%list) results'
     | None => results'
     end).
Proof. intros Hi Ht Hm. unfold correlateAllStep. rewrite Hi, Ht, Hm. reflexivity. Qed.

Lemma correlateActionStep_match c actionId all correlated total i request m :
  all !! i = Some request ->
  correlateRequest c request all = Some m ->
  action_id (match_action m).2 = actionId ->
  correlateActionStep c actionId (all, correlated, total) i
  = (<[i := set_correlation actionId (match_confidence m) (match_method m) request]> all,
     (correlated ++ [i])%list, total + match_confidence m).
Proof.
  intros Hi Hm Ha. unfold correlateActionStep. rewrite Hi, Hm, Ha, String.eqb_refl.
  reflexivity.
Qed.

Lemma preflight_first_by_timing :
  correlateRequest Fixtures.twoClicks Fixtures.corsPreflight
    [Fixtures.corsPreflight; Fixtures.corsActual]
  = Some (mkMatch (0%nat, Fixtures.firstClick) 0.5 timing_semantic).
Proof. jsRunScores. reflexivity. Qed.

Lemma actual_by_timing :
  correlateRequest Fixtures.twoClicks Fixtures.corsActual
    [Fixtures.preflightByTiming; Fixtures.corsActual]
  = Some (mkMatch (1%nat, Fixtures.secondClick) 0.5 timing_semantic).
Proof. jsRunScores. reflexivity. Qed.

Lemma correlateAll_two_clicks JSON_parse :
  (correlateAll JSON_parse Fixtures.twoClicks
     [Fixtures.corsPreflight; Fixtures.corsActual]).1
  = (Fixtures.twoClicksCorrelated,
     [Fixtures.preflightByTiming; Fixtures.actualByTiming]).
Proof.
  unfold correlateAll.
  change (length [Fixtures.corsPreflight; Fixtures.corsActual]) with 2%nat.
  cbn [seq fold_left].
  rewrite (correlateAllStep_match Fixtures.twoClicks
             [Fixtures.corsPreflight; Fixtures.corsActual] [] 0
             Fixtures.corsPreflight _ eq_refl eq_refl preflight_first_by_timing).
  cbn [match_action match_confidence match_method snd].
  change (action_id Fixtures.firstClick) with "action_1".
  change (<[0%nat := set_correlation "action_1" 0.5 timing_semantic
                       Fixtures.corsPreflight]>
            [Fixtures.corsPreflight; Fixtures.corsActual])
    with [Fixtures.preflightByTiming; Fixtures.corsActual].
  cbn [JsMap.has JsMap.get JsMap.set String.eqb Ascii.eqb Bool.eqb app].
  rewrite (correlateAllStep_match Fixtures.twoClicks
             [Fixtures.preflightByTiming; Fixtures.corsActual] _ 1
             Fixtures.corsActual _ eq_refl eq_refl actual_by_timing).
  jsRun. reflexivity.
Qed.

Lemma preflight_then_by_chain :
  correlateRequest Fixtures.twoClicksCorrelated Fixtures.preflightByTiming
    [Fixtures.preflightByTiming; Fixtures.actualByTiming]
  = Some (mkMatch (1%nat, set_resultingRequestIds ["req_actual"] Fixtures.secondClick)
            0.85 chain).
Proof. jsRunScores. reflexivity. Qed.

Lemma actual_again_by_timing :
  correlateRequest Fixtures.twoClicksCorrelated Fixtures.actualByTiming
    [Fixtures.preflightByChain; Fixtures.actualByTiming]
  = Some (mkMatch (1%nat, set_resultingRequestIds ["req_actual"] Fixtures.secondClick)
            0.5 timing_semantic).
Proof. jsRunScores. reflexivity. Qed.

Lemma correlateAction_second_click JSON_parse :
  (correlateAction JSON_parse Fixtures.twoClicksCorrelated "action_2"
     [Fixtures.preflightByTiming; Fixtures.actualByTiming]).1.2
  = [Fixtures.preflightByChain; Fixtures.actualByTiming].
Proof.
  unfold correlateAction.
  change (getAction "action_2" Fixtures.twoClicksCorrelated)
    with (Some (1%nat, set_resultingRequestIds ["req_actual"] Fixtures.secondClick)).
  change (length [Fixtures.preflightByTiming; Fixtures.actualByTiming]) with 2%nat.
  cbn [seq fold_left].
  rewrite (correlateActionStep_match Fixtures.twoClicksCorrelated "action_2"
             [Fixtures.preflightByTiming; Fixtures.actualByTiming] [] 0 0
             Fixtures.preflightByTiming _ eq_refl preflight_then_by_chain eq_refl).
  cbn [match_action match_confidence match_method snd].
  change (<[0%nat := set_correlation "action_2" 0.85 chain Fixtures.preflightByTiming]>
            [Fixtures.preflightByTiming; Fixtures.actualByTiming])
    with [Fixtures.preflightByChain; Fixtures.actualByTiming].
  rewrite (correlateActionStep_match Fixtures.twoClicksCorrelated "action_2"
             [Fixtures.preflightByChain; Fixtures.actualByTiming] _ _ 1
             Fixtures.actualByTiming _ eq_refl actual_again_by_timing eq_refl).
  reflexivity.
Qed.

End correlate_loops.

(** C9.  Attribution should be set at most once per record.
    [correlateAll] skips a request that is already attributed;
    [correlateAction] lacks that test and assigns the fields whenever its
    action is the best match.  Here [correlateAll] attributes the preflight
    to the first click by timing; the request it belongs to is attributed
    to the second click, so a later [correlateAction] for the second click
    finds the preflight by chain inheritance and overwrites all three
    fields. *)
Theorem correlateAction_overwrites_attribution
    (JSON_parse : string -> option JsonValue) :
  let afterAll :=
    Correlator.correlateAll JSON_parse Fixtures.twoClicks
      [Fixtures.corsPreflight; Fixtures.corsActual] in
  let afterAction :=
    Correlator.correlateAction JSON_parse afterAll.1.1 "action_2" afterAll.1.2 in
  Correlator.attribution <$> afterAll.1.2 !! 0%nat
  = Some (Some "action_1", Some 0.5%R, Some timing_semantic) /\
  Correlator.attribution <$> afterAction.1.2 !! 0%nat
  = Some (Some "action_2", Some 0.85%R, Some chain).
Proof.
  intros afterAll afterAction. unfold afterAction, afterAll.
  rewrite (correlateAll_two_clicks JSON_parse). cbn [fst snd].
  rewrite (correlateAction_second_click JSON_parse).
  split; reflexivity.
Qed.

(** ** Preflight links *)

(** C4, as stated, fails.  Two preflights name the same request [T]: each
    has [preflightFor = T], and [T] can name one of them only.  After all
    three are finalized, [P1.preflightFor = T.id] while
    [T.preflightRequestId] is [P2]. *)
Lemma second_preflight_unlinks_first :
  let s := NetworkCapture.run (NetworkCapture.new NetworkCapture.DEFAULT_OPTIONS)
             Fixtures.twoPreflights in
  (id <$> NetworkCapture.getRequest "P1" s = Some "P1" /\
   id <$> NetworkCapture.getRequest "T" s = Some "T") /\
  preflightFor <$> NetworkCapture.getRequest "P1" s = Some (Some "T") /\
  preflightRequestId <$> NetworkCapture.getRequest "T" s = Some (Some "P2").
Proof. vm_compute. repeat split; reflexivity. Qed.

Section jsmap_more.
Context {V : Type}.
Implicit Types (m : list (string * V)) (k : string) (v : V).

Lemma In_get k v m : In (k, v) m -> exists v', JsMap.get k m = Some v'.
Proof.
  induction m as [|[k' v'] m IH]; cbn; [tauto|].
  destruct (String.eqb_spec k k'); [eauto|].
  intros [[= -> ->]|H]; [congruence | exact (IH H)].
Qed.

Lemma In_set_new k v m : In (k, v) (JsMap.set k v m).
Proof.
  induction m as [|[k' v'] m IH]; cbn; [auto|].
  destruct (String.eqb k k'); cbn; auto.
Qed.

Lemma In_set_old kv k v m : In kv m -> kv.1 <> k -> In kv (JsMap.set k v m).
Proof.
  intros Hin Hne. induction m as [|[k' v'] m IH]; cbn in *; [tauto|].
  destruct (String.eqb_spec k k') as [->|]; cbn.
  - destruct Hin as [<-|Hin]; [cbn in Hne; congruence | auto].
  - destruct Hin as [<-|Hin]; auto.
Qed.

Lemma findFirst_Some (p : V -> bool) m k :
  JsMap.findFirst p m = Some k -> exists v, In (k, v) m /\ p v = true.
Proof.
  induction m as [|[k' v'] m IH]; cbn; [discriminate|].
  destruct (p v') eqn:Hp.
  - intros [= <-]. eauto.
  - intros H. destruct (IH H) as (v & Hin & Hv). eauto.
Qed.

Lemma findFirst_None (p : V -> bool) m k v :
  JsMap.findFirst p m = None -> In (k, v) m -> p v = false.
Proof.
  induction m as [|[k' v'] m IH]; cbn; [tauto|].
  destruct (p v') eqn:Hp; [discriminate|].
  intros H [[= -> ->]|Hin]; [exact Hp | exact (IH H Hin)].
Qed.

End jsmap_more.

Section detectPreflight_facts.
Import NetworkCapture.

Lemma preflightTarget_Some params target :
  preflightTarget params = Some target ->
  String.eqb (init_type (rws_initiator params)) "preflight" &&
  Js.truthy (init_requestId (rws_initiator params)) = true /\
  init_requestId (rws_initiator params) = Some target.
Proof.
  unfold preflightTarget. destruct (_ && _); [auto | discriminate].
Qed.

Lemma preflightTarget_None params :
  preflightTarget params = None ->
  String.eqb (init_type (rws_initiator params)) "preflight" &&
  Js.truthy (init_requestId (rws_initiator params)) = false.
Proof.
  unfold preflightTarget. destruct (_ && _) eqn:E; [|reflexivity].
  apply andb_prop in E as [_ E]. destruct (init_requestId _); [discriminate|].
  discriminate.
Qed.

Lemma isPreflightFor_true s requestId l :
  isPreflightFor s requestId l = true <->
  exists e, heap s !! l = Some e /\ preflightFor (request e) = Some requestId.
Proof.
  unfold isPreflightFor, Js.strict_eq. destruct (heap s !! l) as [e|].
  - destruct (preflightFor (request e)) as [x|] eqn:Hpf.
    + destruct (String.eqb_spec x requestId) as [->|Hne].
      * split; [intros _; exists e; split; [reflexivity | exact Hpf] | reflexivity].
      * split; [discriminate|]. intros (e' & [= <-] & ?). congruence.
    + split; [discriminate|]. intros (e' & [= <-] & ?). congruence.
  - split; [discriminate|]. intros (e' & ? & _). discriminate.
Qed.

Lemma modify_opt_lookup (o : option nat) f s l e :
  heap s !! l = Some e ->
  heap (match o with Some l0 => modify l0 f s | None => s end) !! l
  = Some (if decide (o = Some l) then on_request f e else e).
Proof.
  intros He. destruct o as [l0|].
  - rewrite (modify_lookup l0 f s l e He).
    destruct (decide (l0 = l)), (decide (Some l0 = Some l)); congruence.
  - rewrite He. destruct (decide (None = Some l)); congruence.
Qed.

Lemma modify_opt_control (o : option nat) f s :
  control (match o with Some l0 => modify l0 f s | None => s end) = control s.
Proof. destruct o; reflexivity. Qed.

(** The links after the preflight branch of [detectPreflight]. *)
Lemma detectPreflight_target params s target l e :
  preflightTarget params = Some target ->
  heap s !! l = Some e ->
  exists e',
    heap (detectPreflight params s) !! l = Some e' /\
    id (request e') = id (request e) /\
    preflightFor (request e')
    = (if decide (JsMap.get (rws_requestId params) (pending s) = Some l)
       then Some target else preflightFor (request e)) /\
    preflightRequestId (request e')
    = (if decide (JsMap.get target (pending s) = Some l \/
                  JsMap.get target (requests s) = Some l)
       then Some (rws_requestId params) else preflightRequestId (request e)).
Proof.
  intros Ht He. apply preflightTarget_Some in Ht as [Hc Hid].
  unfold detectPreflight. rewrite Hc, Hid.
  change (default "" (Some target)) with target. cbv zeta.
  set (rid := rws_requestId params).
  set (s1 := match JsMap.get rid (pending s) with
             | Some l0 => modify l0 (set_preflightFor (Some target)) s
             | None => s
             end).
  destruct (control_inv _ _ (modify_opt_control (JsMap.get rid (pending s))
                               (set_preflightFor (Some target)) s))
    as (Hr1 & _ & _ & _ & _ & Hp1 & _).
  fold s1 in Hr1, Hp1.
  pose proof (modify_opt_lookup (JsMap.get rid (pending s))
                (set_preflightFor (Some target)) s l e He) as H1.
  fold s1 in H1. rewrite Hp1.
  set (s2 := match JsMap.get target (pending s) with
             | Some l0 => modify l0 (set_preflightRequestId (Some rid)) s1
             | None => s1
             end).
  destruct (control_inv _ _ (modify_opt_control (JsMap.get target (pending s))
                               (set_preflightRequestId (Some rid)) s1))
    as (Hr2 & _).
  fold s2 in Hr2.
  pose proof (modify_opt_lookup (JsMap.get target (pending s))
                (set_preflightRequestId (Some rid)) s1 l _ H1) as H2.
  fold s2 in H2. rewrite Hr2, Hr1.
  rewrite (modify_opt_lookup (JsMap.get target (requests s))
             (set_preflightRequestId (Some rid)) s2 l _ H2).
  eexists. split; [reflexivity|].
  repeat case_decide; cbn; repeat split; try reflexivity;
    exfalso; intuition congruence.
Qed.

Lemma isPreflightFor_modify l0 v s requestId l :
  isPreflightFor (modify l0 (set_preflightRequestId v) s) requestId l
  = isPreflightFor s requestId l.
Proof.
  unfold isPreflightFor.
  destruct (heap s !! l) as [e|] eqn:He.
  - rewrite (modify_lookup l0 _ s l e He). destruct (decide (l0 = l)); reflexivity.
  - rewrite (modify_lookup_None l0 _ s l He). reflexivity.
Qed.

Lemma findFirst_ext {V} (p q : V -> bool) (m : list (string * V)) :
  (forall v, p v = q v) -> JsMap.findFirst p m = JsMap.findFirst q m.
Proof.
  intros H. induction m as [|[k v] m IH]; cbn; [reflexivity|].
  rewrite H, IH. reflexivity.
Qed.

(** The links after the other branch: only the new request can change, and
    it gets the ID of a preflight found waiting for it. *)
Lemma detectPreflight_plain params s l e :
  preflightTarget params = None ->
  heap s !! l = Some e ->
  exists e',
    heap (detectPreflight params s) !! l = Some e' /\
    id (request e') = id (request e) /\
    preflightFor (request e') = preflightFor (request e) /\
    preflightRequestId (request e')
    = (if decide (JsMap.get (rws_requestId params) (pending s) = Some l)
       then backfilled s (rws_requestId params) (preflightRequestId (request e))
       else preflightRequestId (request e)).
Proof.
  intros Ht He. apply preflightTarget_None in Ht.
  unfold detectPreflight, backfilled. rewrite Ht. cbv zeta.
  set (rid := rws_requestId params).
  destruct (JsMap.findFirst (isPreflightFor s rid) (pending s)) as [k1|] eqn:F1.
  - set (s1 := match JsMap.get rid (pending s) with
               | Some l0 => modify l0 (set_preflightRequestId (Some k1)) s
               | None => s
               end).
    destruct (control_inv _ _ (modify_opt_control (JsMap.get rid (pending s))
                                 (set_preflightRequestId (Some k1)) s))
      as (Hr1 & _ & _ & _ & _ & Hp1 & _).
    fold s1 in Hr1, Hp1.
    pose proof (modify_opt_lookup (JsMap.get rid (pending s))
                  (set_preflightRequestId (Some k1)) s l e He) as H1.
    fold s1 in H1.
    assert (Hscan : JsMap.findFirst (isPreflightFor s1 rid) (requests s1)
                    = JsMap.findFirst (isPreflightFor s rid) (requests s)).
    { rewrite Hr1. apply findFirst_ext. intros v. unfold s1.
      destruct (JsMap.get rid (pending s)); [apply isPreflightFor_modify | reflexivity]. }
    rewrite Hscan.
    destruct (JsMap.findFirst (isPreflightFor s rid) (requests s)) as [k2|].
    + rewrite Hp1.
      rewrite (modify_opt_lookup (JsMap.get rid (pending s))
                 (set_preflightRequestId (Some k2)) s1 l _ H1).
      eexists. split; [reflexivity|].
      repeat case_decide; cbn; repeat split; reflexivity.
    + rewrite H1. eexists. split; [reflexivity|].
      repeat case_decide; cbn; repeat split; reflexivity.
  - destruct (JsMap.findFirst (isPreflightFor s rid) (requests s)) as [k2|].
    + rewrite (modify_opt_lookup (JsMap.get rid (pending s))
                 (set_preflightRequestId (Some k2)) s l _ He).
      eexists. split; [reflexivity|].
      repeat case_decide; cbn; repeat split; reflexivity.
    + rewrite He. eexists. split; [reflexivity|].
      repeat case_decide; cbn; repeat split; reflexivity.
Qed.

End detectPreflight_facts.

Section quiet_facts.
Import NetworkCapture.

Lemma links_modify l0 f s l e :
  (forall r, id (f r) = id r /\ preflightFor (f r) = preflightFor r /\
             preflightRequestId (f r) = preflightRequestId r) ->
  heap s !! l = Some e ->
  exists e', heap (modify l0 f s) !! l = Some e' /\ links e' = links e.
Proof.
  intros Hf He. eexists. split; [apply modify_lookup, He|].
  destruct (decide (l0 = l)); [|reflexivity].
  unfold links; cbn. destruct (Hf (request e)) as (-> & -> & ->). reflexivity.
Qed.

Lemma links_shareChain l0 s l e :
  heap s !! l = Some e ->
  exists e', heap (shareChain l0 s) !! l = Some e' /\ links e' = links e.
Proof.
  intros He. eexists. split; [unfold shareChain; cbn; apply alter_lookup, He|].
  destruct (decide (l0 = l)); reflexivity.
Qed.

(** An event that creates no request leaves the links of every entry. *)
Lemma links_quiet s ev l e :
  (forall params, ev = RequestWillBeSent params -> creates s params = false) ->
  heap s !! l = Some e ->
  exists e', heap (step s ev) !! l = Some e' /\ links e' = links e.
Proof.
  intros Hq He. destruct ev as [p|p|p b|p| |k res]; cbn [step].
  - specialize (Hq p eq_refl). unfold creates in Hq.
    unfold handleRequestWillBeSent.
    destruct (shouldExclude s _); [eauto|]. cbn in Hq.
    destruct (computeOffset_frame p s) as (_ & _ & _ & _ & Hp & Hh & _).
    rewrite Hp.
    destruct (rws_redirectResponse p) as [rr|]; [|discriminate].
    destruct (JsMap.get (rws_requestId p) (pending s)) as [l0|]; [|discriminate].
    eexists. split; [cbn; rewrite Hh; apply alter_lookup, He|].
    destruct (decide (l0 = l)); reflexivity.
  - unfold handleResponseReceived.
    destruct (JsMap.get _ _) as [l0|]; [|eauto].
    apply links_modify; [|exact He].
    intros r. cbn. destruct (Js.truthy (rr_type p)); repeat split.
  - destruct (JsMap.get (lf_requestId p) (pending s)) as [l0|] eqn:Hl.
    + rewrite (handleLoadingFinished_heap p b s l0 Hl).
      destruct (links_modify l0
                  (fun r => stampEnd s (lf_timestamp p)
                              (set_responseSize (lf_encodedDataLength p) r)) s l e)
        as (e1 & He1 & Hl1); [intros r; repeat split | exact He |].
      destruct (links_shareChain l0 _ l e1 He1) as (e2 & He2 & Hl2).
      exists e2. split; [exact He2 | congruence].
    + unfold handleLoadingFinished. rewrite Hl. eauto.
  - unfold handleLoadingFailed.
    destruct (JsMap.get (lx_requestId p) (pending s)) as [l0|]; [|eauto].
    rewrite finalizeRequest_heap.
    destruct (links_modify l0
                (fun r =>
                   let r := if (status r =? 0)%Z
                            then set_statusText (lx_errorText p) (set_status 0 r)
                            else r in
                   stampEnd s (lx_timestamp p) r) s l e)
      as (e1 & He1 & Hl1);
      [intros r; cbn; destruct (status r =? 0)%Z; repeat split | exact He |].
    destruct (links_shareChain l0 _ l e1 He1) as (e2 & He2 & Hl2).
    exists e2. split; [exact He2 | congruence].
  - eauto.
  - unfold fetchSettled.
    destruct (fetches s !! k) as [[rid l0]|]; [|eauto].
    rewrite finalizeRequest_heap.
    destruct res as [[[body b64]|]|]; cbn [heap set_fetches]; eauto.
    match goal with
    | |- context [modify l0 ?f ?s0] =>
        destruct (links_modify l0 f s0 l e) as (e' & He' & Hl');
          [intros r; repeat split | exact He |]
    end.
    eauto.
Qed.

Lemma length_quiet s ev :
  (forall params, ev = RequestWillBeSent params -> creates s params = false) ->
  length (heap (step s ev)) = length (heap s).
Proof.
  intros Hq. destruct ev as [p|p|p b|p| |k res]; cbn [step].
  - specialize (Hq p eq_refl). unfold creates in Hq.
    unfold handleRequestWillBeSent.
    destruct (shouldExclude s _); [reflexivity|]. cbn in Hq.
    destruct (computeOffset_frame p s) as (_ & _ & _ & _ & Hp & Hh & _).
    rewrite Hp.
    destruct (rws_redirectResponse p) as [rr|]; [|discriminate].
    destruct (JsMap.get (rws_requestId p) (pending s)) as [l0|]; [|discriminate].
    cbn. rewrite length_alter, Hh. reflexivity.
  - unfold handleResponseReceived. branches; unfold modify; cbn;
      rewrite ?length_alter; reflexivity.
  - destruct (JsMap.get (lf_requestId p) (pending s)) as [l0|] eqn:Hl.
    + rewrite (handleLoadingFinished_heap p b s l0 Hl).
      unfold shareChain, modify; cbn. rewrite !length_alter. reflexivity.
    + unfold handleLoadingFinished. rewrite Hl. reflexivity.
  - unfold handleLoadingFailed. branches; [|reflexivity].
    rewrite finalizeRequest_heap. unfold shareChain, modify; cbn.
    rewrite !length_alter. reflexivity.
  - reflexivity.
  - unfold fetchSettled. destruct (fetches s !! k) as [[rid l]|]; [|reflexivity].
    rewrite finalizeRequest_heap.
    destruct res as [[[body b64]|]|]; unfold modify; cbn;
      rewrite ?length_alter; reflexivity.
Qed.

Lemma fetchesPending_In s rid l :
  fetchesPending s = true -> In (rid, l) (fetches s) -> In (rid, l) (pending s).
Proof.
  unfold fetchesPending. rewrite forallb_forall. intros H Hin.
  specialize (H _ Hin). cbn in H.
  destruct (JsMap.get rid (pending s)) as [l'|] eqn:Hg; [|discriminate].
  apply Nat.eqb_eq in H as ->. exact (get_In _ _ _ Hg).
Qed.

(** An event that creates no request adds nothing to the maps but entries
    that were pending. *)
Lemma reach_quiet s ev k l :
  (forall params, ev = RequestWillBeSent params -> creates s params = false) ->
  fetchesPending s = true ->
  In (k, l) (pending (step s ev)) \/ In (k, l) (requests (step s ev)) ->
  In (k, l) (pending s) \/ In (k, l) (requests s).
Proof.
  intros Hq Hf. destruct ev as [p|p|p b|p| |kf res]; cbn [step].
  - specialize (Hq p eq_refl). unfold creates in Hq.
    unfold handleRequestWillBeSent.
    destruct (shouldExclude s _); [auto|]. cbn in Hq.
    destruct (computeOffset_frame p s) as (Hr & _ & _ & _ & Hp & _).
    rewrite Hp.
    destruct (rws_redirectResponse p) as [rr|]; [|discriminate].
    destruct (JsMap.get (rws_requestId p) (pending s)) as [l0|]; [|discriminate].
    cbn. rewrite Hr, Hp. auto.
  - unfold handleResponseReceived. destruct (JsMap.get _ _); auto.
  - unfold handleLoadingFinished.
    destruct (JsMap.get (lf_requestId p) (pending s)) as [l0|] eqn:Hl; [|auto].
    match goal with |- context [if ?c then _ else _] => destruct c end; [cbn; auto|].
    match goal with
    | |- context [finalizeRequest ?a ?b ?c] =>
        destruct (finalizeRequest_frame a b c) as (_ & _ & _ & _ & _ & Hp')
    end.
    rewrite Hp'. cbn [pending shareChain modify set_heap].
    intros [H|H]; [left; exact (In_delete _ _ _ H)|].
    apply finalizeRequest_requests_In in H as [[= -> ->]|H]; [|auto].
    left. exact (get_In _ _ _ Hl).
  - unfold handleLoadingFailed.
    destruct (JsMap.get (lx_requestId p) (pending s)) as [l0|] eqn:Hl; [|auto].
    match goal with
    | |- context [finalizeRequest ?a ?b ?c] =>
        destruct (finalizeRequest_frame a b c) as (_ & _ & _ & _ & _ & Hp')
    end.
    rewrite Hp'. cbn [pending shareChain modify set_heap].
    intros [H|H]; [left; exact (In_delete _ _ _ H)|].
    apply finalizeRequest_requests_In in H as [[= -> ->]|H]; [|auto].
    left. exact (get_In _ _ _ Hl).
  - cbn. tauto.
  - unfold fetchSettled.
    destruct (fetches s !! kf) as [[rid l0]|] eqn:Hk; [|auto].
    match goal with
    | |- context [finalizeRequest ?a ?b ?c] =>
        destruct (finalizeRequest_frame a b c) as (_ & _ & _ & _ & _ & Hp')
    end.
    rewrite Hp'.
    intros [H|H].
    + left. apply In_delete in H. destruct res as [[[body b64]|]|]; exact H.
    + apply finalizeRequest_requests_In in H as [[= -> ->]|H].
      * left. apply fetchesPending_In; [exact Hf | exact (lookup_In _ _ _ Hk)].
      * right. destruct res as [[[body b64]|]|]; exact H.
Qed.

End quiet_facts.

Section paired_quiet_facts.
Import NetworkCapture.

Lemma links_inv e e' :
  links e' = links e ->
  id (request e') = id (request e) /\
  preflightFor (request e') = preflightFor (request e) /\
  preflightRequestId (request e') = preflightRequestId (request e).
Proof. unfold links. intros [= -> -> ->]. auto. Qed.

Lemma quiet_back s ev l e' :
  (forall params, ev = RequestWillBeSent params -> creates s params = false) ->
  heap (step s ev) !! l = Some e' ->
  exists e, heap s !! l = Some e /\ links e' = links e.
Proof.
  intros Hq He'. pose proof (lookup_lt_Some _ _ _ He') as Hlt.
  rewrite (length_quiet s ev Hq) in Hlt.
  apply lookup_lt_is_Some_2 in Hlt as [e He]. exists e. split; [exact He|].
  destruct (links_quiet s ev l e Hq He) as (e1 & He1 & Hl). congruence.
Qed.

Lemma paired_quiet s ev :
  (forall params, ev = RequestWillBeSent params -> creates s params = false) ->
  fetchesPending s = true ->
  paired s -> paired (step s ev).
Proof.
  intros Hq Hf [Hv Hk Hu Hn Hm Hb Hfo].
  assert (Hreach : forall l, reach (step s ev) l -> reach s l).
  { intros l [k Hin]. exists k. exact (reach_quiet s ev k l Hq Hf Hin). }
  split.
  - apply valid_step, Hv.
  - intros k l e' Hin He'.
    destruct (quiet_back s ev l e' Hq He') as (e & He & Hl).
    apply links_inv in Hl as (-> & _ & _).
    exact (Hk k l e (reach_quiet s ev k l Hq Hf Hin) He).
  - intros l1 l2 e1' e2' H1 H2 Hid.
    destruct (quiet_back s ev l1 e1' Hq H1) as (e1 & He1 & Hl1).
    destruct (quiet_back s ev l2 e2' Hq H2) as (e2 & He2 & Hl2).
    apply links_inv in Hl1 as (Hi1 & _ & _). apply links_inv in Hl2 as (Hi2 & _ & _).
    apply (Hu l1 l2 e1 e2 He1 He2). congruence.
  - intros l e' a He' Ha.
    destruct (quiet_back s ev l e' Hq He') as (e & He & Hl).
    apply links_inv in Hl as (_ & _ & Hp).
    destruct (Hn l e a He ltac:(congruence)) as (l0 & e0 & He0 & Hid0).
    destruct (links_quiet s ev l0 e0 Hq He0) as (e0' & He0' & Hl0).
    apply links_inv in Hl0 as (Hi0 & _ & _).
    exists l0, e0'. split; [exact He0' | congruence].
  - intros l1 l2 e1' e2' target H1 H2 Ht1 Ht2.
    destruct (quiet_back s ev l1 e1' Hq H1) as (e1 & He1 & Hl1).
    destruct (quiet_back s ev l2 e2' Hq H2) as (e2 & He2 & Hl2).
    apply links_inv in Hl1 as (_ & Hf1 & _). apply links_inv in Hl2 as (_ & Hf2 & _).
    apply (Hm l1 l2 e1 e2 target He1 He2); congruence.
  - intros la lb ea' eb' Ha Hb' Hpri.
    destruct (quiet_back s ev la ea' Hq Ha) as (ea & Hea & Hla).
    destruct (quiet_back s ev lb eb' Hq Hb') as (eb & Heb & Hlb).
    apply links_inv in Hla as (Hia & Hfa & _). apply links_inv in Hlb as (Hib & _ & Hpb).
    rewrite Hfa, Hib. apply (Hb la lb ea eb Hea Heb). congruence.
  - intros la lb ea' eb' Hra Hrb Ha Hb' Hpf.
    destruct (quiet_back s ev la ea' Hq Ha) as (ea & Hea & Hla).
    destruct (quiet_back s ev lb eb' Hq Hb') as (eb & Heb & Hlb).
    apply links_inv in Hla as (Hia & Hfa & _). apply links_inv in Hlb as (Hib & _ & Hpb).
    rewrite Hpb, Hia.
    apply (Hfo la lb ea eb (Hreach _ Hra) (Hreach _ Hrb) Hea Heb). congruence.
Qed.

End paired_quiet_facts.

Section paired_create_facts.
Import NetworkCapture.

Lemma knownId_false s a l e :
  knownId s a = false -> heap s !! l = Some e -> id (request e) <> a.
Proof.
  unfold knownId. intros H He Hid.
  assert (Ht : existsb (fun e => String.eqb (id (request e)) a) (heap s) = true).
  { apply existsb_exists. exists e. split; [exact (lookup_In _ _ _ He)|].
    apply String.eqb_eq, Hid. }
  congruence.
Qed.

Lemma namedTarget_false s a l e :
  namedTarget s a = false -> heap s !! l = Some e ->
  preflightFor (request e) <> Some a.
Proof.
  unfold namedTarget. intros H He Hpf.
  assert (Ht : existsb (fun e => Js.strict_eq (preflightFor (request e)) a) (heap s) = true).
  { apply existsb_exists. exists e. split; [exact (lookup_In _ _ _ He)|].
    rewrite Hpf. apply String.eqb_refl. }
  congruence.
Qed.

Lemma create_step s p :
  creates s p = true ->
  step s (RequestWillBeSent p) = detectPreflight p (createRequest p (computeOffset p s)).
Proof.
  unfold creates. intros Hc. apply andb_prop in Hc as [Hx Hr].
  cbn [step]. unfold handleRequestWillBeSent.
  destruct (shouldExclude s _); [discriminate|].
  destruct (computeOffset_frame p s) as (_ & _ & _ & _ & Hp & _).
  rewrite Hp.
  destruct (rws_redirectResponse p) as [rr|]; [|reflexivity].
  destruct (JsMap.get (rws_requestId p) (pending s)); [discriminate | reflexivity].
Qed.

Lemma create_heap_eq s p :
  heap (createRequest p (computeOffset p s))
  = (heap s ++ [newEntry p (computeOffset p s)])%list.
Proof.
  destruct (computeOffset_frame p s) as (_ & _ & _ & _ & _ & Hh & _).
  cbn. rewrite Hh. reflexivity.
Qed.

Lemma create_pending s p :
  pending (createRequest p (computeOffset p s))
  = JsMap.set (rws_requestId p) (length (heap s)) (pending s).
Proof.
  destruct (computeOffset_frame p s) as (_ & _ & _ & _ & Hp & Hh & _).
  cbn. rewrite Hh, Hp. reflexivity.
Qed.

Lemma create_requests s p :
  requests (createRequest p (computeOffset p s)) = requests s.
Proof.
  destruct (computeOffset_frame p s) as (Hr & _). cbn. exact Hr.
Qed.

Lemma create_heap_new s p :
  heap (createRequest p (computeOffset p s)) !! length (heap s)
  = Some (newEntry p (computeOffset p s)).
Proof. rewrite create_heap_eq. apply list_lookup_middle. reflexivity. Qed.

Lemma create_heap_old s p l e :
  heap s !! l = Some e -> heap (createRequest p (computeOffset p s)) !! l = Some e.
Proof. intros He. rewrite create_heap_eq. apply lookup_app_l_Some, He. Qed.

Lemma create_heap s p l e :
  heap (createRequest p (computeOffset p s)) !! l = Some e ->
  (l = length (heap s) /\ e = newEntry p (computeOffset p s)) \/
  (l <> length (heap s) /\ heap s !! l = Some e).
Proof.
  intros He. destruct (decide (l = length (heap s))) as [->|Hne].
  - left. split; [reflexivity|]. rewrite create_heap_new in He. congruence.
  - right. split; [exact Hne|].
    pose proof (lookup_lt_Some _ _ _ He) as Hlt.
    rewrite create_heap_eq, length_app in Hlt. cbn in Hlt.
    assert (Hl : (l < length (heap s))%nat) by lia.
    apply lookup_lt_is_Some_2 in Hl as [e0 He0].
    rewrite (create_heap_old s p l e0 He0) in He. congruence.
Qed.

End paired_create_facts.

Section paired_create_step.
Import NetworkCapture.

Lemma paired_create s p :
  paired s -> creates s p = true ->
  knownId s (rws_requestId p) = false ->
  match preflightTarget p with
  | Some target =>
      namedTarget s target = false /\ namedTarget s (rws_requestId p) = false
  | None => True
  end ->
  paired (step s (RequestWillBeSent p)).
Proof.
  intros HP Hc Hfr Hnt.
  pose proof (valid_step s (RequestWillBeSent p) (paired_valid s HP)) as Hv'.
  rewrite (create_step s p Hc) in *.
  destruct HP as [Hv Hk Hu Hn Hm Hb Hfo].
  pose proof (create_pending s p) as Hp2.
  pose proof (create_requests s p) as Hr2.
  pose proof (create_heap_new s p) as Hnew.
  pose proof (create_heap_old s p) as Hold.
  pose proof (create_heap s p) as Hcase.
  set (n := rws_requestId p) in *.
  set (ln := length (heap s)) in *.
  set (s2 := createRequest p (computeOffset p s)) in *.
  set (en := newEntry p (computeOffset p s)) in *.
  assert (Hen : id (request en) = n /\ preflightFor (request en) = None /\
                preflightRequestId (request en) = None) by (repeat split).
  destruct Hen as (Hen1 & Hen2 & Hen3).
  clearbody en.
  assert (Hfresh : forall l e, heap s !! l = Some e -> id (request e) <> n)
    by (intros l e; apply knownId_false, Hfr).
  destruct (control_inv _ _ (detectPreflight_control p s2)) as (Hr' & _ & _ & _ & _ & Hp' & _).
  pose proof (detectPreflight_length p s2) as Hlen'.
  destruct Hv as (Hvp & Hvr & Hvf).
  assert (Hin2 : forall k l, In (k, l) (pending s2) \/ In (k, l) (requests s2) ->
            (k = n /\ l = ln) \/
            (l <> ln /\ (In (k, l) (pending s) \/ In (k, l) (requests s)))).
  { intros k l [H|H].
    - rewrite Hp2 in H. apply In_set in H as [[= -> ->]|H]; [left; auto|].
      right. pose proof (locsBelow_In _ _ _ _ Hvp H). split; [unfold ln; lia | auto].
    - rewrite Hr2 in H.
      right. pose proof (locsBelow_In _ _ _ _ Hvr H). split; [unfold ln; lia | auto]. }
  assert (Hreach2 : forall l, l <> ln -> reach (detectPreflight p s2) l -> reach s l).
  { intros l Hne [k Hin]. rewrite Hp', Hr' in Hin.
    destruct (Hin2 k l Hin) as [[_ ?]|[_ ?]]; [contradiction|]. exists k. assumption. }
  assert (Hk2 : forall k l e2, In (k, l) (pending s2) \/ In (k, l) (requests s2) ->
            heap s2 !! l = Some e2 -> id (request e2) = k).
  { intros k l e2 Hin He2. destruct (Hin2 k l Hin) as [[-> ->]|[Hne Hin']].
    - rewrite Hnew in He2. congruence.
    - destruct (Hcase l e2 He2) as [[? _]|[_ He]]; [contradiction|].
      exact (Hk k l e2 Hin' He). }
  assert (Hu2 : forall l1 l2 e1 e2, heap s2 !! l1 = Some e1 -> heap s2 !! l2 = Some e2 ->
            id (request e1) = id (request e2) -> l1 = l2).
  { intros l1 l2 e1 e2 H1 H2 Hid.
    destruct (Hcase l1 e1 H1) as [[-> ->]|[Hn1 He1]],
             (Hcase l2 e2 H2) as [[-> ->]|[Hn2 He2]].
    - reflexivity.
    - exfalso. apply (Hfresh l2 e2 He2). congruence.
    - exfalso. apply (Hfresh l1 e1 He1). congruence.
    - exact (Hu l1 l2 e1 e2 He1 He2 Hid). }
  assert (Hcell2 : forall k l, In (k, l) (pending s2) \/ In (k, l) (requests s2) ->
            exists e2, heap s2 !! l = Some e2).
  { intros k l Hin. destruct (Hin2 k l Hin) as [[-> ->]|[Hne [H|H]]].
    - eauto.
    - pose proof (locsBelow_In _ _ _ _ Hvp H) as Hlt.
      apply lookup_lt_is_Some_2 in Hlt as [e He]. eauto.
    - pose proof (locsBelow_In _ _ _ _ Hvr H) as Hlt.
      apply lookup_lt_is_Some_2 in Hlt as [e He]. eauto. }
  assert (Hgetn : forall l, JsMap.get n (pending s2) = Some l <-> l = ln).
  { intros l. rewrite Hp2, get_set_eq. split; congruence. }
  destruct (preflightTarget p) as [t|] eqn:Ht.
  - destruct Hnt as [Hnt Hnn].
    pose proof (fun l e => namedTarget_false s t l e Hnt) as Hnt'.
    pose proof (fun l e => namedTarget_false s n l e Hnn) as Hnn'.
    set (T := fun l => JsMap.get t (pending s2) = Some l \/
                       JsMap.get t (requests s2) = Some l).
    assert (Hspec : forall l e2, heap s2 !! l = Some e2 ->
              exists e', heap (detectPreflight p s2) !! l = Some e' /\
                id (request e') = id (request e2) /\
                preflightFor (request e')
                = (if decide (l = ln) then Some t else preflightFor (request e2)) /\
                preflightRequestId (request e')
                = (if decide (T l) then Some n else preflightRequestId (request e2))).
    { intros l e2 He2.
      destruct (detectPreflight_target p s2 t l e2 Ht He2) as (e' & He' & Hi & Hf & Hq).
      exists e'. split; [exact He'|]. split; [exact Hi|]. split; [|exact Hq].
      rewrite Hf. fold n. 
      destruct (decide (JsMap.get n (pending s2) = Some l)) as [E|E], (decide (l = ln)) as [E'|E'];
        try reflexivity; exfalso; apply Hgetn in E || (apply E, Hgetn, E'); contradiction. }
    assert (Hback : forall l e', heap (detectPreflight p s2) !! l = Some e' ->
              exists e2, heap s2 !! l = Some e2 /\
                id (request e') = id (request e2) /\
                preflightFor (request e')
                = (if decide (l = ln) then Some t else preflightFor (request e2)) /\
                preflightRequestId (request e')
                = (if decide (T l) then Some n else preflightRequestId (request e2))).
    { intros l e' He'. pose proof (lookup_lt_Some _ _ _ He') as Hlt. rewrite Hlen' in Hlt.
      apply lookup_lt_is_Some_2 in Hlt as [e2 He2]. exists e2. split; [exact He2|].
      destruct (Hspec l e2 He2) as (e'' & He'' & H). congruence. }
    assert (HT1 : forall l e2, T l -> heap s2 !! l = Some e2 -> id (request e2) = t).
    { intros l e2 [H|H] He2; apply get_In in H; eapply Hk2; eauto. }
    assert (HT2 : forall l e2, In (t, l) (pending s2) \/ In (t, l) (requests s2) ->
              heap s2 !! l = Some e2 -> T l).
    { intros l e2 Hin He2.
      assert (Hsame : forall l0, In (t, l0) (pending s2) \/ In (t, l0) (requests s2) -> l0 = l).
      { intros l0 Hin0. destruct (Hcell2 t l0 Hin0) as [e0 He0].
        apply (Hu2 l0 l e0 e2 He0 He2).
        rewrite (Hk2 t l0 e0 Hin0 He0), (Hk2 t l e2 Hin He2). reflexivity. }
      destruct Hin as [Hin|Hin].
      - destruct (In_get _ _ _ Hin) as [l0 Hg]. left.
        rewrite Hg. f_equal. apply Hsame. left. exact (get_In _ _ _ Hg).
      - destruct (In_get _ _ _ Hin) as [l0 Hg]. right.
        rewrite Hg. f_equal. apply Hsame. right. exact (get_In _ _ _ Hg). }
    split.
    + exact Hv'.
    + intros k l e' Hin He'. rewrite Hp', Hr' in Hin.
      destruct (Hback l e' He') as (e2 & He2 & -> & _). exact (Hk2 k l e2 Hin He2).
    + intros l1 l2 e1' e2' H1 H2 Hid.
      destruct (Hback l1 e1' H1) as (e1 & He1 & Hi1 & _).
      destruct (Hback l2 e2' H2) as (e2 & He2 & Hi2 & _).
      apply (Hu2 l1 l2 e1 e2 He1 He2). congruence.
    + intros l e' a He' Ha.
      destruct (Hback l e' He') as (e2 & He2 & _ & _ & Hq). rewrite Hq in Ha.
      destruct (decide (T l)) as [HT|HT].
      * injection Ha as <-.
        destruct (Hspec ln en Hnew) as (e'' & He'' & Hi & _).
        exists ln, e''. split; [exact He'' | congruence].
      * destruct (Hcase l e2 He2) as [[-> ->]|[Hne He]]; [congruence|].
        destruct (Hn l e2 a He Ha) as (l0 & e0 & He0 & Hid0).
        destruct (Hspec l0 e0 (Hold _ _ He0)) as (e'' & He'' & Hi & _).
        exists l0, e''. split; [exact He'' | congruence].
    + intros l1 l2 e1' e2' x H1 H2 Hx1 Hx2.
      destruct (Hback l1 e1' H1) as (e1 & He1 & _ & Hf1 & _).
      destruct (Hback l2 e2' H2) as (e2 & He2 & _ & Hf2 & _).
      rewrite Hf1 in Hx1. rewrite Hf2 in Hx2.
      destruct (decide (l1 = ln)) as [->|N1], (decide (l2 = ln)) as [->|N2].
      * reflexivity.
      * exfalso. destruct (Hcase l2 e2 He2) as [[? _]|[_ He]]; [contradiction|].
        apply (Hnt' l2 e2 He). congruence.
      * exfalso. destruct (Hcase l1 e1 He1) as [[? _]|[_ He]]; [contradiction|].
        apply (Hnt' l1 e1 He). congruence.
      * destruct (Hcase l1 e1 He1) as [[? _]|[_ He1']]; [contradiction|].
        destruct (Hcase l2 e2 He2) as [[? _]|[_ He2']]; [contradiction|].
        exact (Hm l1 l2 e1 e2 x He1' He2' Hx1 Hx2).
    + intros la lb ea' eb' Ha Hb' Hpri.
      destruct (Hback la ea' Ha) as (ea & Hea & Hia & Hfa & _).
      destruct (Hback lb eb' Hb') as (eb & Heb & Hib & _ & Hqb).
      rewrite Hqb in Hpri. rewrite Hfa, Hib.
      destruct (decide (T lb)) as [HT|HT].
      * injection Hpri as Hpri.
        destruct (Hcase la ea Hea) as [[-> ->]|[Hne He]].
        -- rewrite decide_True by reflexivity. rewrite (HT1 lb eb HT Heb). reflexivity.
        -- exfalso. apply (Hfresh la ea He). congruence.
      * destruct (Hcase lb eb Heb) as [[-> ->]|[Hnb Heb']]; [congruence|].
        destruct (Hcase la ea Hea) as [[-> ->]|[Hna Hea']].
        -- exfalso. destruct (Hn lb eb _ Heb' Hpri) as (l0 & e0 & He0 & Hid0).
           apply (Hfresh l0 e0 He0). congruence.
        -- rewrite decide_False by exact Hna.
           apply (Hb la lb ea eb Hea' Heb'). congruence.
    + intros la lb ea' eb' Hra Hrb Ha Hb' Hpf.
      destruct (Hback la ea' Ha) as (ea & Hea & Hia & Hfa & _).
      destruct (Hback lb eb' Hb') as (eb & Heb & Hib & _ & Hqb).
      rewrite Hfa in Hpf. rewrite Hqb, Hia.
      destruct (decide (la = ln)) as [->|Hna].
      * injection Hpf as Hpf.
        assert (HT : T lb).
        { destruct Hrb as [k Hin]. rewrite Hp', Hr' in Hin.
          pose proof (Hk2 k lb eb Hin Heb) as Hkk.
          apply (HT2 lb eb); [|exact Heb].
          replace t with k by congruence. exact Hin. }
        rewrite decide_True by exact HT.
        rewrite Hnew in Hea. injection Hea as <-. congruence.
      * destruct (Hcase la ea Hea) as [[? _]|[_ Hea']]; [contradiction|].
        destruct (Hcase lb eb Heb) as [[-> ->]|[Hnb Heb']].
        -- exfalso. apply (Hnn' la ea Hea'). congruence.
        -- rewrite decide_False.
           ++ apply (Hfo la lb ea eb (Hreach2 la Hna Hra) (Hreach2 lb Hnb Hrb) Hea' Heb').
              congruence.
           ++ intros HT. apply (Hnt' la ea Hea'). rewrite Hpf, Hib.
              f_equal. exact (HT1 lb eb HT Heb).
  - clear Hnt.
    assert (Hspec : forall l e2, heap s2 !! l = Some e2 ->
              exists e', heap (detectPreflight p s2) !! l = Some e' /\
                id (request e') = id (request e2) /\
                preflightFor (request e') = preflightFor (request e2) /\
                preflightRequestId (request e')
                = (if decide (l = ln)
                   then backfilled s2 n (preflightRequestId (request e2))
                   else preflightRequestId (request e2))).
    { intros l e2 He2.
      destruct (detectPreflight_plain p s2 l e2 Ht He2) as (e' & He' & Hi & Hf & Hq).
      exists e'. split; [exact He'|]. split; [exact Hi|]. split; [exact Hf|].
      rewrite Hq. fold n.
      destruct (decide (JsMap.get n (pending s2) = Some l)) as [E|E], (decide (l = ln)) as [E'|E'];
        try reflexivity; exfalso; apply Hgetn in E || (apply E, Hgetn, E'); contradiction. }
    assert (Hback : forall l e', heap (detectPreflight p s2) !! l = Some e' ->
              exists e2, heap s2 !! l = Some e2 /\
                id (request e') = id (request e2) /\
                preflightFor (request e') = preflightFor (request e2) /\
                preflightRequestId (request e')
                = (if decide (l = ln)
                   then backfilled s2 n (preflightRequestId (request e2))
                   else preflightRequestId (request e2))).
    { intros l e' He'. pose proof (lookup_lt_Some _ _ _ He') as Hlt. rewrite Hlen' in Hlt.
      apply lookup_lt_is_Some_2 in Hlt as [e2 He2]. exists e2. split; [exact He2|].
      destruct (Hspec l e2 He2) as (e'' & He'' & H). congruence. }
    assert (Hfound : forall k v, In (k, v) (pending s2) \/ In (k, v) (requests s2) ->
              isPreflightFor s2 n v = true ->
              exists e, heap s !! v = Some e /\ preflightFor (request e) = Some n /\
                        id (request e) = k).
    { intros k v Hin Hpv. apply isPreflightFor_true in Hpv as (e & He & Hpf).
      destruct (Hcase v e He) as [[-> ->]|[Hne He0]]; [congruence|].
      exists e. split; [exact He0|]. split; [exact Hpf|]. exact (Hk2 k v e Hin He). }
    assert (HB1 : forall k, backfilled s2 n None = Some k ->
              exists lx ex, heap s !! lx = Some ex /\
                preflightFor (request ex) = Some n /\ id (request ex) = k).
    { intros k. unfold backfilled.
      destruct (JsMap.findFirst _ (requests s2)) as [k1|] eqn:F1.
      - intros [= <-]. apply findFirst_Some in F1 as (v & Hin & Hpv).
        destruct (Hfound k1 v (or_intror Hin) Hpv) as (e & H). eauto.
      - destruct (JsMap.findFirst _ (pending s2)) as [k2|] eqn:F2; [|discriminate].
        intros [= <-]. apply findFirst_Some in F2 as (v & Hin & Hpv).
        destruct (Hfound k2 v (or_introl Hin) Hpv) as (e & H). eauto. }
    assert (HB2 : forall la ea, reach s la -> heap s !! la = Some ea ->
              preflightFor (request ea) = Some n ->
              backfilled s2 n None = Some (id (request ea))).
    { intros la ea [k Hra] Hea Hpf.
      assert (Hpa : isPreflightFor s2 n la = true).
      { apply isPreflightFor_true. exists ea. split; [exact (Hold _ _ Hea) | exact Hpf]. }
      assert (Hone : forall k' v, In (k', v) (pending s2) \/ In (k', v) (requests s2) ->
                isPreflightFor s2 n v = true -> k' = id (request ea)).
      { intros k' v Hin Hpv. destruct (Hfound k' v Hin Hpv) as (e & He & Hpe & <-).
        assert (v = la) by exact (Hm v la e ea n He Hea Hpe Hpf). subst v. congruence. }
      unfold backfilled.
      destruct (JsMap.findFirst _ (requests s2)) as [k1|] eqn:F1.
      - apply findFirst_Some in F1 as (v & Hin & Hpv).
        f_equal. exact (Hone k1 v (or_intror Hin) Hpv).
      - destruct (JsMap.findFirst _ (pending s2)) as [k2|] eqn:F2.
        + apply findFirst_Some in F2 as (v & Hin & Hpv).
          f_equal. exact (Hone k2 v (or_introl Hin) Hpv).
        + exfalso. destruct Hra as [Hra|Hra].
          * assert (Hin : In (k, la) (pending s2)).
            { rewrite Hp2. apply (In_set_old (k, la)); [exact Hra|]. cbn.
              rewrite <- (Hk k la ea (or_introl Hra) Hea). exact (Hfresh la ea Hea). }
            pose proof (findFirst_None _ _ _ _ F2 Hin). congruence.
          * rewrite <- Hr2 in Hra.
            pose proof (findFirst_None _ _ _ _ F1 Hra). congruence. }
    split.
    + exact Hv'.
    + intros k l e' Hin He'. rewrite Hp', Hr' in Hin.
      destruct (Hback l e' He') as (e2 & He2 & -> & _). exact (Hk2 k l e2 Hin He2).
    + intros l1 l2 e1' e2' H1 H2 Hid.
      destruct (Hback l1 e1' H1) as (e1 & He1 & Hi1 & _).
      destruct (Hback l2 e2' H2) as (e2 & He2 & Hi2 & _).
      apply (Hu2 l1 l2 e1 e2 He1 He2). congruence.
    + intros l e' a He' Ha.
      destruct (Hback l e' He') as (e2 & He2 & _ & _ & Hq). rewrite Hq in Ha.
      assert (Hlift : forall l0 e0, heap s !! l0 = Some e0 -> id (request e0) = a ->
                exists l' e'', heap (detectPreflight p s2) !! l' = Some e'' /\
                               id (request e'') = a).
      { intros l0 e0 He0 Hid0.
        destruct (Hspec l0 e0 (Hold _ _ He0)) as (e'' & He'' & Hi & _).
        exists l0, e''. split; [exact He'' | congruence]. }
      destruct (Hcase l e2 He2) as [[-> ->]|[Hne He]].
      * rewrite decide_True in Ha by reflexivity. rewrite Hen3 in Ha.
        destruct (HB1 a Ha) as (lx & ex & Hex & _ & Hid). exact (Hlift lx ex Hex Hid).
      * rewrite decide_False in Ha by exact Hne.
        destruct (Hn l e2 a He Ha) as (l0 & e0 & He0 & Hid0). exact (Hlift l0 e0 He0 Hid0).
    + intros l1 l2 e1' e2' x H1 H2 Hx1 Hx2.
      destruct (Hback l1 e1' H1) as (e1 & He1 & _ & Hf1 & _).
      destruct (Hback l2 e2' H2) as (e2 & He2 & _ & Hf2 & _).
      rewrite Hf1 in Hx1. rewrite Hf2 in Hx2.
      destruct (Hcase l1 e1 He1) as [[-> ->]|[_ He1']]; [congruence|].
      destruct (Hcase l2 e2 He2) as [[-> ->]|[_ He2']]; [congruence|].
      exact (Hm l1 l2 e1 e2 x He1' He2' Hx1 Hx2).
    + intros la lb ea' eb' Ha Hb' Hpri.
      destruct (Hback la ea' Ha) as (ea & Hea & Hia & Hfa & _).
      destruct (Hback lb eb' Hb') as (eb & Heb & Hib & _ & Hqb).
      rewrite Hqb in Hpri. rewrite Hfa, Hib.
      destruct (Hcase lb eb Heb) as [[-> ->]|[Hnb Heb']].
      * rewrite decide_True in Hpri by reflexivity. rewrite Hen3 in Hpri.
        destruct (HB1 _ Hpri) as (lx & ex & Hex & Hpx & Hid).
        assert (lx = la).
        { apply (Hu2 lx la ex ea (Hold _ _ Hex) Hea). congruence. }
        subst lx. rewrite (Hold _ _ Hex) in Hea. injection Hea as <-. congruence.
      * rewrite decide_False in Hpri by exact Hnb.
        destruct (Hcase la ea Hea) as [[-> ->]|[Hna Hea']].
        -- exfalso. destruct (Hn lb eb _ Heb' Hpri) as (l0 & e0 & He0 & Hid0).
           apply (Hfresh l0 e0 He0). congruence.
        -- apply (Hb la lb ea eb Hea' Heb'). congruence.
    + intros la lb ea' eb' Hra Hrb Ha Hb' Hpf.
      destruct (Hback la ea' Ha) as (ea & Hea & Hia & Hfa & _).
      destruct (Hback lb eb' Hb') as (eb & Heb & Hib & _ & Hqb).
      rewrite Hfa in Hpf. rewrite Hqb, Hia.
      destruct (Hcase la ea Hea) as [[-> ->]|[Hna Hea']]; [congruence|].
      destruct (Hcase lb eb Heb) as [[-> ->]|[Hnb Heb']].
      * rewrite decide_True by reflexivity. rewrite Hen3.
        apply (HB2 la ea (Hreach2 la Hna Hra) Hea'). congruence.
      * rewrite decide_False by exact Hnb.
        apply (Hfo la lb ea eb (Hreach2 la Hna Hra) (Hreach2 lb Hnb Hrb) Hea' Heb').
        congruence.
Qed.


Lemma paired_new o : paired (new o).
Proof.
  split.
  - apply valid_new.
  - intros k l e _ He. cbn in He. rewrite lookup_nil in He. discriminate.
  - intros l1 l2 e1 e2 He. cbn in He. rewrite lookup_nil in He. discriminate.
  - intros l e a He. cbn in He. rewrite lookup_nil in He. discriminate.
  - intros l1 l2 e1 e2 x He. cbn in He. rewrite lookup_nil in He. discriminate.
  - intros la lb ea eb He. cbn in He. rewrite lookup_nil in He. discriminate.
  - intros la lb ea eb _ _ He. cbn in He. rewrite lookup_nil in He. discriminate.
Qed.

Lemma paired_step s ev :
  paired s -> fetchesPending s = true -> orderlyEvent s ev = true ->
  paired (step s ev) /\ fetchesPending (step s ev) = true.
Proof.
  intros HP Hf Ho. unfold orderlyEvent in Ho. apply andb_prop in Ho as [Ho Hf'].
  split; [|exact Hf'].
  destruct ev as [p|p|p b|p| |k res];
    try (apply paired_quiet; [discriminate | exact Hf | exact HP]).
  destruct (creates s p) eqn:Hc.
  - apply andb_prop in Ho as [Hfr Ht]. apply negb_true_iff in Hfr.
    apply paired_create; [exact HP | exact Hc | exact Hfr |].
    destruct (preflightTarget p); [|exact I].
    apply andb_prop in Ht as [H1 H2].
    split; apply negb_true_iff; assumption.
  - apply paired_quiet; [|exact Hf | exact HP].
    intros params [= <-]. exact Hc.
Qed.

Lemma paired_run es s :
  paired s -> fetchesPending s = true -> orderly s es = true -> paired (run s es).
Proof.
  revert s. induction es as [|e es IH]; intros s HP Hf Ho; [exact HP|].
  cbn [orderly] in Ho. apply andb_prop in Ho as [Ho Hos].
  destruct (paired_step s e HP Hf Ho) as [HP' Hf'].
  rewrite run_cons. exact (IH _ HP' Hf' Hos).
Qed.

Lemma getRequest_Some requestId s r :
  getRequest requestId s = Some r ->
  exists l e, In (requestId, l) (requests s) /\ heap s !! l = Some e /\
    id r = id (request e) /\ preflightFor r = preflightFor (request e) /\
    preflightRequestId r = preflightRequestId (request e).
Proof.
  unfold getRequest. destruct (JsMap.get requestId (requests s)) as [l|] eqn:Hl; [|discriminate].
  destruct (heap s !! l) as [e|] eqn:He; [|discriminate].
  cbn. intros [= <-]. exists l, e. split; [exact (get_In _ _ _ Hl)|].
  split; [exact He|]. unfold captured. destruct (chain_shared e); repeat split.
Qed.

End paired_create_step.

(** C4, amended.  For an orderly event sequence -- every new request has
    an ID that no earlier request had, no two preflights name the same
    target, no preflight is named as a target before it arrives, and no
    body fetch outlives its pending entry -- any two finalized records [a]
    and [b] of the store agree on their links: [a.preflightFor = b.id] if
    and only if [b.preflightRequestId = a.id].  The order in which a
    preflight and its request arrive and finish is free. *)
Theorem preflight_links_consistent
    (o : NetworkCapture.Options) (es : list NetworkCapture.Event)
    (ka kb : string) (a b : CapturedRequest) :
  NetworkCapture.orderly (NetworkCapture.new o) es = true ->
  NetworkCapture.getRequest ka (NetworkCapture.run (NetworkCapture.new o) es) = Some a ->
  NetworkCapture.getRequest kb (NetworkCapture.run (NetworkCapture.new o) es) = Some b ->
  preflightFor a = Some (id b) <-> preflightRequestId b = Some (id a).
Proof.
  intros Ho Ha Hb.
  assert (HP : NetworkCapture.paired (NetworkCapture.run (NetworkCapture.new o) es)).
  { apply paired_run; [apply paired_new | reflexivity | exact Ho]. }
  apply getRequest_Some in Ha as (la & ea & Hina & Hea & -> & -> & _).
  apply getRequest_Some in Hb as (lb & eb & Hinb & Heb & -> & _ & ->).
  split.
  - apply (NetworkCapture.paired_forth _ HP la lb ea eb); try assumption.
    + exists ka. right. exact Hina.
    + exists kb. right. exact Hinb.
  - apply (NetworkCapture.paired_back _ HP la lb ea eb); assumption.
Qed.

Lemma preflight_links_consistent_witness :
  exists a b,
    NetworkCapture.getRequest "req_preflight"
      (NetworkCapture.run (NetworkCapture.new NetworkCapture.DEFAULT_OPTIONS)
         Fixtures.corsReversed) = Some a /\
    NetworkCapture.getRequest "req_actual"
      (NetworkCapture.run (NetworkCapture.new NetworkCapture.DEFAULT_OPTIONS)
         Fixtures.corsReversed) = Some b /\
    preflightFor a = Some "req_actual" /\
    (preflightFor a = Some (id b) <-> preflightRequestId b = Some (id a)).
Proof.
  eexists _, _. split; [vm_compute; reflexivity|]. split; [vm_compute; reflexivity|].
  split; [reflexivity|].
  apply (preflight_links_consistent NetworkCapture.DEFAULT_OPTIONS Fixtures.corsReversed
           "req_preflight" "req_actual"); vm_compute; reflexivity.
Defined.

(** * Further properties of the correlator *)

Section score_facts.
#[local] Open Scope R_scope.
Import Correlator.

Lemma patternBonus_bounds description u method_ ps :
  List.Forall (fun p => 0 <= p.2 <= 0.3) ps ->
  0 <= patternBonus description u method_ ps <= 0.3.
Proof.
  induction 1 as [|[[[text urlRe] m] bonus] ps Hb _ IH]; cbn; [lra|].
  destruct (_ && _); [exact Hb | exact IH].
Qed.

Lemma patterns_bounds : List.Forall (fun p => 0 <= p.2 <= 0.3) patterns.
Proof. unfold patterns. repeat constructor; cbn; lra. Qed.

(** The semantic term of the score lies between 0 and 0.65: at most one of
    the three type bonuses applies, the largest being 0.35 for a navigation
    that loads a document, and the text pattern adds at most 0.3. *)
Theorem semanticScore_bounds (a : TrackedAction) (r : CapturedRequest) :
  0 <= semanticScore a r <= 0.65.
Proof.
  unfold semanticScore.
  pose proof (patternBonus_bounds (Js.toLowerCase (targetDescription a))
                (Js.toLowerCase (url r)) (method r) patterns patterns_bounds) as Hp.
  destruct (action_type a), (resourceType r); cbn zeta;
    try destruct (String.eqb (method r) "POST"); lra.
Qed.

(** The score of a candidate is a number between 0 and 1. *)
Theorem computeScore_bounds (a : TrackedAction) (r : CapturedRequest) :
  0 <= computeScore a r <= 1.
Proof.
  unfold computeScore. cbv zeta. split; [apply Rmax_l | apply clamp_le].
Qed.

End score_facts.

Section correlateRequest_facts.
#[local] Open Scope R_scope.
Import Correlator.

Lemma In_refs c k a : In (k, a) (refs c) <-> actions c !! k = Some a.
Proof.
  unfold refs. rewrite <- list_elem_of_In, list_elem_of_lookup. split.
  - intros [i Hi]. rewrite list_lookup_imap in Hi.
    destruct (actions c !! i) as [a'|] eqn:Ha; [|discriminate].
    cbn in Hi. injection Hi as <- <-. exact Ha.
  - intros Ha. exists k. rewrite list_lookup_imap, Ha. reflexivity.
Qed.

(** The fold that picks the closest candidate. *)
Lemma closest_spec {A} (f : A -> R) rest first :
  let res := fold_left (fun best current =>
                          if Rltb (f current) (f best) then current else best)
                       rest first in
  In res (first :: rest) /\ forall b, In b (first :: rest) -> f res <= f b.
Proof.
  revert first. induction rest as [|x rest IH]; intros first; cbn.
  - split; [auto|]. intros b [<-|[]]. lra.
  - destruct (IH (if Rltb (f x) (f first) then x else first)) as [Hin Hmin].
    cbn in Hin, Hmin. split.
    + destruct Hin as [Hin|Hin]; [|auto].
      rewrite <- Hin. destruct (Rltb (f x) (f first)); auto.
    + intros b Hb.
      assert (Hfx : f (if Rltb (f x) (f first) then x else first) <= f x /\
                    f (if Rltb (f x) (f first) then x else first) <= f first).
      { destruct (Rltb_spec (f x) (f first)); lra. }
      pose proof (Hmin _ (or_introl eq_refl)) as H0.
      destruct Hb as [<-|[<-|Hb]]; [lra | lra | apply Hmin; auto].
Qed.

Lemma matchByStackTrace_Some c r a conf :
  matchByStackTrace c r = Some (a, conf) ->
  exists stack eventType asyncDepth,
    init_stack (initiator r) = Some stack /\
    extractEventOrigin stack = Some (eventType, asyncDepth) /\
    conf = Rmax 0.85 (0.95 - INR asyncDepth * 0.02) /\
    In a (refs c) /\ eventMatchesAction eventType a.2 = true /\
    inWindow c r a.2 = true /\
    forall b, In b (refs c) -> eventMatchesAction eventType b.2 = true ->
              inWindow c r b.2 = true ->
              Rabs (startTime (timing r) - action_timestamp a.2)
              <= Rabs (startTime (timing r) - action_timestamp b.2).
Proof.
  unfold matchByStackTrace.
  destruct (init_stack (initiator r)) as [stack|]; [|discriminate].
  destruct (extractEventOrigin stack) as [[eventType asyncDepth]|] eqn:He; [|discriminate].
  destruct (List.filter _ (refs c)) as [|first rest] eqn:Hc; [discriminate|].
  intros [= <- <-].
  exists stack, eventType, asyncDepth.
  split; [reflexivity|]. split; [exact He|]. split; [reflexivity|].
  destruct (closest_spec
              (fun x : nat * TrackedAction =>
                 Rabs (startTime (timing r) - action_timestamp x.2)) rest first)
    as [Hin Hmin].
  cbv zeta in Hin, Hmin.
  set (closest := fold_left _ rest first) in *.
  rewrite <- Hc in Hin. apply filter_In in Hin as [Hin Hp].
  apply andb_prop in Hp as [Hev Hw].
  do 3 (split; [assumption|]).
  intros b Hb Hbe Hbw. apply Hmin. rewrite <- Hc. apply filter_In.
  split; [exact Hb|]. rewrite Hbe, Hbw. reflexivity.
Qed.

(** The head of a list sorted by descending score has the highest score. *)
Lemma sortBy_cons {A} (before : A -> A -> bool) x l :
  sortBy before (x :: l) = insertSorted before x (sortBy before l).
Proof. reflexivity. Qed.

Lemma sortBy_nil_inv {A} (before : A -> A -> bool) l : sortBy before l = [] -> l = [].
Proof.
  destruct l as [|y l']; [reflexivity|]. intros Hs. exfalso.
  assert (Hy : In y (sortBy before (y :: l'))) by (apply In_sortBy; left; reflexivity).
  rewrite Hs in Hy. destruct Hy.
Qed.

Lemma head_sortBy_max {A} (f : A -> R) l best rest :
  sortBy (fun a b => Rltb (f b - f a) 0) l = best :: rest ->
  In best l /\ forall x, In x l -> f x <= f best.
Proof.
  revert best rest. induction l as [|x l IH]; intros best rest; [discriminate|].
  rewrite sortBy_cons.
  destruct (sortBy _ l) as [|b0 rest0] eqn:Hs.
  - apply sortBy_nil_inv in Hs as ->. cbn. intros [= <- <-].
    split; [left; reflexivity|]. intros z [<-|[]]. lra.
  - destruct (IH b0 rest0 eq_refl) as [Hin Hmax]. cbn [insertSorted].
    destruct (Rltb_spec (f x - f b0) 0) as [Hlt|Hge].
    + intros [= <- <-]. split; [right; exact Hin|].
      intros z [<-|Hz]; [lra | exact (Hmax z Hz)].
    + intros [= <- <-]. split; [left; reflexivity|].
      intros z [<-|Hz]; [lra|]. pose proof (Hmax z Hz). lra.
Qed.


Lemma correlateRequest_cases c r allRequests m :
  correlateRequest c r allRequests = Some m ->
  matchByChain c r allRequests = Some m \/
  (exists a conf, matchByStackTrace c r = Some (a, conf) /\
                  m = mkMatch a conf stack_trace) \/
  (exists best rest, timingScored c r = best :: rest /\
     m = mkMatch best.1 best.2
           (if Rleb 0.5 best.2 then timing_semantic else timing_only)).
Proof.
  unfold correlateRequest.
  destruct (if _ && _ then matchByChain c r allRequests else None) as [m0|] eqn:H0.
  - intros [= <-]. left. destruct (_ && _); [exact H0 | discriminate].
  - destruct (matchByStackTrace c r) as [[a conf]|].
    + intros [= <-]. right. left. eauto.
    + destruct (List.filter (fun a => inWindow c r a.2) (refs c)) as [|x l] eqn:Hc.
      * intros H. left. exact H.
      * destruct (sortBy _ _) as [|best rest] eqn:Hs; [discriminate|].
        intros [= <-]. right. right. exists best, rest.
        split; [unfold timingScored; rewrite Hc; exact Hs | reflexivity].
Qed.

Lemma timingScored_head c r best rest :
  timingScored c r = best :: rest ->
  In best.1 (refs c) /\ inWindow c r best.1.2 = true /\
  best.2 = computeScore best.1.2 r /\
  minConfidence (options c) <= best.2 /\
  forall b, In b (refs c) -> inWindow c r b.2 = true ->
            computeScore b.2 r <= best.2.
Proof.
  unfold timingScored. intros Hs.
  destruct (head_sortBy_max (fun s : (nat * TrackedAction) * R => s.2) _ _ _ Hs)
    as [Hin Hmax].
  apply filter_In in Hin as [Hin Hmin].
  apply in_map_iff in Hin as (a & <- & Ha). cbn in *.
  apply filter_In in Ha as [Ha Hw].
  destruct (Rleb_spec (minConfidence (options c)) (computeScore a.2 r)) as [Hle|];
    [|discriminate].
  do 4 (split; [assumption || reflexivity|]).
  intros b Hb Hbw.
  destruct (Rle_dec (minConfidence (options c)) (computeScore b.2 r)) as [Hb1|Hb1].
  - apply (Hmax (b, computeScore b.2 r)). apply filter_In. split.
    + apply in_map_iff. exists b. split; [reflexivity|]. apply filter_In. auto.
    + cbn. apply Rleb_true, Hb1.
  - lra.
Qed.

(** Every correlation names a recorded action. *)
Theorem correlateRequest_action_recorded
    (c : t) (r : CapturedRequest) (allRequests : list CapturedRequest) (m : Match) :
  correlateRequest c r allRequests = Some m ->
  actions c !! (match_action m).1 = Some (match_action m).2.
Proof.
  intros H. apply correlateRequest_cases in H as [H|[(a & conf & H & ->)|(best & rest & H & ->)]].
  - apply matchByChain_Some in H as (_ & parent & _ & _ & Ha & _).
    destruct (match_action m) as [k a]. apply getAction_spec in Ha as [Ha _]. exact Ha.
  - apply matchByStackTrace_Some in H as (_ & _ & _ & _ & _ & _ & Hin & _).
    destruct a as [k a]. apply In_refs, Hin.
  - apply timingScored_head in H as (Hin & _). cbn.
    destruct best as [[k a] s]. apply In_refs, Hin.
Qed.

(** The confidence of a correlation lies in the band of its method. *)
Theorem correlateRequest_confidence_band
    (c : t) (r : CapturedRequest) (allRequests : list CapturedRequest) (m : Match) :
  correlateRequest c r allRequests = Some m ->
  match match_method m with
  | stack_trace => 0.85 <= match_confidence m <= 0.95
  | timing_semantic =>
      0.5 <= match_confidence m <= 1 /\ minConfidence (options c) <= match_confidence m
  | timing_only =>
      0 <= match_confidence m < 0.5 /\ minConfidence (options c) <= match_confidence m
  | chain => match_confidence m = 0.85 \/ match_confidence m = 0.5
  end.
Proof.
  intros H. apply correlateRequest_cases in H as [H|[(a & conf & H & ->)|(best & rest & H & ->)]].
  - apply matchByChain_Some in H as (-> & parent & _ & _ & _ & [(Hc & _)|(Hc & _)]); auto.
  - apply matchByStackTrace_Some in H as (_ & _ & d & _ & _ & -> & _). cbn.
    pose proof (pos_INR d). split; [apply Rmax_l|]. apply Rmax_lub; lra.
  - apply timingScored_head in H as (_ & _ & Hs & Hmin & _). cbn.
    pose proof (computeScore_bounds best.1.2 r) as Hb. rewrite <- Hs in Hb.
    destruct (Rleb_spec 0.5 best.2); cbn; lra.
Qed.

End correlateRequest_facts.

Section correlateRequest_layers.
#[local] Open Scope R_scope.
Import Correlator.

(** A stack-trace correlation names the action closest in time among the
    recorded actions that match the event type of the stack and lie in the
    timing window. *)
Theorem stack_trace_match_is_closest
    (c : t) (r : CapturedRequest) (allRequests : list CapturedRequest) (m : Match) :
  correlateRequest c r allRequests = Some m ->
  match_method m = stack_trace ->
  exists stack eventType asyncDepth,
    init_stack (initiator r) = Some stack /\
    extractEventOrigin stack = Some (eventType, asyncDepth) /\
    eventMatchesAction eventType (match_action m).2 = true /\
    inWindow c r (match_action m).2 = true /\
    forall k b, actions c !! k = Some b ->
      eventMatchesAction eventType b = true -> inWindow c r b = true ->
      Rabs (startTime (timing r) - action_timestamp (match_action m).2)
      <= Rabs (startTime (timing r) - action_timestamp b).
Proof.
  intros H Hm.
  apply correlateRequest_cases in H as [H|[(a & conf & H & ->)|(best & rest & H & ->)]].
  - apply matchByChain_Some in H as (Hc & _). congruence.
  - apply matchByStackTrace_Some in H
      as (stack & ev & d & Hst & He & _ & Hin & Hev & Hw & Hmin).
    exists stack, ev, d. cbn. do 4 (split; [assumption|]).
    intros k b Hb. apply (Hmin (k, b)). apply In_refs, Hb.
  - cbn in Hm. destruct (Rleb 0.5 best.2); discriminate.
Qed.

(** A timing correlation names an action of the timing window with the
    highest score, and its confidence is that score. *)
Theorem timing_match_is_best
    (c : t) (r : CapturedRequest) (allRequests : list CapturedRequest) (m : Match) :
  correlateRequest c r allRequests = Some m ->
  match_method m = timing_semantic \/ match_method m = timing_only ->
  inWindow c r (match_action m).2 = true /\
  match_confidence m = computeScore (match_action m).2 r /\
  forall k b, actions c !! k = Some b -> inWindow c r b = true ->
    computeScore b r <= match_confidence m.
Proof.
  intros H Hm.
  apply correlateRequest_cases in H as [H|[(a & conf & H & ->)|(best & rest & H & ->)]].
  - apply matchByChain_Some in H as (Hc & _). destruct Hm; congruence.
  - cbn in Hm. destruct Hm; discriminate.
  - apply timingScored_head in H as (_ & Hw & Hs & _ & Hmax). cbn.
    do 2 (split; [assumption|]).
    intros k b Hb. apply (Hmax (k, b)). apply In_refs, Hb.
Qed.

End correlateRequest_layers.


Section stack_facts.
Import Correlator.

Lemma StackTrace_rect' (P : StackTrace -> Prop) :
  (forall d f, P (mkStackTrace d f None)) ->
  (forall d f p, P p -> P (mkStackTrace d f (Some p))) ->
  forall st, P st.
Proof.
  intros H0 H1. fix IH 1. intros [d f [p|]]; [apply H1, IH | apply H0].
Qed.

Lemma extractEventOriginFrom_spec stack depth :
  match extractEventOriginFrom stack depth with
  | Some (eventType, asyncDepth) =>
      (depth <= asyncDepth < 50)%nat /\
      (exists anc d, ancestor (asyncDepth - depth) stack = Some anc /\
                     userEvent anc = true /\
                     description anc = Some d /\ eventType = Js.toLowerCase d) /\
      forall j anc, (j < asyncDepth - depth)%nat -> ancestor j stack = Some anc ->
                    userEvent anc = false
  | None =>
      forall j anc, (depth + j < 50)%nat -> ancestor j stack = Some anc ->
                    userEvent anc = false
  end.
Proof.
  revert depth. induction stack as [d f|d f p IH] using StackTrace_rect'; intros depth.
  - cbn [extractEventOriginFrom parent description].
    destruct (50 <=? depth)%nat eqn:Hd.
    { apply Nat.leb_le in Hd. intros j anc Hj. lia. }
    apply Nat.leb_gt in Hd.
    assert (Hnone : userEvent (mkStackTrace d f None) = false ->
                    forall j anc, (depth + j < 50)%nat ->
                      ancestor j (mkStackTrace d f None) = Some anc ->
                      userEvent anc = false).
    { intros Hu [|j] anc _; cbn; [intros [= <-]; exact Hu | discriminate]. }
    unfold userEvent in Hnone at 1. cbn [description] in Hnone.
    destruct d as [desc|]; [|exact (Hnone eq_refl)].
    destruct (_ && _) eqn:Hu; [|exact (Hnone eq_refl)].
    split; [lia|]. rewrite Nat.sub_diag. split.
    + exists (mkStackTrace (Some desc) f None), desc. cbn [ancestor description].
      unfold userEvent. cbn [description]. rewrite Hu. auto.
    + intros j anc Hj. lia.
  - cbn [extractEventOriginFrom parent description].
    destruct (50 <=? depth)%nat eqn:Hd.
    { apply Nat.leb_le in Hd. intros j anc Hj. lia. }
    apply Nat.leb_gt in Hd.
    specialize (IH (S depth)).
    assert (Hnext : userEvent (mkStackTrace d f (Some p)) = false ->
              match extractEventOriginFrom p (S depth) with
              | Some (eventType, asyncDepth) =>
                  (depth <= asyncDepth < 50)%nat /\
                  (exists anc d0,
                     ancestor (asyncDepth - depth) (mkStackTrace d f (Some p)) = Some anc /\
                     userEvent anc = true /\
                     description anc = Some d0 /\ eventType = Js.toLowerCase d0) /\
                  forall j anc, (j < asyncDepth - depth)%nat ->
                    ancestor j (mkStackTrace d f (Some p)) = Some anc ->
                    userEvent anc = false
              | None =>
                  forall j anc, (depth + j < 50)%nat ->
                    ancestor j (mkStackTrace d f (Some p)) = Some anc ->
                    userEvent anc = false
              end).
    { intros Hu. destruct (extractEventOriginFrom p (S depth)) as [[ev ad]|].
      - destruct IH as (Hr & (anc & d0 & Ha & Hua & Hd0 & Hev) & Hnear).
        split; [lia|]. split.
        + exists anc, d0. replace (ad - depth)%nat with (S (ad - S depth)) by lia.
          cbn [ancestor parent]. auto.
        + intros [|j] anc' Hj; cbn [ancestor parent].
          * intros [= <-]. exact Hu.
          * apply Hnear. lia.
      - intros [|j] anc Hj; cbn [ancestor parent].
        + intros [= <-]. exact Hu.
        + apply IH. lia. }
    unfold userEvent in Hnext at 1. cbn [description] in Hnext.
    destruct d as [desc|]; [|exact (Hnext eq_refl)].
    destruct (_ && _) eqn:Hu; [|exact (Hnext eq_refl)].
    split; [lia|]. rewrite Nat.sub_diag. split.
    + exists (mkStackTrace (Some desc) f (Some p)), desc. cbn [ancestor description].
      unfold userEvent. cbn [description]. rewrite Hu. auto.
    + intros j anc Hj. lia.
Qed.

(** The walk up the async stack returns the nearest of the first 50 stack
    traces whose description, in lower case, is a user event type, with its
    distance; it returns nothing exactly when none of the first 50 has one. *)
Theorem extractEventOrigin_nearest (stack : StackTrace) :
  match extractEventOrigin stack with
  | Some (eventType, asyncDepth) =>
      (asyncDepth < 50)%nat /\ In eventType USER_EVENT_TYPES /\
      (exists anc d, ancestor asyncDepth stack = Some anc /\
                     description anc = Some d /\ eventType = Js.toLowerCase d) /\
      forall j anc, (j < asyncDepth)%nat -> ancestor j stack = Some anc ->
                    userEvent anc = false
  | None =>
      forall j anc, (j < 50)%nat -> ancestor j stack = Some anc ->
                    userEvent anc = false
  end.
Proof.
  unfold extractEventOrigin.
  pose proof (extractEventOriginFrom_spec stack 0) as H.
  destruct (extractEventOriginFrom stack 0) as [[ev ad]|].
  - destruct H as (Hr & (anc & d & Ha & Hu & Hd & Hev) & Hnear).
    rewrite Nat.sub_0_r in Ha, Hnear.
    split; [lia|]. split.
    + unfold userEvent in Hu. rewrite Hd in Hu. apply andb_prop in Hu as [_ Hu].
      apply existsb_exists in Hu as (x & Hx & Heq). apply String.eqb_eq in Heq.
      subst. exact Hx.
    + split; [eauto|exact Hnear].
  - intros j anc Hj. apply H. lia.
Qed.

End stack_facts.

Section auth_flow_spec.
#[local] Open Scope R_scope.
Import Correlator.
Variable JSON_parse : string -> option JsonValue.

Lemma authFlowFrom_Some candidates requests chain :
  authFlowFrom JSON_parse candidates requests = Some chain ->
  exists authReq body token,
    In authReq candidates /\
    (200 <= status authReq < 300)%Z /\
    Js.truthy (responseBody authReq) = true /\
    JSON_parse (default "" (responseBody authReq)) = Some body /\
    tokenValue body = Some (Some (JString token)) /\ token <> "" /\
    authenticatedBy authReq (Js.substring0 20 token) requests <> [] /\
    chain = {| chain_type := auth_flow;
               requestIds := id authReq ::
                 map id (authenticatedBy authReq (Js.substring0 20 token) requests) |}.
Proof.
  induction candidates as [|authReq rest IH]; cbn [authFlowFrom]; [discriminate|].
  intros H.
  assert (Hrest : authFlowFrom JSON_parse rest requests = Some chain ->
            exists authReq0 body token,
              In authReq0 (authReq :: rest) /\
              (200 <= status authReq0 < 300)%Z /\
              Js.truthy (responseBody authReq0) = true /\
              JSON_parse (default "" (responseBody authReq0)) = Some body /\
              tokenValue body = Some (Some (JString token)) /\ token <> "" /\
              authenticatedBy authReq0 (Js.substring0 20 token) requests <> [] /\
              chain = {| chain_type := auth_flow;
                         requestIds := id authReq0 ::
                           map id (authenticatedBy authReq0 (Js.substring0 20 token)
                                     requests) |}).
  { intros H'. destruct (IH H') as (a & b & tk & Hin & Hrest). exists a, b, tk.
    split; [right; exact Hin | exact Hrest]. }
  destruct ((status authReq <? 200)%Z || (300 <=? status authReq)%Z) eqn:Hs; [auto|].
  apply orb_false_elim in Hs as [Hs1 Hs2].
  apply Z.ltb_ge in Hs1. apply Z.leb_gt in Hs2.
  destruct (Js.truthy (responseBody authReq)) eqn:Hb; cbn [negb] in H; [|auto].
  destruct (JSON_parse _) as [body|] eqn:Hp; [|auto].
  destruct (tokenValue body) as [[[| | |token| |]|]|] eqn:Ht; auto.
  destruct (String.eqb_spec token "") as [|Hne]; [auto|].
  destruct (authenticatedBy authReq (Js.substring0 20 token) requests)
    as [|d ds] eqn:Ha; [auto|].
  injection H as <-.
  exists authReq, body, token. rewrite Ha.
  split; [left; reflexivity|]. repeat split; try assumption; try lia. discriminate.
Qed.

(** An auth-flow chain starts with a POST to an auth-like URL that answered
    2xx with a JSON body carrying a non-empty string token, and lists after
    it exactly the requests of the group that start later and send the first
    20 characters of the token in their [Authorization] or [authorization]
    header; there is at least one of them. *)
Theorem detectAuthFlow_Some (requests : list CapturedRequest) (chain : RequestChain) :
  detectAuthFlow JSON_parse requests = Some chain ->
  chain_type chain = auth_flow /\
  exists authReq body token dependents,
    In authReq requests /\ isAuthPost authReq = true /\
    (200 <= status authReq < 300)%Z /\
    JSON_parse (default "" (responseBody authReq)) = Some body /\
    tokenValue body = Some (Some (JString token)) /\ token <> "" /\
    requestIds chain = id authReq :: map id dependents /\
    dependents <> [] /\
    forall r, In r dependents <->
      In r requests /\
      startTime (timing authReq) < startTime (timing r) /\
      exists header, authHeader r = Some header /\ header <> "" /\
                     Js.includes header (Js.substring0 20 token) = true.
Proof.
  unfold detectAuthFlow. intros H.
  apply authFlowFrom_Some in H
    as (authReq & body & token & Hin & Hs & Hb & Hp & Ht & Hne & Hdeps & ->).
  apply filter_In in Hin as [Hin Hauth].
  split; [reflexivity|].
  exists authReq, body, token, (authenticatedBy authReq (Js.substring0 20 token) requests).
  do 6 (split; [assumption|]). split; [reflexivity|]. split; [assumption|].
  intros r. unfold authenticatedBy. rewrite filter_In. split.
  - intros [Hr Hf]. split; [exact Hr|].
    apply andb_prop in Hf as [Hf Hi]. apply andb_prop in Hf as [Hst Hh].
    split.
    + destruct (Rleb_spec (startTime (timing r)) (startTime (timing authReq)));
        [discriminate | lra].
    + destruct (authHeader r) as [header|]; [|discriminate].
      exists header. split; [reflexivity|]. split; [|exact Hi].
      cbn in Hh. intros ->. discriminate.
  - intros (Hr & Hst & header & Hh & Hne' & Hi). split; [exact Hr|].
    rewrite Hh. cbn [default Js.truthy]. rewrite Rleb_false by lra.
    destruct (String.eqb_spec header ""); [contradiction|]. cbn. exact Hi.
Qed.

End auth_flow_spec.


Section loop_facts.
#[local] Open Scope R_scope.
Import Correlator.
Variable JSON_parse : string -> option JsonValue.



Lemma pointwise_refl (P : CapturedRequest -> CapturedRequest -> Prop) all :
  (forall r, P r r) -> pointwise P all all.
Proof. intros HP. split; [reflexivity|]. intros i r Hi. eauto. Qed.

Lemma pointwise_trans (P : CapturedRequest -> CapturedRequest -> Prop) a b c :
  (forall x y z, P x y -> P y z -> P x z) ->
  pointwise P a b -> pointwise P b c -> pointwise P a c.
Proof.
  intros HP [Hl1 H1] [Hl2 H2]. split; [congruence|].
  intros i r Hi. destruct (H1 i r Hi) as (r1 & Hi1 & Hp1).
  destruct (H2 i r1 Hi1) as (r2 & Hi2 & Hp2). eauto.
Qed.

Lemma pointwise_insert (P : CapturedRequest -> CapturedRequest -> Prop) all i r r' :
  (forall x, P x x) -> all !! i = Some r -> P r r' ->
  pointwise P all (<[i := r']> all).
Proof.
  intros Hrefl Hi HP. split; [apply length_insert|].
  intros j x Hj. destruct (decide (i = j)) as [->|Hne].
  - rewrite list_lookup_insert_eq by (eapply lookup_lt_Some; eauto).
    exists r'. split; [reflexivity|]. congruence.
  - rewrite list_lookup_insert_ne by exact Hne. eauto.
Qed.

Lemma keptOrAttributed_refl r : keptOrAttributed r r.
Proof. split; auto. Qed.

Lemma keptOrAttributed_trans x y z :
  keptOrAttributed x y -> keptOrAttributed y z -> keptOrAttributed x z.
Proof.
  intros [H1 K1] [H2 K2]. split; [congruence|].
  intros Hx. specialize (K1 Hx). subst y. exact (K2 Hx).
Qed.

Lemma correlateAllStep_pointwise c st i :
  pointwise keptOrAttributed st.1 (correlateAllStep c st i).1.
Proof.
  destruct st as [all results]. unfold correlateAllStep. cbn [fst].
  destruct (all !! i) as [request|] eqn:Hi;
    [|apply pointwise_refl, keptOrAttributed_refl].
  destruct (Js.truthy (correlatedActionId request)) eqn:Ht;
    [apply pointwise_refl, keptOrAttributed_refl|].
  destruct (correlateRequest c request all) as [m|];
    [|apply pointwise_refl, keptOrAttributed_refl].
  cbn [fst]. apply (pointwise_insert _ all i request);
    [apply keptOrAttributed_refl | exact Hi |].
  split; [reflexivity|]. congruence.
Qed.

Lemma correlateAll_loop_pointwise c js st :
  pointwise keptOrAttributed st.1 (fold_left (correlateAllStep c) js st).1.
Proof.
  revert st. induction js as [|i js IH]; intros st; cbn [fold_left].
  - apply pointwise_refl, keptOrAttributed_refl.
  - eapply pointwise_trans;
      [exact keptOrAttributed_trans | apply correlateAllStep_pointwise | apply IH].
Qed.

Lemma correlateAll_requests c requests :
  (correlateAll JSON_parse c requests).1.2
  = (fold_left (correlateAllStep c) (seq 0 (length requests)) (requests, [])).1.
Proof.
  unfold correlateAll.
  destruct (fold_left (correlateAllStep c) _ _) as [all results].
  destruct (fold_left _ results (c, [])) as [c' finalized]. reflexivity.
Qed.

(** [correlateAll] changes nothing of a request but its attribution, and
    leaves a request that is already attributed as it is. *)
Theorem correlateAll_keeps_attributed
    (c : t) (requests : list CapturedRequest) (i : nat) (r : CapturedRequest) :
  requests !! i = Some r ->
  exists r',
    (correlateAll JSON_parse c requests).1.2 !! i = Some r' /\
    unattributed r' = unattributed r /\
    (Js.truthy (correlatedActionId r) = true -> r' = r).
Proof.
  intros Hi. rewrite correlateAll_requests.
  destruct (correlateAll_loop_pointwise c (seq 0 (length requests)) (requests, []))
    as [_ H].
  exact (H i r Hi).
Qed.


Lemma keptOrAttributedTo_trans actionId x y z :
  keptOrAttributedTo actionId x y -> keptOrAttributedTo actionId y z ->
  keptOrAttributedTo actionId x z.
Proof.
  intros [H1 K1] [H2 K2]. split; [congruence|].
  destruct K2 as [->|K2]; auto.
Qed.

Lemma correlateActionStep_pointwise c actionId st i :
  pointwise (keptOrAttributedTo actionId) st.1.1 (correlateActionStep c actionId st i).1.1.
Proof.
  assert (Hrefl : forall r, keptOrAttributedTo actionId r r) by (split; auto).
  destruct st as [[all correlated] total]. unfold correlateActionStep. cbn [fst].
  destruct (all !! i) as [request|] eqn:Hi; [|apply pointwise_refl, Hrefl].
  destruct (correlateRequest c request all) as [m|]; [|apply pointwise_refl, Hrefl].
  destruct (String.eqb _ actionId); [|apply pointwise_refl, Hrefl].
  cbn [fst]. apply (pointwise_insert _ all i request); [exact Hrefl | exact Hi |].
  split; [reflexivity|]. right. reflexivity.
Qed.

Lemma correlateAction_loop_pointwise c actionId js st :
  pointwise (keptOrAttributedTo actionId) st.1.1
    (fold_left (correlateActionStep c actionId) js st).1.1.
Proof.
  revert st. induction js as [|i js IH]; intros st; cbn [fold_left].
  - apply pointwise_refl. split; auto.
  - eapply pointwise_trans;
      [exact (keptOrAttributedTo_trans actionId)
      | apply correlateActionStep_pointwise | apply IH].
Qed.

Lemma correlateAction_requests c actionId requests :
  (correlateAction JSON_parse c actionId requests).1.2
  = match getAction actionId c with
    | None => requests
    | Some _ => (fold_left (correlateActionStep c actionId)
                   (seq 0 (length requests)) (requests, [], 0)).1.1
    end.
Proof.
  unfold correlateAction. destruct (getAction actionId c) as [[k action]|]; [|reflexivity].
  destruct (fold_left _ _ _) as [[all correlated] total].
  destruct correlated; reflexivity.
Qed.

(** [correlateAction] changes nothing of a request but its attribution, and
    attributes to no action but the one it was called for; for an action ID
    that was not recorded it changes nothing at all. *)
Theorem correlateAction_attributes_own_action
    (c : t) (actionId : string) (requests : list CapturedRequest)
    (i : nat) (r : CapturedRequest) :
  requests !! i = Some r ->
  exists r',
    (correlateAction JSON_parse c actionId requests).1.2 !! i = Some r' /\
    unattributed r' = unattributed r /\
    (r' = r \/ (correlatedActionId r' = Some actionId /\
                exists k a, actions c !! k = Some a /\ action_id a = actionId)).
Proof.
  intros Hi. rewrite correlateAction_requests.
  destruct (getAction actionId c) as [[k a]|] eqn:Ha.
  - destruct (correlateAction_loop_pointwise c actionId (seq 0 (length requests))
                (requests, [], 0)) as [_ H].
    destruct (H i r Hi) as (r' & Hr' & Hu & Hk). exists r'.
    split; [exact Hr'|]. split; [exact Hu|].
    destruct Hk as [->|Hk]; [left; reflexivity|]. right. split; [exact Hk|].
    apply getAction_spec in Ha. eauto.
  - exists r. auto.
Qed.

End loop_facts.

(** ** The chain search *)

Section sort_desc_facts.
#[local] Open Scope R_scope.
Context {A : Type} (f : A -> R).

Lemma insertSorted_sorted_desc x l :
  StronglySorted (fun a b => f b <= f a) l ->
  StronglySorted (fun a b => f b <= f a)
    (insertSorted (fun a b => Rltb (f b - f a) 0) x l).
Proof.
  induction 1 as [|y l Hs IH Hy]; cbn [insertSorted].
  - repeat constructor.
  - destruct (Rltb_spec (f x - f y) 0) as [Hlt|Hge].
    + constructor; [exact IH|].
      apply List.Forall_forall. intros z Hz.
      apply In_insertSorted in Hz as [->|Hz]; [lra|].
      rewrite List.Forall_forall in Hy. exact (Hy z Hz).
    + constructor; [constructor; assumption|].
      constructor; [lra|].
      rewrite List.Forall_forall in Hy |- *. intros z Hz.
      pose proof (Hy z Hz). lra.
Qed.

Lemma sortBy_sorted_desc l :
  StronglySorted (fun a b => f b <= f a) (sortBy (fun a b => Rltb (f b - f a) 0) l).
Proof.
  induction l as [|x l IH]; [constructor|].
  rewrite sortBy_cons. apply insertSorted_sorted_desc, IH.
Qed.

(** The first element of a sorted list that passes a test comes before
    every other element that passes it. *)
Lemma find_sorted (R : A -> A -> Prop) (test : A -> bool) l p q :
  StronglySorted R l -> List.find test l = Some p ->
  In q l -> test q = true -> q = p \/ R p q.
Proof.
  induction 1 as [|x l Hs IH Hx]; cbn [List.find]; [discriminate|].
  intros Hf Hq Ht. destruct (test x) eqn:Hx'.
  - injection Hf as <-. destruct Hq as [->|Hq]; [left; reflexivity|].
    right. rewrite List.Forall_forall in Hx. exact (Hx q Hq).
  - destruct Hq as [->|Hq]; [congruence|]. exact (IH Hf Hq Ht).
Qed.

End sort_desc_facts.

Section chain_facts.
#[local] Open Scope R_scope.
Import Correlator.

Lemma temporalChain_find c r parents :
  temporalChain c r parents
  = match List.find (inChainGap c r) parents with
    | Some p =>
        match getAction (default "" (correlatedActionId p)) c with
        | Some a => Some (mkMatch a 0.5 chain)
        | None => None
        end
    | None => None
    end.
Proof.
  induction parents as [|p rest IH]; [reflexivity|].
  cbn [temporalChain List.find]. unfold inChainGap at 1. unfold endOrZero.
  destruct (truthyNumber (endTime (timing p))); cbn [negb andb]; [|exact IH].
  destruct (Rleb 0 _ && Rleb _ 100); cbn [andb]; [|exact IH].
  destruct (getAction _ c) as [a|] eqn:Ha; [|exact IH].
  rewrite Ha. reflexivity.
Qed.

Lemma In_recentCorrelated p allRequests :
  In p (recentCorrelated allRequests) <->
  In p allRequests /\ Js.truthy (correlatedActionId p) = true /\
  truthyNumber (endTime (timing p)) = true.
Proof.
  unfold recentCorrelated. rewrite In_sortBy, filter_In, andb_true_iff. tauto.
Qed.

Lemma temporalParent_inChainGap c r p :
  temporalParent c r p = Js.truthy (correlatedActionId p) && inChainGap c r p.
Proof.
  unfold temporalParent, inChainGap. rewrite !andb_assoc. reflexivity.
Qed.

Lemma recentCorrelated_sorted allRequests :
  StronglySorted (fun a b => endOrZero b <= endOrZero a) (recentCorrelated allRequests).
Proof. apply (sortBy_sorted_desc endOrZero). Qed.

Lemma temporalChain_recent c r allRequests :
  (forall p, In p allRequests -> temporalParent c r p = false) /\
    temporalChain c r (recentCorrelated allRequests) = None \/
  exists p a,
    temporalChain c r (recentCorrelated allRequests) = Some (mkMatch a 0.5 chain) /\
    In p allRequests /\ temporalParent c r p = true /\
    getAction (default "" (correlatedActionId p)) c = Some a /\
    forall q, In q allRequests -> temporalParent c r q = true ->
              endOrZero q <= endOrZero p.
Proof.
  rewrite temporalChain_find.
  destruct (List.find _ _) as [p|] eqn:Hf.
  - right. pose proof (find_some _ _ Hf) as [Hin Hg].
    apply In_recentCorrelated in Hin as (Hin & Hc & He).
    assert (Hg' := Hg). unfold inChainGap in Hg'.
    destruct (getAction _ c) as [a|] eqn:Ha;
      [|rewrite andb_false_r in Hg'; discriminate].
    exists p, a. split; [reflexivity|]. split; [exact Hin|].
    split; [rewrite temporalParent_inChainGap, Hc, Hg; reflexivity|].
    split; [exact Ha|].
    intros q Hq Hpq. rewrite temporalParent_inChainGap in Hpq.
    apply andb_prop in Hpq as [Hqc Hqg].
    assert (Hqr : In q (recentCorrelated allRequests)).
    { apply In_recentCorrelated. split; [exact Hq|]. split; [exact Hqc|].
      unfold inChainGap in Hqg. apply andb_prop in Hqg as [Hqg _].
      apply andb_prop in Hqg as [Hqg _]. exact Hqg. }
    destruct (find_sorted _ _ _ _ _ (recentCorrelated_sorted allRequests) Hf Hqr Hqg)
      as [->|Hle]; [lra | exact Hle].
  - left. split; [|reflexivity].
    intros p Hin. rewrite temporalParent_inChainGap.
    destruct (Js.truthy (correlatedActionId p)) eqn:Hc; [|reflexivity].
    cbn [andb]. destruct (inChainGap c r p) eqn:Hg; [|reflexivity].
    exfalso.
    assert (Hpr : In p (recentCorrelated allRequests)).
    { apply In_recentCorrelated. split; [exact Hin|]. split; [exact Hc|].
      unfold inChainGap in Hg. apply andb_prop in Hg as [Hg _].
      apply andb_prop in Hg as [Hg _]. exact Hg. }
    pose proof (find_none _ _ Hf p Hpr) as Hn. congruence.
Qed.

Lemma head_filter_firstSuch {A} (test : A -> bool) l x :
  head (List.filter test l) = Some x <-> firstSuch test l x.
Proof.
  unfold firstSuch. induction l as [|y l IH]; cbn [List.filter].
  - split; [discriminate|]. intros (l1 & l2 & H & _). destruct l1; discriminate.
  - destruct (test y) eqn:Hy.
    + cbn [head]. split.
      * intros [= ->]. exists [], l. split; [reflexivity|]. split; [exact Hy|]. intros ? [].
      * intros (l1 & l2 & H & Hx & Hn). destruct l1 as [|z l1].
        -- injection H as -> _. reflexivity.
        -- injection H as -> _. rewrite (Hn z) in Hy; [discriminate | left; reflexivity].
    + rewrite IH. split.
      * intros (l1 & l2 & -> & Hx & Hn). exists (y :: l1), l2.
        split; [reflexivity|]. split; [exact Hx|].
        intros z [<-|Hz]; [exact Hy | exact (Hn z Hz)].
      * intros (l1 & l2 & H & Hx & Hn). destruct l1 as [|z l1].
        -- injection H as -> _. congruence.
        -- injection H as -> ->. exists l1, l2. split; [reflexivity|].
           split; [exact Hx|]. intros w Hw. apply Hn. right. exact Hw.
Qed.

Lemma preflightParent_spec c r allRequests m :
  preflightParent c r allRequests = Some m <->
  isPreflight r = true /\
  exists parent a,
    firstSuch (fun p => Js.strict_eq (init_requestId (initiator r)) (id p))
      allRequests parent /\
    Js.truthy (correlatedActionId parent) = true /\
    getAction (default "" (correlatedActionId parent)) c = Some a /\
    m = mkMatch a 0.85 chain.
Proof.
  unfold preflightParent. fold (isPreflight r).
  destruct (isPreflight r); [|split; [discriminate | intros [? _]; discriminate]].
  split.
  - intros H. split; [reflexivity|].
    destruct (head _) as [parent|] eqn:Hh; [|discriminate].
    destruct (Js.truthy (correlatedActionId parent)) eqn:Hc; [|discriminate].
    destruct (getAction _ c) as [a|] eqn:Ha; [|discriminate].
    injection H as <-. exists parent, a.
    split; [apply head_filter_firstSuch, Hh|]. auto.
  - intros (_ & parent & a & Hf & Hc & Ha & ->).
    apply head_filter_firstSuch in Hf. rewrite Hf, Hc, Ha. reflexivity.
Qed.

Lemma scored_nil c r (window : list (nat * TrackedAction)) :
  (forall a, In a window -> computeScore a.2 r < minConfidence (options c)) ->
  List.filter (fun s : (nat * TrackedAction) * R => Rleb (minConfidence (options c)) s.2)
    (map (fun action => (action, computeScore action.2 r)) window) = [].
Proof.
  induction window as [|a l IH]; [reflexivity|].
  intros H. cbn [map List.filter]. cbn [snd].
  rewrite Rleb_false by (apply H; left; reflexivity).
  apply IH. intros x Hx. apply H. right. exact Hx.
Qed.

End chain_facts.

(** C6, amended.  [correlateRequest] returns the result of the chain
    search [matchByChain] whenever no recorded action lies inside the
    timing window [-10 ms, maxCorrelationWindow] of the request.  When
    actions lie inside the window, the stack trace gives no match and every
    action in the window scores below [minConfidence], the result is
    [null] -- unless the request is a preflight, for which Layer 0 has run
    the chain search before, and its result is returned.

    The chain search itself: its first check succeeds exactly for a
    preflight whose request, the first one in [allRequests] with the ID the
    initiator names, is correlated to a recorded action; the result is that
    action with confidence 0.85.  Otherwise the result is [null] when no
    request is a temporal parent (correlated to a recorded action, with a
    known end time at most 100 ms before the start of this request), and
    else the action of a temporal parent whose end time is the latest among
    the temporal parents, with confidence 0.5 and method [chain]. *)
Theorem layer4_chain_search
    (c : Correlator.t) (r : CapturedRequest) (allRequests : list CapturedRequest) :
  (List.filter (fun a => Correlator.inWindow c r a.2) (Correlator.refs c) = [] ->
   Correlator.correlateRequest c r allRequests
   = Correlator.matchByChain c r allRequests) /\
  (List.filter (fun a => Correlator.inWindow c r a.2) (Correlator.refs c) <> [] ->
   Correlator.matchByStackTrace c r = None ->
   (forall a, In a (Correlator.refs c) -> Correlator.inWindow c r a.2 = true ->
              (Correlator.computeScore a.2 r
               < Correlator.minConfidence (Correlator.options c))%R) ->
   Correlator.correlateRequest c r allRequests
   = if Correlator.isPreflight r then Correlator.matchByChain c r allRequests else None) /\
  (forall m,
     Correlator.preflightParent c r allRequests = Some m <->
     Correlator.isPreflight r = true /\
     exists parent a,
       Correlator.firstSuch (fun p => Js.strict_eq (init_requestId (initiator r)) (id p))
         allRequests parent /\
       Js.truthy (correlatedActionId parent) = true /\
       Correlator.getAction (default "" (correlatedActionId parent)) c = Some a /\
       m = Correlator.mkMatch a 0.85 chain) /\
  (forall m,
     Correlator.preflightParent c r allRequests = Some m ->
     Correlator.matchByChain c r allRequests = Some m) /\
  (Correlator.preflightParent c r allRequests = None ->
   (forall p, In p allRequests -> Correlator.temporalParent c r p = false) ->
   Correlator.matchByChain c r allRequests = None) /\
  (Correlator.preflightParent c r allRequests = None ->
   forall q, In q allRequests -> Correlator.temporalParent c r q = true ->
   exists p a,
     Correlator.matchByChain c r allRequests = Some (Correlator.mkMatch a 0.5 chain) /\
     In p allRequests /\ Correlator.temporalParent c r p = true /\
     Correlator.getAction (default "" (correlatedActionId p)) c = Some a /\
     forall q', In q' allRequests -> Correlator.temporalParent c r q' = true ->
                (Correlator.endOrZero q' <= Correlator.endOrZero p)%R).
Proof.
  assert (Hstack : List.filter (fun a => Correlator.inWindow c r a.2) (Correlator.refs c) = [] ->
                   Correlator.matchByStackTrace c r = None).
  { intros Hnone. unfold Correlator.matchByStackTrace.
    destruct (init_stack (initiator r)); [|reflexivity].
    destruct (Correlator.extractEventOrigin _) as [[eventType asyncDepth]|];
      [|reflexivity].
    rewrite (filter_andb_nil _ (fun a => Correlator.inWindow c r a.2) _ Hnone).
    reflexivity. }
  split; [|split; [|split; [|split; [|split]]]].
  - intros Hnone. unfold Correlator.correlateRequest.
    rewrite (Hstack Hnone), Hnone.
    destruct (_ && _); [|reflexivity].
    destruct (Correlator.matchByChain c r allRequests); reflexivity.
  - intros Hsome Hst Hlow. unfold Correlator.correlateRequest.
    fold (Correlator.isPreflight r). rewrite Hst.
    destruct (List.filter _ (Correlator.refs c)) as [|a0 rest] eqn:Hw; [congruence|].
    rewrite scored_nil.
    + cbn [sortBy fold_right].
      destruct (Correlator.isPreflight r); [|reflexivity].
      destruct (Correlator.matchByChain c r allRequests); reflexivity.
    + intros a Ha. rewrite <- Hw in Ha. apply filter_In in Ha as [Ha1 Ha2].
      exact (Hlow a Ha1 Ha2).
  - intros m. apply preflightParent_spec.
  - intros m Hp. unfold Correlator.matchByChain. rewrite Hp. reflexivity.
  - intros Hp Hnone. unfold Correlator.matchByChain. rewrite Hp.
    destruct (temporalChain_recent c r allRequests) as [[_ H]|(p & a & _ & Hin & Ht & _)];
      [exact H|].
    rewrite (Hnone p Hin) in Ht. discriminate.
  - intros Hp q Hq Hqt. unfold Correlator.matchByChain. rewrite Hp.
    destruct (temporalChain_recent c r allRequests) as [[Hnone _]|H]; [|exact H].
    rewrite (Hnone q Hq) in Hqt. discriminate.
Qed.

Lemma layer4_chain_search_witness :
  (Correlator.correlateRequest (Fixtures.withActions [Fixtures.oldScroll])
     Fixtures.chainChild [Fixtures.chainParent; Fixtures.chainChild]
   = Correlator.matchByChain (Fixtures.withActions [Fixtures.oldScroll])
       Fixtures.chainChild [Fixtures.chainParent; Fixtures.chainChild]) /\
  (exists p a,
     Correlator.matchByChain (Fixtures.withActions [Fixtures.oldScroll])
       Fixtures.chainChild [Fixtures.chainParent; Fixtures.chainChild]
     = Some (Correlator.mkMatch a 0.5 chain) /\
     In p [Fixtures.chainParent; Fixtures.chainChild] /\
     Correlator.temporalParent (Fixtures.withActions [Fixtures.oldScroll]) Fixtures.chainChild p = true /\
     Correlator.getAction (default "" (correlatedActionId p))
       (Fixtures.withActions [Fixtures.oldScroll]) = Some a /\
     forall q, In q [Fixtures.chainParent; Fixtures.chainChild] ->
               Correlator.temporalParent (Fixtures.withActions [Fixtures.oldScroll])
                 Fixtures.chainChild q = true ->
               (Correlator.endOrZero q <= Correlator.endOrZero p)%R) /\
  Correlator.correlateRequest (Fixtures.withActions [Fixtures.scrollAction])
    Fixtures.chainChild [Fixtures.chainParent; Fixtures.chainChild]
  = if Correlator.isPreflight Fixtures.chainChild
    then Correlator.matchByChain (Fixtures.withActions [Fixtures.scrollAction])
           Fixtures.chainChild [Fixtures.chainParent; Fixtures.chainChild]
    else None.
Proof.
  destruct (layer4_chain_search (Fixtures.withActions [Fixtures.oldScroll])
              Fixtures.chainChild [Fixtures.chainParent; Fixtures.chainChild])
    as (H1 & _ & _ & _ & _ & H4).
  destruct (layer4_chain_search (Fixtures.withActions [Fixtures.scrollAction])
              Fixtures.chainChild [Fixtures.chainParent; Fixtures.chainChild])
    as (_ & H2 & _).
  split; [apply H1; jsRun; reflexivity|].
  split.
  - apply (H4 eq_refl Fixtures.chainParent); [left; reflexivity|].
    jsRun. reflexivity.
  - apply H2.
    + jsRun. discriminate.
    + reflexivity.
    + intros a [<-|[]] _. exact scroll_score_low.
Defined.

Section sort_facts.
#[local] Open Scope R_scope.
Context {A : Type} (f : A -> R).

Lemma insertSorted_sorted x l :
  StronglySorted (fun a b => f a <= f b) l ->
  StronglySorted (fun a b => f a <= f b)
    (insertSorted (fun a b => Rltb (f a - f b) 0) x l).
Proof.
  induction 1 as [|y l Hs IH Hy]; cbn.
  - repeat constructor.
  - destruct (Rltb_spec (f y - f x) 0) as [Hlt|Hge].
    + constructor; [exact IH|].
      apply List.Forall_forall. intros z Hz.
      apply In_insertSorted in Hz as [->|Hz]; [lra|].
      rewrite List.Forall_forall in Hy. exact (Hy z Hz).
    + constructor; [constructor; assumption|].
      constructor; [lra|].
      rewrite List.Forall_forall in Hy |- *. intros z Hz.
      pose proof (Hy z Hz). lra.
Qed.

Lemma sortBy_sorted l :
  StronglySorted (fun a b => f a <= f b) (sortBy (fun a b => Rltb (f a - f b) 0) l).
Proof.
  induction l as [|x l IH]; [constructor|].
  rewrite sortBy_cons. apply insertSorted_sorted, IH.
Qed.

End sort_facts.

Section order_facts.
#[local] Open Scope R_scope.
Import Correlator.
Variable JSON_parse : string -> option JsonValue.

(** The results of [correlateAll] come in the order of the timestamps of
    their actions. *)
Theorem correlateAll_results_by_timestamp (c : t) (requests : list CapturedRequest) :
  StronglySorted
    (fun a b => action_timestamp (result_action a).2
                <= action_timestamp (result_action b).2)
    (correlateAll JSON_parse c requests).2.
Proof.
  unfold correlateAll.
  destruct (fold_left (correlateAllStep c) _ _) as [all results].
  destruct (fold_left _ results (c, [])) as [c' finalized]. cbn [snd].
  apply (sortBy_sorted (fun a => action_timestamp (result_action a).2)).
Qed.

Lemma objects_sortPositions all positions :
  objects all (sortPositions all positions)
  = map snd (sortBy (fun a b : nat * CapturedRequest => byStartTime a.2 b.2)
               (omap (fun i => pair i <$> all !! i) positions)).
Proof.
  unfold sortPositions, objects.
  set (l := sortBy _ _).
  assert (Hl : forall p, In p l -> all !! p.1 = Some p.2).
  { intros [i r] Hp. apply In_sortBy in Hp.
    apply list_elem_of_In, list_elem_of_omap in Hp as (j & _ & Hj).
    destruct (all !! j) as [r'|] eqn:E; [|discriminate].
    cbn in Hj. injection Hj as <- <-. exact E. }
  clearbody l. induction l as [|[i r] l IH]; [reflexivity|].
  pose proof (Hl (i, r) (or_introl eq_refl)) as Hi. cbn [fst snd] in Hi.
  cbn [map fst snd].
  change (omap (fun i => all !! i) (i :: map fst l))
    with (match all !! i with
          | Some y => y :: omap (fun i => all !! i) (map fst l)
          | None => omap (fun i => all !! i) (map fst l)
          end).
  rewrite Hi, IH; [reflexivity|]. intros p Hp. apply Hl. right. exact Hp.
Qed.

(** The requests of a [correlateAction] result come in the order of their
    start times. *)
Theorem correlateAction_requests_by_startTime
    (c : t) (actionId : string) (requests : list CapturedRequest)
    (res : CorrelationResult) :
  (correlateAction JSON_parse c actionId requests).2 = Some res ->
  StronglySorted
    (fun a b => startTime (timing a) <= startTime (timing b))
    (objects (correlateAction JSON_parse c actionId requests).1.2
             (result_requests res)).
Proof.
  unfold correlateAction.
  destruct (getAction actionId c) as [[k action]|]; [|discriminate].
  destruct (fold_left _ _ _) as [[all correlated] total].
  destruct correlated as [|i0 correlated]; [discriminate|].
  cbn [fst snd]. intros [= <-]. cbn [result_requests].
  rewrite objects_sortPositions.
  pose proof (sortBy_sorted (fun p : nat * CapturedRequest => startTime (timing p.2))
                (omap (fun i => pair i <$> all !! i) (i0 :: correlated))) as Hs.
  unfold byStartTime.
  induction Hs as [|p l Hs IH Hp]; cbn [map]; constructor; [exact IH|].
  rewrite List.Forall_forall in Hp |- *. intros r Hr.
  apply in_map_iff in Hr as (q & <- & Hq). exact (Hp q Hq).
Qed.

End order_facts.

Section perm_facts.
Context {A : Type} (before : A -> A -> bool).

Lemma insertSorted_Permutation x l : Permutation (insertSorted before x l) (x :: l).
Proof.
  induction l as [|y l IH]; cbn [insertSorted]; [reflexivity|].
  destruct (before y x); [|reflexivity].
  rewrite IH. apply perm_swap.
Qed.

Lemma sortBy_Permutation l : Permutation (sortBy before l) l.
Proof.
  induction l as [|x l IH]; [reflexivity|].
  rewrite sortBy_cons, insertSorted_Permutation, IH. reflexivity.
Qed.
End perm_facts.

Section more_correlator_facts.
#[local] Open Scope R_scope.
Import Correlator.

(** For every action in the timing window of a request the proximity term
    is positive and below 0.375: the window admits a request that starts
    up to 10 ms before the action. *)
Theorem proximity_in_window (c : t) (r : CapturedRequest) (a : TrackedAction) :
  inWindow c r a = true ->
  0 < proximity (startTime (timing r) - action_timestamp a) <= 0.375.
Proof.
  unfold inWindow. cbv zeta. intros H. apply andb_prop in H as [H _].
  destruct (Rleb_spec (-10) (startTime (timing r) - action_timestamp a)) as [Hd|];
    [|discriminate].
  set (d := startTime (timing r) - action_timestamp a) in *.
  split; [apply proximity_pos|]. unfold proximity.
  assert (H1 : exp (- d / 150) <= exp (1 / 15)).
  { destruct (Req_dec_T (- d / 150) (1 / 15)) as [->|Hne]; [lra|].
    left. apply exp_increasing. lra. }
  assert (H2 : exp (1 / 15) <= 15 / 14).
  { pose proof (exp_ineq1_le (- (1 / 15))) as H3.
    rewrite exp_Ropp in H3.
    pose proof (exp_pos (1 / 15)) as Hp.
    assert (H4 : 14 / 15 * exp (1 / 15) <= / exp (1 / 15) * exp (1 / 15)).
    { apply Rmult_le_compat_r; lra. }
    rewrite Rinv_l in H4 by lra. lra. }
  lra.
Qed.

Lemma refs_recordAction a c :
  refs (recordAction a c) = (refs c ++ [(length (actions c), a)])%list.
Proof.
  unfold refs, recordAction. cbn [actions]. rewrite imap_app. cbn.
  rewrite Nat.add_0_r. reflexivity.
Qed.

(** [getAction] returns the first action recorded under an ID: recording
    an action makes its ID resolvable when it was not, and never changes
    what an ID resolved to before. *)
Theorem getAction_recordAction (actionId : string) (a : TrackedAction) (c : t) :
  getAction actionId (recordAction a c)
  = match getAction actionId c with
    | Some found => Some found
    | None => if String.eqb (action_id a) actionId
              then Some (length (actions c), a) else None
    end.
Proof.
  unfold getAction. rewrite refs_recordAction, List.filter_app.
  destruct (List.filter _ (refs c)) as [|x l]; [|reflexivity].
  cbn. destruct (String.eqb (action_id a) actionId); reflexivity.
Qed.

Lemma sequentialPairs_spec sorted ch :
  In ch (sequentialPairs sorted) ->
  exists before current next after t,
    sorted = (before ++ current :: next :: after)%list /\
    endTime (timing current) = Some t /\ t <> 0 /\
    0 <= startTime (timing next) - t <= 50 /\
    ch = {| chain_type := sequential; requestIds := [id current; id next] |}.
Proof.
  induction sorted as [|current rest IH]; [intros []|].
  destruct rest as [|next after]; [intros []|].
  cbn [sequentialPairs]. intros H. apply in_app_or in H as [H|H].
  - destruct (truthyNumber (endTime (timing current))) eqn:Ht; [|destruct H].
    apply truthyNumber_true in Ht as (t & Ht & Hne). rewrite Ht in H.
    change (default 0 (Some t)) with t in H.
    destruct (Rleb_spec 0 (startTime (timing next) - t)) as [H0|];
      [|exact (False_ind _ H)].
    destruct (Rleb_spec (startTime (timing next) - t) 50) as [H1|];
      [|exact (False_ind _ H)].
    destruct H as [<-|[]].
    exists [], current, next, after, t. repeat split; assumption.
  - destruct (IH H) as (before & cur & nxt & aft & t & Hs & Hrest).
    exists (current :: before), cur, nxt, aft, t. rewrite Hs. split; [reflexivity|exact Hrest].
Qed.

Lemma StronglySorted_app_r {A} (R : A -> A -> Prop) l1 l2 :
  StronglySorted R (l1 ++ l2)%list -> StronglySorted R l2.
Proof.
  induction l1 as [|x l1 IH]; [auto|]. cbn. intros H.
  apply StronglySorted_inv in H as [H _]. exact (IH H).
Qed.

(** A sequential chain links two requests that are adjacent when the
    requests of the group are put in the order of their start times, the
    second starting at most 50 ms after the known end of the first. *)
Theorem detectSequentialChains_spec (requests : list CapturedRequest) (ch : RequestChain) :
  In ch (detectSequentialChains requests) ->
  exists before current next after t,
    Permutation (before ++ current :: next :: after) requests /\
    StronglySorted (fun a b => startTime (timing a) <= startTime (timing b))
      (before ++ current :: next :: after) /\
    endTime (timing current) = Some t /\ t <> 0 /\
    0 <= startTime (timing next) - t <= 50 /\
    chain_type ch = sequential /\ requestIds ch = [id current; id next].
Proof.
  unfold detectSequentialChains. intros H.
  apply sequentialPairs_spec in H
    as (before & current & next & after & t & Hs & Ht & Hne & Hgap & ->).
  exists before, current, next, after, t.
  split; [rewrite <- Hs; apply sortBy_Permutation|].
  split.
  - pose proof (sortBy_sorted (fun x : CapturedRequest => startTime (timing x)) requests) as Hsd.
    cbv beta in Hsd. unfold byStartTime in Hs. rewrite Hs in Hsd. exact Hsd.
  - repeat split; try assumption; apply Hgap.
Qed.

End more_correlator_facts.

(** * Further properties of the network capture *)

(** ** Entries are held under their request IDs *)

Section keyed_facts.
Import NetworkCapture.

Lemma creates_false_quiet s p :
  creates s p = false ->
  forall params, RequestWillBeSent p = RequestWillBeSent params -> creates s params = false.
Proof. intros Hc params [= <-]. exact Hc. Qed.

(** No event changes the ID of an entry. *)
Lemma id_step s ev l e :
  heap s !! l = Some e ->
  exists e', heap (step s ev) !! l = Some e' /\ id (request e') = id (request e).
Proof.
  intros He.
  assert (Hquiet : (forall params, ev = RequestWillBeSent params -> creates s params = false) ->
            exists e', heap (step s ev) !! l = Some e' /\ id (request e') = id (request e)).
  { intros Hq. destruct (links_quiet s ev l e Hq He) as (e' & He' & Hl).
    apply links_inv in Hl as (Hi & _). eauto. }
  destruct ev as [p|p|p b|p| |k res]; try (apply Hquiet; discriminate).
  destruct (creates s p) eqn:Hc; [|apply Hquiet, creates_false_quiet, Hc].
  rewrite (create_step s p Hc).
  pose proof (create_heap_old s p l e He) as He2.
  destruct (preflightTarget p) as [target|] eqn:Ht.
  - destruct (detectPreflight_target p _ target l e Ht He2) as (e' & He' & Hi & _). eauto.
  - destruct (detectPreflight_plain p _ l e Ht He2) as (e' & He' & Hi & _). eauto.
Qed.

Lemma id_step_back s ev l e' :
  (l < length (heap s))%nat -> heap (step s ev) !! l = Some e' ->
  exists e, heap s !! l = Some e /\ id (request e') = id (request e).
Proof.
  intros Hl He'. apply lookup_lt_is_Some_2 in Hl as [e He]. exists e. split; [exact He|].
  destruct (id_step s ev l e He) as (e1 & He1 & Hi). congruence.
Qed.

Lemma fetches_finalizeRequest requestId l s :
  fetches (finalizeRequest requestId l s) = fetches s.
Proof. apply finalizeRequest_frame. Qed.

Lemma member_finalizeRequest requestId l s k l' :
  member (finalizeRequest requestId l s) k l' ->
  member s k l' \/ (k = requestId /\ l' = l).
Proof.
  unfold member.
  destruct (finalizeRequest_frame requestId l s) as (_ & _ & _ & _ & -> & ->).
  intros [H|[H|H]].
  - left. left. exact (In_delete _ _ _ H).
  - apply finalizeRequest_requests_In in H as [[= -> ->]|H]; auto.
  - auto.
Qed.

(** What an event adds to the maps and the outstanding fetches: the entry
    of a new request, and nothing else. *)
Lemma member_step s ev k l :
  member (step s ev) k l ->
  member s k l \/
  exists p, ev = RequestWillBeSent p /\ creates s p = true /\
            k = rws_requestId p /\ l = length (heap s).
Proof.
  destruct ev as [p|p|p b|p| |kf res]; cbn [step].
  - destruct (creates s p) eqn:Hc.
    + change (handleRequestWillBeSent p s) with (step s (RequestWillBeSent p)).
      rewrite (create_step s p Hc). unfold member.
      destruct (control_inv _ _ (detectPreflight_control p
                  (createRequest p (computeOffset p s))))
        as (-> & _ & _ & _ & _ & -> & ->).
      rewrite create_pending, create_requests.
      destruct (computeOffset_frame p s) as (_ & _ & _ & _ & _ & _ & Hf).
      cbn [createRequest fetches set_nextIndex set_pending set_heap]. rewrite Hf.
      intros [H|[H|H]]; auto.
      apply In_set in H as [[= -> ->]|H]; [|auto]. right. exists p. auto.
    + intros H. left. revert H. unfold member, creates in *.
      unfold handleRequestWillBeSent.
      destruct (shouldExclude s _); [auto|]. cbn in Hc.
      destruct (computeOffset_frame p s) as (Hr & _ & _ & _ & Hp & _ & Hf).
      rewrite Hp.
      destruct (rws_redirectResponse p) as [rr|]; [|discriminate].
      destruct (JsMap.get (rws_requestId p) (pending s)) as [l0|]; [|discriminate].
      cbn. rewrite Hr, Hp, Hf. auto.
  - unfold handleResponseReceived. destruct (JsMap.get _ _); auto.
  - unfold handleLoadingFinished.
    destruct (JsMap.get (lf_requestId p) (pending s)) as [l0|] eqn:Hl; [|auto].
    match goal with |- context [if ?c then _ else _] => destruct c end.
    + unfold member. cbn. intros [H|[H|H]]; auto.
      apply in_app_or in H as [H|[[= <- <-]|[]]]; auto.
      left. left. exact (get_In _ _ _ Hl).
    + intros H. apply member_finalizeRequest in H as [H|[-> ->]].
      * left. exact H.
      * left. left. exact (get_In _ _ _ Hl).
  - unfold handleLoadingFailed.
    destruct (JsMap.get (lx_requestId p) (pending s)) as [l0|] eqn:Hl; [|auto].
    intros H. apply member_finalizeRequest in H as [H|[-> ->]].
    + left. exact H.
    + left. left. exact (get_In _ _ _ Hl).
  - unfold member. cbn. intros [[]|[[]|H]]. auto.
  - unfold fetchSettled.
    destruct (fetches s !! kf) as [[rid l0]|] eqn:Hk; [|auto].
    intros H. apply member_finalizeRequest in H as [H|[-> ->]].
    + left. unfold member in *.
      destruct res as [[[body b64]|]|]; cbn in H;
        (destruct H as [H|[H|H]];
         [left; exact H | right; left; exact H
         | right; right; exact (In_list_delete _ _ _ H)]).
    + left. right. right. exact (lookup_In _ _ _ Hk).
Qed.

Lemma keyed_step s ev : valid s -> keyed s -> keyed (step s ev).
Proof.
  intros Hv Hk k l e' Hm He'.
  apply member_step in Hm as [Hm|(p & -> & Hc & -> & ->)].
  - assert (Hl : (l < length (heap s))%nat).
    { destruct Hv as (Hp & Hr & Hf).
      destruct Hm as [H|[H|H]];
        [ exact (locsBelow_In _ _ _ _ Hp H) | exact (locsBelow_In _ _ _ _ Hr H)
        | exact (locsBelow_In _ _ _ _ Hf H) ]. }
    destruct (id_step_back s ev l e' Hl He') as (e & He & ->).
    exact (Hk k l e Hm He).
  - rewrite (create_step s p Hc) in He'.
    pose proof (create_heap_new s p) as Hnew.
    destruct (preflightTarget p) as [target|] eqn:Ht.
    + destruct (detectPreflight_target p _ target _ _ Ht Hnew) as (e1 & He1 & Hi & _).
      rewrite He1 in He'. injection He' as <-. exact Hi.
    + destruct (detectPreflight_plain p _ _ _ Ht Hnew) as (e1 & He1 & Hi & _).
      rewrite He1 in He'. injection He' as <-. exact Hi.
Qed.

Lemma keyed_run es s : valid s -> keyed s -> keyed (run s es).
Proof.
  revert s. induction es as [|e es IH]; intros s Hv Hk; [exact Hk|].
  rewrite run_cons. apply IH; [apply valid_step, Hv | apply keyed_step; assumption].
Qed.

Lemma keyed_new o : keyed (new o).
Proof. intros k l e _ He. cbn in He. rewrite lookup_nil in He. discriminate. Qed.

End keyed_facts.

(** After every event sequence, a record that [getRequest] finds under a
    request ID has that ID. *)
Theorem getRequest_returns_own_id
    (o : NetworkCapture.Options) (es : list NetworkCapture.Event)
    (requestId : string) (r : CapturedRequest) :
  NetworkCapture.getRequest requestId (NetworkCapture.run (NetworkCapture.new o) es)
    = Some r ->
  id r = requestId.
Proof.
  intros H. apply getRequest_Some in H as (l & e & Hin & He & -> & _).
  apply (keyed_run es (NetworkCapture.new o) (valid_new o) (keyed_new o) requestId l e);
    [right; left; exact Hin | exact He].
Qed.

Section count_facts.
Import NetworkCapture.
Context {V : Type}.
Implicit Types (m : list (string * V)).

Lemma size_set k v m : (JsMap.size (JsMap.set k v m) <= S (JsMap.size m))%nat.
Proof.
  unfold JsMap.size. induction m as [|[k' v'] m IH]; cbn; [lia|].
  destruct (String.eqb k k'); cbn; lia.
Qed.

Lemma size_delete k m : (JsMap.size (JsMap.delete k m) <= JsMap.size m)%nat.
Proof.
  unfold JsMap.size. induction m as [|[k' v'] m IH]; cbn; [lia|].
  destruct (String.eqb k k'); cbn; lia.
Qed.

Lemma size_delete_Some k v m :
  JsMap.get k m = Some v -> S (JsMap.size (JsMap.delete k m)) = JsMap.size m.
Proof.
  unfold JsMap.size. induction m as [|[k' v'] m IH]; cbn; [discriminate|].
  destruct (String.eqb k k'); cbn; [reflexivity|].
  intros H. rewrite (IH H). reflexivity.
Qed.

End count_facts.

Section count_steps.
Import NetworkCapture.

Lemma finalizeRequest_requests requestId l s :
  exists m, requests (finalizeRequest requestId l s) = JsMap.set requestId l m /\
            (m = requests s \/
             exists oldest rest, requestOrder s = oldest :: rest /\
                                 m = JsMap.delete oldest (requests s)).
Proof.
  unfold finalizeRequest. cbn.
  branches; cbn; eexists; (split; [reflexivity|]);
    try (left; reflexivity); right; eauto.
Qed.

Lemma finalizeRequest_size requestId l s :
  (JsMap.size (requests (finalizeRequest requestId l s)) <= S (JsMap.size (requests s)))%nat.
Proof.
  destruct (finalizeRequest_requests requestId l s) as (m & -> & Hm).
  pose proof (size_set requestId l m).
  destruct Hm as [->|(oldest & rest & _ & ->)]; [lia|].
  pose proof (size_delete oldest (requests s)). lia.
Qed.

Lemma finalizeRequest_count requestId l l' s :
  JsMap.get requestId (pending s) = Some l' ->
  (JsMap.size (pending (finalizeRequest requestId l s)) +
   JsMap.size (requests (finalizeRequest requestId l s))
   <= JsMap.size (pending s) + JsMap.size (requests s))%nat.
Proof.
  intros Hg. pose proof (finalizeRequest_size requestId l s) as Hs.
  destruct (finalizeRequest_frame requestId l s) as (_ & _ & _ & _ & _ & ->).
  pose proof (size_delete_Some _ _ _ Hg). lia.
Qed.

Lemma fetchesPending_get s rid l :
  fetchesPending s = true -> In (rid, l) (fetches s) ->
  JsMap.get rid (pending s) = Some l.
Proof.
  unfold fetchesPending. rewrite forallb_forall. intros H Hin.
  specialize (H _ Hin). cbn in H.
  destruct (JsMap.get rid (pending s)) as [l'|]; [|discriminate].
  apply Nat.eqb_eq in H as ->. reflexivity.
Qed.

Lemma count_step s ev :
  fetchesPending s = true ->
  (pendingCount s + size s <= nextIndex s)%nat ->
  (pendingCount (step s ev) + size (step s ev) <= nextIndex (step s ev))%nat.
Proof.
  unfold pendingCount, size. intros Hf Hc.
  destruct ev as [p|p|p b|p| |kf res]; cbn [step].
  - destruct (creates s p) eqn:Hcr.
    + change (handleRequestWillBeSent p s) with (step s (RequestWillBeSent p)).
      rewrite (create_step s p Hcr).
      destruct (control_inv _ _ (detectPreflight_control p
                  (createRequest p (computeOffset p s))))
        as (-> & _ & -> & _ & _ & -> & _).
      rewrite create_pending, create_requests.
      destruct (computeOffset_frame p s) as (_ & _ & Hn & _).
      cbn [createRequest nextIndex set_nextIndex]. rewrite Hn.
      pose proof (size_set (rws_requestId p) (length (heap s)) (pending s)). lia.
    + unfold creates in Hcr. unfold handleRequestWillBeSent.
      destruct (shouldExclude s _); [exact Hc|]. cbn in Hcr.
      destruct (computeOffset_frame p s) as (Hr & _ & Hn & _ & Hp & _).
      rewrite Hp.
      destruct (rws_redirectResponse p) as [rr|]; [|discriminate].
      destruct (JsMap.get (rws_requestId p) (pending s)) as [l0|]; [|discriminate].
      cbn. rewrite Hr, Hp, Hn. exact Hc.
  - unfold handleResponseReceived. destruct (JsMap.get _ _); exact Hc.
  - unfold handleLoadingFinished.
    destruct (JsMap.get (lf_requestId p) (pending s)) as [l0|] eqn:Hl; [|exact Hc].
    match goal with |- context [if ?c then _ else _] => destruct c end; [exact Hc|].
    match goal with
    | |- context [finalizeRequest ?a ?b ?c] =>
        pose proof (finalizeRequest_count a b l0 c Hl) as Hcount;
        destruct (finalizeRequest_frame a b c) as (Hn & _);
        change (pending c) with (pending s) in Hcount;
        change (requests c) with (requests s) in Hcount;
        change (nextIndex c) with (nextIndex s) in Hn
    end.
    rewrite Hn. lia.
  - unfold handleLoadingFailed.
    destruct (JsMap.get (lx_requestId p) (pending s)) as [l0|] eqn:Hl; [|exact Hc].
    match goal with
    | |- context [finalizeRequest ?a ?b ?c] =>
        pose proof (finalizeRequest_count a b l0 c Hl) as Hcount;
        destruct (finalizeRequest_frame a b c) as (Hn & _);
        change (pending c) with (pending s) in Hcount;
        change (requests c) with (requests s) in Hcount;
        change (nextIndex c) with (nextIndex s) in Hn
    end.
    rewrite Hn. lia.
  - cbn. lia.
  - unfold fetchSettled.
    destruct (fetches s !! kf) as [[rid l0]|] eqn:Hk; [|exact Hc].
    pose proof (fetchesPending_get s rid l0 Hf (lookup_In _ _ _ Hk)) as Hg.
    match goal with
    | |- context [finalizeRequest ?a ?b ?c] =>
        assert (Hg' : JsMap.get a (pending c) = Some l0)
          by (destruct res as [[[body b64]|]|]; exact Hg);
        pose proof (finalizeRequest_count a b l0 c Hg') as Hcount;
        destruct (finalizeRequest_frame a b c) as (Hn & _);
        assert (Hsame : pending c = pending s /\ requests c = requests s /\
                        nextIndex c = nextIndex s)
          by (destruct res as [[[body b64]|]|]; repeat split);
        destruct Hsame as (Hp1 & Hr1 & Hn1);
        rewrite Hp1, Hr1 in Hcount; rewrite Hn1 in Hn
    end.
    rewrite Hn. lia.
Qed.

Lemma count_run es s :
  fetchesPending s = true -> fetchesLive s es = true ->
  (pendingCount s + size s <= nextIndex s)%nat ->
  (pendingCount (run s es) + size (run s es) <= nextIndex (run s es))%nat.
Proof.
  revert s. induction es as [|e es IH]; intros s Hf Hl Hc; [exact Hc|].
  cbn [fetchesLive] in Hl. apply andb_prop in Hl as [Hf' Hl].
  rewrite run_cons. apply IH; [exact Hf' | exact Hl | apply count_step; assumption].
Qed.

End count_steps.

(** As long as no body fetch settles for an entry that is no longer
    pending, the pending and the stored requests together never outnumber
    the index counter. *)
Theorem counts_within_nextIndex (o : NetworkCapture.Options) (es : list NetworkCapture.Event) :
  NetworkCapture.fetchesLive (NetworkCapture.new o) es = true ->
  (NetworkCapture.pendingCount (NetworkCapture.run (NetworkCapture.new o) es) +
   NetworkCapture.size (NetworkCapture.run (NetworkCapture.new o) es)
   <= NetworkCapture.nextIndex (NetworkCapture.run (NetworkCapture.new o) es))%nat.
Proof.
  intros H. apply count_run; [reflexivity | exact H | cbn; lia].
Qed.

Section ignored_events.
Import NetworkCapture.

(** A capture that is told of excluded requests only stays as it was
    created: requests with an excluded URL, and the responses,
    completions, failures and body fetches of requests it does not know,
    are ignored. *)
Theorem excluded_and_unknown_events_ignored (o : Options) (es : list Event) :
  forallb (notCaptured (new o)) es = true ->
  run (new o) es = new o.
Proof.
  induction es as [|e es IH]; [reflexivity|].
  cbn [forallb]. intros H. apply andb_prop in H as [He Hes].
  rewrite run_cons.
  assert (Hs : step (new o) e = new o).
  { destruct e as [p|p|p b|p| |k res]; [|reflexivity..|].
    - cbn [notCaptured] in He. cbn [step]. unfold handleRequestWillBeSent.
      rewrite He. reflexivity.
    - unfold step, fetchSettled. cbn [fetches new]. rewrite lookup_nil. reflexivity. }
  rewrite Hs. exact (IH Hes).
Qed.

End ignored_events.

(** ** The ring buffer under a tidy event source *)

Section keys_facts.
Context {V : Type}.
Implicit Types (m : list (string * V)) (k : string) (v : V).

Lemma In_keys k m : In k (JsMap.keys m) <-> exists v, In (k, v) m.
Proof.
  unfold JsMap.keys. rewrite in_map_iff. split.
  - intros ([k' v] & <- & H). eauto.
  - intros [v H]. exists (k, v). auto.
Qed.

Lemma get_None_keys k m : JsMap.get k m = None <-> ~ In k (JsMap.keys m).
Proof.
  induction m as [|[k' v'] m IH]; cbn; [tauto|].
  destruct (String.eqb_spec k k') as [->|Hne].
  - split; [discriminate | intros H; exfalso; apply H; auto].
  - rewrite IH. split; [intros H [?|?]; [congruence | tauto] | tauto].
Qed.

Lemma get_Some_keys k v m : JsMap.get k m = Some v -> In k (JsMap.keys m).
Proof. intros H. apply In_keys. exists v. exact (get_In _ _ _ H). Qed.

Lemma keys_set_new k v m :
  ~ In k (JsMap.keys m) -> JsMap.set k v m = (m ++ [(k, v)])%list.
Proof.
  induction m as [|[k' v'] m IH]; cbn; [reflexivity|].
  intros H. destruct (String.eqb_spec k k') as [->|Hne]; [tauto|].
  rewrite IH by tauto. reflexivity.
Qed.

Lemma keys_set_in k v m x :
  In x (JsMap.keys (JsMap.set k v m)) <-> x = k \/ In x (JsMap.keys m).
Proof.
  induction m as [|[k' v'] m IH]; cbn; [intuition congruence|].
  destruct (String.eqb_spec k k') as [->|Hne]; cbn; [intuition congruence|].
  rewrite IH. intuition congruence.
Qed.

Lemma NoDup_keys_set k v m : List.NoDup (JsMap.keys m) -> List.NoDup (JsMap.keys (JsMap.set k v m)).
Proof.
  induction m as [|[k' v'] m IH]; cbn; intros H.
  - apply List.NoDup_cons_iff. split; [intros [] | constructor].
  - apply List.NoDup_cons_iff in H as [Hn Hd].
    destruct (String.eqb_spec k k') as [->|Hne]; cbn.
    + apply List.NoDup_cons_iff. auto.
    + apply List.NoDup_cons_iff. split; [|exact (IH Hd)].
      fold (JsMap.keys (JsMap.set k v m)). rewrite keys_set_in.
      intros [?|?]; [congruence | contradiction].
Qed.

Lemma keys_app m1 m2 :
  JsMap.keys (m1 ++ m2)%list = (JsMap.keys m1 ++ JsMap.keys m2)%list.
Proof. apply map_app. Qed.

Lemma keys_delete_in k m x : In x (JsMap.keys (JsMap.delete k m)) -> In x (JsMap.keys m).
Proof.
  rewrite !In_keys. intros [v H]. exists v. exact (In_delete _ _ _ H).
Qed.

Lemma NoDup_keys_delete k m :
  List.NoDup (JsMap.keys m) -> List.NoDup (JsMap.keys (JsMap.delete k m)).
Proof.
  induction m as [|[k' v'] m IH]; cbn; intros H; [constructor|].
  apply List.NoDup_cons_iff in H as [Hn Hd].
  destruct (String.eqb k k'); cbn; [exact Hd|].
  apply List.NoDup_cons_iff. split; [|exact (IH Hd)].
  intros Hx. apply Hn. exact (keys_delete_in _ _ _ Hx).
Qed.

Lemma keys_delete_out k m :
  List.NoDup (JsMap.keys m) -> ~ In k (JsMap.keys (JsMap.delete k m)).
Proof.
  induction m as [|[k' v'] m IH]; cbn; intros H; [tauto|].
  apply List.NoDup_cons_iff in H as [Hn Hd].
  destruct (String.eqb_spec k k') as [->|Hne]; cbn; [exact Hn|].
  intros [?|Hx]; [congruence | exact (IH Hd Hx)].
Qed.

End keys_facts.

Section ring_facts.
Import NetworkCapture.

(** The store and the eviction order after a commit. *)
Lemma finalizeRequest_ring requestId l s :
  (requests (finalizeRequest requestId l s), requestOrder (finalizeRequest requestId l s))
  = if (maxRequests (options s) <=? JsMap.size (requests s))%nat then
      match requestOrder s with
      | oldest :: rest =>
          (JsMap.set requestId l
             (if Js.truthy (Some oldest) then JsMap.delete oldest (requests s)
              else requests s),
           (rest ++ [requestId])%list)
      | [] => (JsMap.set requestId l (requests s), [requestId])
      end
    else (JsMap.set requestId l (requests s), (requestOrder s ++ [requestId])%list).
Proof.
  unfold finalizeRequest, JsMap.size. cbn.
  destruct (maxRequests (options s) <=? length (requests s))%nat; [|reflexivity].
  destruct (requestOrder s) as [|oldest rest] eqn:Ho; cbn; rewrite ?Ho; [reflexivity|].
  destruct (negb (oldest =? "")); reflexivity.
Qed.

Lemma stored_false s k : stored s k = false <-> ~ In k (JsMap.keys (requests s)).
Proof.
  unfold stored, JsMap.has. rewrite <- get_None_keys.
  destruct (JsMap.get k (requests s)); split; intros H; (discriminate H || reflexivity).
Qed.

Lemma fetching_false s k : fetching s k = false <-> ~ In k (JsMap.keys (fetches s)).
Proof.
  unfold fetching. split.
  - intros H Hin. apply In_keys in Hin as [l Hin].
    assert (Ht : existsb (fun kv : string * nat => String.eqb kv.1 k) (fetches s) = true).
    { apply existsb_exists. exists (k, l). split; [exact Hin|]. apply String.eqb_refl. }
    congruence.
  - intros H. destruct (existsb _ _) eqn:E; [|reflexivity]. exfalso. apply H.
    apply existsb_exists in E as ([k' l] & Hin & Hk). cbn in Hk.
    apply String.eqb_eq in Hk as ->. apply In_keys. eauto.
Qed.

Lemma truthy_nonempty k : Js.truthy (Some k) = true <-> k <> "".
Proof.
  cbn. destruct (String.eqb_spec k "") as [->|Hne]; cbn; split; intros H;
    try discriminate; try reflexivity; try exact Hne.
  exfalso. apply H. reflexivity.
Qed.

Lemma ring_frame s s' :
  requests s' = requests s -> requestOrder s' = requestOrder s ->
  pending s' = pending s -> fetches s' = fetches s -> options s' = options s ->
  ring s -> ring s'.
Proof. unfold ring. intros -> -> -> -> ->. auto. Qed.

(** What a commit does to the stored IDs. *)
Lemma commit_keys requestId l s :
  requestOrder s = JsMap.keys (requests s) ->
  (forall k, In k (JsMap.keys (requests s)) -> k <> "") ->
  ~ In requestId (JsMap.keys (requests s)) ->
  JsMap.keys (requests (finalizeRequest requestId l s))
  = ((if (maxRequests (options s) <=? JsMap.size (requests s))%nat
      then tl (JsMap.keys (requests s)) else JsMap.keys (requests s)) ++ [requestId])%list /\
  requestOrder (finalizeRequest requestId l s)
  = JsMap.keys (requests (finalizeRequest requestId l s)) /\
  (forall k l', In (k, l') (requests (finalizeRequest requestId l s)) ->
                (k, l') = (requestId, l) \/ In (k, l') (requests s)).
Proof.
  intros Ho Hnm Hfresh.
  pose proof (finalizeRequest_ring requestId l s) as Hring.
  assert (Hin : forall k l', In (k, l') (requests (finalizeRequest requestId l s)) ->
                (k, l') = (requestId, l) \/ In (k, l') (requests s)).
  { intros k l' H. destruct (finalizeRequest_requests requestId l s) as (m & Hm & Hm').
    rewrite Hm in H. apply In_set in H as [H|H]; [left; exact H|]. right.
    destruct Hm' as [->|(oldest & rest & _ & ->)]; [exact H | exact (In_delete _ _ _ H)]. }
  enough (H2 : JsMap.keys (requests (finalizeRequest requestId l s))
               = ((if (maxRequests (options s) <=? JsMap.size (requests s))%nat
                   then tl (JsMap.keys (requests s)) else JsMap.keys (requests s))
                  ++ [requestId])%list /\
               requestOrder (finalizeRequest requestId l s)
               = JsMap.keys (requests (finalizeRequest requestId l s)))
    by (destruct H2 as [H2 H3]; split; [exact H2 | split; [exact H3 | exact Hin]]).
  clear Hin.
  destruct (maxRequests (options s) <=? JsMap.size (requests s))%nat.
  - destruct (requests s) as [|[oldest v] reqs] eqn:Hreqs.
    + cbn [JsMap.keys map] in Ho. rewrite Ho in Hring.
      pose proof (f_equal fst Hring) as Hr'. pose proof (f_equal snd Hring) as Ho'.
      cbn [fst snd] in Hr', Ho'. rewrite Hr', Ho'. cbn. auto.
    + cbn [JsMap.keys map fst] in Ho. rewrite Ho in Hring.
      fold (JsMap.keys reqs) in Ho, Hring.
      assert (Ht : Js.truthy (Some oldest) = true).
      { apply truthy_nonempty, Hnm. left. reflexivity. }
      rewrite Ht in Hring. cbn [JsMap.delete] in Hring. rewrite String.eqb_refl in Hring.
      pose proof (f_equal fst Hring) as Hr'. pose proof (f_equal snd Hring) as Ho'.
      cbn [fst snd] in Hr', Ho'.
      cbn [JsMap.keys map fst] in Hfresh. fold (JsMap.keys reqs) in Hfresh.
      rewrite (keys_set_new requestId l reqs) in Hr'
        by (intros Hx; apply Hfresh; right; exact Hx).
      rewrite Hr', Ho'. rewrite !keys_app.
      change (JsMap.keys [(requestId, l)]) with [requestId].
      cbn [JsMap.keys map fst tl]. fold (JsMap.keys reqs). auto.
  - pose proof (f_equal fst Hring) as Hr'. pose proof (f_equal snd Hring) as Ho'.
    cbn [fst snd] in Hr', Ho'.
    rewrite (keys_set_new requestId l (requests s) Hfresh) in Hr'.
    rewrite Hr', Ho', Ho. rewrite !keys_app.
    change (JsMap.keys [(requestId, l)]) with [requestId]. auto.
Qed.

Lemma In_tl {A} (x : A) l : In x (tl l) -> In x l.
Proof. destruct l; [auto | intros H; right; exact H]. Qed.

Lemma NoDup_tl {A} (l : list A) : List.NoDup l -> List.NoDup (tl l).
Proof. destruct l; [auto|]. intros H. apply List.NoDup_cons_iff in H. apply H. Qed.

Lemma ring_commit requestId l s :
  requestId <> "" ->
  ~ In requestId (JsMap.keys (requests s)) ->
  ~ In requestId (JsMap.keys (fetches s)) ->
  ring s -> ring (finalizeRequest requestId l s).
Proof.
  intros Hne Hfresh Hnf (Ho & Hnr & Hnp & Hnfe & Hap & Hnm & Hsz).
  destruct (commit_keys requestId l s Ho) as (Hk & Ho' & _);
    [intros k Hk; apply Hnm; auto | exact Hfresh |].
  destruct (finalizeRequest_frame requestId l s) as (_ & Hopt & _ & _ & Hf & Hp).
  assert (Hkp' : forall k, In k (JsMap.keys (JsMap.delete requestId (pending s))) ->
                           In k (JsMap.keys (pending s)) /\ k <> requestId).
  { intros k Hin. split; [exact (keys_delete_in _ _ _ Hin)|].
    intros ->. exact (keys_delete_out _ _ Hnp Hin). }
  set (ks := if (maxRequests (options s) <=? JsMap.size (requests s))%nat
             then tl (JsMap.keys (requests s)) else JsMap.keys (requests s)) in *.
  assert (Hsub : forall k, In k ks -> In k (JsMap.keys (requests s))).
  { intros k. unfold ks. destruct (_ <=? _)%nat; [apply In_tl | auto]. }
  assert (Hnks : List.NoDup ks).
  { unfold ks. destruct (_ <=? _)%nat; [apply NoDup_tl, Hnr | exact Hnr]. }
  unfold ring. rewrite Hp, Hf, Hopt, Hk.
  split; [rewrite Ho', Hk; reflexivity|].
  split.
  { apply List.NoDup_app; [exact Hnks | |].
    - apply List.NoDup_cons_iff; split; [intros [] | constructor].
    - intros x Hx [<-|[]]. exact (Hfresh (Hsub _ Hx)). }
  split; [apply NoDup_keys_delete, Hnp|].
  split; [exact Hnfe|].
  split.
  { intros k Hin Hx. apply in_app_or in Hx as [Hx|[<-|[]]].
    - apply (Hap k); [|exact (Hsub _ Hx)].
      destruct Hin as [Hin|Hin]; [left; exact (proj1 (Hkp' k Hin)) | right; exact Hin].
    - destruct Hin as [Hin|Hin]; [exact (proj2 (Hkp' _ Hin) eq_refl) | exact (Hnf Hin)]. }
  split.
  { intros k [Hin|[Hin|Hin]].
    - apply Hnm. left. exact (proj1 (Hkp' k Hin)).
    - apply in_app_or in Hin as [Hin|[<-|[]]]; [|exact Hne].
      apply Hnm. right. left. exact (Hsub _ Hin).
    - apply Hnm. right. right. exact Hin. }
  unfold JsMap.size, JsMap.keys in *. 
  assert (Hlen : length (requests (finalizeRequest requestId l s))
                 = length (map fst (requests (finalizeRequest requestId l s))))
    by (rewrite length_map; reflexivity).
  rewrite Hlen, Hk, length_app. cbn [length]. unfold ks.
  destruct (Nat.leb_spec (maxRequests (options s)) (length (requests s))) as [Hfull|Hfree].
  - destruct (requests s) as [|x reqs]; cbn [map tl length] in *; rewrite ?length_map; lia.
  - rewrite length_map. lia.
Qed.

Lemma ring_clear s : ring s -> ring (clear s).
Proof.
  intros (Ho & Hnr & Hnp & Hnfe & Hap & Hnm & Hsz).
  unfold ring. cbn [clear requests requestOrder pending fetches options
                    set_timestampOffset set_nextIndex set_pending set_requestOrder
                    set_requests JsMap.keys map].
  split; [reflexivity|]. split; [constructor|]. split; [constructor|].
  split; [exact Hnfe|].
  split; [intros k _ []|].
  split.
  - intros k [[]|[[]|Hk]]. apply Hnm. right. right. exact Hk.
  - unfold JsMap.size. cbn. lia.
Qed.

Lemma keys_list_delete (m : list (string * nat)) i k l :
  m !! i = Some (k, l) -> List.NoDup (JsMap.keys m) ->
  ~ In k (JsMap.keys (delete i m)) /\
  (forall x, In x (JsMap.keys (delete i m)) -> In x (JsMap.keys m)) /\
  List.NoDup (JsMap.keys (delete i m)).
Proof.
  revert i. induction m as [|[k' l'] m IH]; intros i Hi Hn; [rewrite lookup_nil in Hi; discriminate|].
  cbn [JsMap.keys map fst] in Hn. fold (JsMap.keys m) in Hn.
  apply List.NoDup_cons_iff in Hn as [Hk' Hn].
  destruct i as [|i]; cbn in Hi.
  - injection Hi as -> ->. cbn. fold (JsMap.keys m). auto.
  - destruct (IH i Hi Hn) as (H1 & H2 & H3).
    change (delete (S i) ((k', l') :: m)) with ((k', l') :: delete i m).
    cbn [JsMap.keys map fst]. fold (JsMap.keys (delete i m)). fold (JsMap.keys m).
    split; [|split].
    + intros [->|H]; [|exact (H1 H)]. apply Hk'. apply In_keys. exists l.
      exact (lookup_In _ _ _ Hi).
    + intros x [->|H]; [left; reflexivity | right; exact (H2 x H)].
    + apply List.NoDup_cons_iff. split; [|exact H3]. intros H. exact (Hk' (H2 _ H)).
Qed.

Lemma ring_step s ev : tidyEvent s ev = true -> ring s -> ring (step s ev).
Proof.
  intros Ht Hr. destruct ev as [p|p|p b|p| |kf res]; cbn [step].
  - cbn [tidyEvent] in Ht. destruct (creates s p) eqn:Hc.
    + change (handleRequestWillBeSent p s) with (step s (RequestWillBeSent p)).
      rewrite (create_step s p Hc).
      apply andb_prop in Ht as [Ht Hnf]. apply andb_prop in Ht as [Hne Hns].
      apply negb_true_iff in Hnf, Hns.
      apply truthy_nonempty in Hne. apply stored_false in Hns. apply fetching_false in Hnf.
      destruct (control_inv _ _ (detectPreflight_control p
                  (createRequest p (computeOffset p s))))
        as (Hr' & Ho' & _ & Hopt' & _ & Hp' & Hf').
      destruct (computeOffset_frame p s) as (_ & Hord & _ & Hopt & _ & _ & Hfe).
      destruct Hr as (Ho & Hnr & Hnp & Hnfe & Hap & Hnm & Hsz).
      unfold ring. rewrite Hr', Ho', Hopt', Hp', Hf', create_pending, create_requests.
      cbn [createRequest requestOrder options fetches set_nextIndex set_pending set_heap].
      rewrite Hord, Hopt, Hfe.
      split; [exact Ho|]. split; [exact Hnr|].
      split; [apply NoDup_keys_set, Hnp|]. split; [exact Hnfe|].
      split.
      { intros k [Hin|Hin]; [|apply Hap; right; exact Hin].
        apply keys_set_in in Hin as [->|Hin]; [exact Hns | apply Hap; left; exact Hin]. }
      split; [|exact Hsz].
      intros k [Hin|[Hin|Hin]]; [|apply Hnm; auto..].
      apply keys_set_in in Hin as [->|Hin]; [exact Hne | apply Hnm; auto].
    + unfold creates in Hc. unfold handleRequestWillBeSent.
      destruct (shouldExclude s _); [exact Hr|]. cbn in Hc.
      destruct (computeOffset_frame p s) as (Hrq & Hord & _ & Hopt & Hp & _ & Hfe).
      rewrite Hp.
      destruct (rws_redirectResponse p) as [rr|]; [|discriminate].
      destruct (JsMap.get (rws_requestId p) (pending s)) as [l0|]; [|discriminate].
      apply (ring_frame s); cbn; assumption.
  - unfold handleResponseReceived. destruct (JsMap.get _ _); [|exact Hr].
    apply (ring_frame s); reflexivity || exact Hr.
  - cbn [tidyEvent] in Ht. apply negb_true_iff, fetching_false in Ht.
    unfold handleLoadingFinished.
    destruct (JsMap.get (lf_requestId p) (pending s)) as [l0|] eqn:Hl; [|exact Hr].
    pose proof (get_Some_keys _ _ _ Hl) as Hin.
    assert (Hr0 := Hr). destruct Hr0 as (Ho & Hnr & Hnp & Hnfe & Hap & Hnm & Hsz).
    match goal with |- context [if ?c then _ else _] => destruct c end.
    + unfold ring.
      cbn [requests requestOrder pending fetches options set_fetches shareChain modify
           set_heap].
      rewrite keys_app.
      change (JsMap.keys [(lf_requestId p, l0)]) with [lf_requestId p].
      split; [exact Ho|]. split; [exact Hnr|]. split; [exact Hnp|].
      split.
      { apply List.NoDup_app; [exact Hnfe | |].
        - apply List.NoDup_cons_iff; split; [intros [] | constructor].
        - intros x Hx [<-|[]]. exact (Ht Hx). }
      split.
      { intros k [Hk|Hk]; [apply Hap; left; exact Hk|].
        apply in_app_or in Hk as [Hk|[<-|[]]]; apply Hap; [right|left]; assumption. }
      split; [|exact Hsz].
      intros k [Hk|[Hk|Hk]]; [apply Hnm; auto..|].
      apply in_app_or in Hk as [Hk|[<-|[]]]; apply Hnm; auto.
    + apply ring_commit.
      * apply Hnm. left. exact Hin.
      * apply Hap. left. exact Hin.
      * exact Ht.
      * apply (ring_frame s); reflexivity || exact Hr.
  - cbn [tidyEvent] in Ht. apply negb_true_iff, fetching_false in Ht.
    unfold handleLoadingFailed.
    destruct (JsMap.get (lx_requestId p) (pending s)) as [l0|] eqn:Hl; [|exact Hr].
    pose proof (get_Some_keys _ _ _ Hl) as Hin.
    assert (Hr0 := Hr). destruct Hr0 as (Ho & Hnr & Hnp & Hnfe & Hap & Hnm & Hsz).
    apply ring_commit.
    + apply Hnm. left. exact Hin.
    + apply Hap. left. exact Hin.
    + exact Ht.
    + apply (ring_frame s); reflexivity || exact Hr.
  - apply ring_clear, Hr.
  - unfold fetchSettled.
    destruct (fetches s !! kf) as [[rid l0]|] eqn:Hkf; [|exact Hr].
    assert (Hr0 := Hr). destruct Hr0 as (Ho & Hnr & Hnp & Hnfe & Hap & Hnm & Hsz).
    destruct (keys_list_delete _ _ _ _ Hkf Hnfe) as (Hout & Hsub & Hnd).
    assert (Hrid : In rid (JsMap.keys (fetches s))).
    { apply In_keys. exists l0. exact (lookup_In _ _ _ Hkf). }
    assert (Hr1 : ring (set_fetches (delete kf (fetches s)) s)).
    { unfold ring. cbn.
      split; [exact Ho|]. split; [exact Hnr|]. split; [exact Hnp|].
      split; [exact Hnd|].
      split.
      { intros k [Hk|Hk]; apply Hap; [left; exact Hk | right; exact (Hsub _ Hk)]. }
      split; [|exact Hsz].
      intros k [Hk|[Hk|Hk]]; apply Hnm; auto. }
    apply ring_commit.
    + destruct res as [[[body b64]|]|]; apply Hnm; auto.
    + destruct res as [[[body b64]|]|]; (apply Hap; right; exact Hrid).
    + destruct res as [[[body b64]|]|]; exact Hout.
    + destruct res as [[[body b64]|]|];
        [apply (ring_frame (set_fetches (delete kf (fetches s)) s));
           reflexivity || exact Hr1 | exact Hr1 | exact Hr1].
Qed.

Lemma ring_run es s : tidy s es = true -> ring s -> ring (run s es).
Proof.
  revert s. induction es as [|e es IH]; intros s Ht Hr; [exact Hr|].
  cbn [tidy] in Ht. apply andb_prop in Ht as [Ht Hts].
  rewrite run_cons. apply IH; [exact Hts | apply ring_step; assumption].
Qed.

Lemma ring_new o : ring (new o).
Proof.
  unfold ring. cbn. repeat split; try constructor; try (intros k []); try tauto.
  unfold JsMap.size. cbn. lia.
Qed.

End ring_facts.

Section store_steps.
Import NetworkCapture.

Lemma get_delete_ne {V} k k' (m : list (string * V)) :
  k <> k' -> JsMap.get k' (JsMap.delete k m) = JsMap.get k' m.
Proof.
  intros Hne. induction m as [|[k0 v0] m IH]; cbn; [reflexivity|].
  destruct (String.eqb_spec k k0) as [->|Hk].
  - destruct (String.eqb_spec k' k0); [congruence | reflexivity].
  - cbn. destruct (String.eqb_spec k' k0); [reflexivity | exact IH].
Qed.

Lemma handleRequestWillBeSent_requests p s :
  requests (handleRequestWillBeSent p s) = requests s.
Proof.
  destruct (creates s p) eqn:Hc.
  - change (handleRequestWillBeSent p s) with (step s (RequestWillBeSent p)).
    rewrite (create_step s p Hc).
    destruct (control_inv _ _ (detectPreflight_control p
                (createRequest p (computeOffset p s)))) as (-> & _).
    apply create_requests.
  - unfold creates in Hc. unfold handleRequestWillBeSent.
    destruct (shouldExclude s _); [reflexivity|]. cbn in Hc.
    destruct (computeOffset_frame p s) as (Hrq & _ & _ & _ & Hp & _).
    rewrite Hp.
    destruct (rws_redirectResponse p) as [rr|]; [|discriminate].
    destruct (JsMap.get (rws_requestId p) (pending s)) as [l0|]; [|discriminate].
    cbn. exact Hrq.
Qed.

(** An event leaves the store as it is, or empties it, or commits one
    entry that was pending or being fetched. *)
Lemma step_store s e :
  requests (step s e) = requests s \/
  e = Clear \/
  exists requestId l s1,
    step s e = finalizeRequest requestId l s1 /\
    requests s1 = requests s /\ requestOrder s1 = requestOrder s /\
    options s1 = options s /\
    (In (requestId, l) (pending s) \/ In (requestId, l) (fetches s)) /\
    forall l', l' <> l -> heap s1 !! l' = heap s !! l'.
Proof.
  destruct e as [p|p|p b|p| |kf res]; cbn [step].
  - left. apply handleRequestWillBeSent_requests.
  - left. unfold handleResponseReceived. destruct (JsMap.get _ _); reflexivity.
  - unfold handleLoadingFinished.
    destruct (JsMap.get (lf_requestId p) (pending s)) as [l0|] eqn:Hl; [|left; reflexivity].
    match goal with |- context [if ?c then _ else _] => destruct c end;
      [left; reflexivity|].
    right. right. eexists _, _, _. split; [reflexivity|].
    repeat (split; [reflexivity|]). split; [left; exact (get_In _ _ _ Hl)|].
    intros l' Hne. cbn. rewrite !list_lookup_alter_ne by congruence. reflexivity.
  - unfold handleLoadingFailed.
    destruct (JsMap.get (lx_requestId p) (pending s)) as [l0|] eqn:Hl; [|left; reflexivity].
    right. right. eexists _, _, _. split; [reflexivity|].
    repeat (split; [reflexivity|]). split; [left; exact (get_In _ _ _ Hl)|].
    intros l' Hne. cbn. rewrite !list_lookup_alter_ne by congruence. reflexivity.
  - right. left. reflexivity.
  - unfold fetchSettled.
    destruct (fetches s !! kf) as [[rid l0]|] eqn:Hkf; [|left; reflexivity].
    right. right. eexists _, _, _. split; [reflexivity|].
    destruct res as [[[body b64]|]|]; repeat (split; [reflexivity|]);
      (split; [right; exact (lookup_In _ _ _ Hkf)|]); intros l' Hne; cbn;
      rewrite ?list_lookup_alter_ne by congruence; reflexivity.
Qed.

Lemma getRequest_None_keys s k :
  valid s -> getRequest k s = None -> ~ In k (JsMap.keys (requests s)).
Proof.
  intros (_ & Hv & _) H. apply get_None_keys. unfold getRequest in H.
  destruct (JsMap.get k (requests s)) as [l|] eqn:Hg; [|reflexivity].
  exfalso. pose proof (locsBelow_In _ _ _ _ Hv (get_In _ _ _ Hg)) as Hl.
  apply lookup_lt_is_Some_2 in Hl as [e He]. cbn in He. rewrite He in H. discriminate.
Qed.

Lemma getRequest_Some_keys s k r :
  getRequest k s = Some r -> In k (JsMap.keys (requests s)).
Proof.
  unfold getRequest. destruct (JsMap.get k (requests s)) as [l|] eqn:Hg; [|discriminate].
  intros _. exact (get_Some_keys _ _ _ Hg).
Qed.

(** What a commit into the store of a state that keeps the ring does. *)
Lemma commit_spec requestId l s1 s :
  valid s -> keyed s -> ring s ->
  requests s1 = requests s -> requestOrder s1 = requestOrder s ->
  options s1 = options s ->
  In (requestId, l) (pending s) \/ In (requestId, l) (fetches s) ->
  (forall l', l' <> l -> heap s1 !! l' = heap s !! l') ->
  ~ In requestId (JsMap.keys (requests s)) /\
  JsMap.keys (requests (finalizeRequest requestId l s1))
  = ((if (maxRequests (options s) <=? JsMap.size (requests s))%nat
      then tl (JsMap.keys (requests s)) else JsMap.keys (requests s)) ++ [requestId])%list /\
  forall k, k <> requestId ->
    getRequest k (finalizeRequest requestId l s1)
    = if (maxRequests (options s) <=? JsMap.size (requests s))%nat &&
         bool_decide (head (JsMap.keys (requests s)) = Some k)
      then None else getRequest k s.
Proof.
  intros Hv Hk (Ho & Hnr & Hnp & Hnfe & Hap & Hnm & Hsz) Hr1 Ho1 Hopt1 Hmem Hheap.
  assert (Hfresh : ~ In requestId (JsMap.keys (requests s))).
  { apply Hap. destruct Hmem as [H|H]; [left|right]; apply In_keys; eauto. }
  split; [exact Hfresh|].
  destruct (commit_keys requestId l s1) as (Hkeys & _ & _).
  { rewrite Ho1, Hr1. exact Ho. }
  { rewrite Hr1. intros k Hin. apply Hnm. auto. }
  { rewrite Hr1. exact Hfresh. }
  rewrite Hopt1, Hr1 in Hkeys. split; [exact Hkeys|].
  intros k Hne.
  assert (Hloc : forall lk, In (k, lk) (requests s) -> lk <> l).
  { intros lk Hin ->. destruct Hv as (Hvp & Hvr & Hvf).
    pose proof (locsBelow_In _ _ _ _ Hvr Hin) as Hl.
    apply lookup_lt_is_Some_2 in Hl as [e He]. cbn in He.
    assert (H1 : id (request e) = k) by (apply (Hk k l e); [right; left; exact Hin | exact He]).
    assert (H2 : id (request e) = requestId).
    { apply (Hk requestId l e); [|exact He].
      destruct Hmem as [H|H]; [left; exact H | right; right; exact H]. }
    congruence. }
  pose proof (finalizeRequest_ring requestId l s1) as Hring.
  rewrite Hopt1, Hr1, Ho1, Ho in Hring.
  pose proof (f_equal fst Hring) as Hreq. cbn [fst] in Hreq. clear Hring.
  unfold getRequest at 1. rewrite finalizeRequest_heap.
  destruct (maxRequests (options s) <=? JsMap.size (requests s))%nat; cbn [andb].
  - destruct (requests s) as [|[oldest v] reqs] eqn:Hreqs.
    + cbn [JsMap.keys map fst] in Hreq. rewrite Hreq.
      cbn [JsMap.set JsMap.get JsMap.keys map head].
      destruct (String.eqb_spec k requestId); [contradiction|].
      rewrite bool_decide_eq_false_2 by discriminate.
      unfold getRequest. rewrite Hreqs. reflexivity.
    + cbn [JsMap.keys map fst head] in Hreq |- *.
      assert (Ht : Js.truthy (Some oldest) = true).
      { apply truthy_nonempty, Hnm. right. left. left. reflexivity. }
      rewrite Ht in Hreq. cbn [JsMap.delete] in Hreq. rewrite String.eqb_refl in Hreq.
      cbn [fst] in Hreq. rewrite Hreq.
      rewrite get_set_ne by congruence.
      cbn [JsMap.keys map fst] in Hnr. apply List.NoDup_cons_iff in Hnr as [Hn1 Hn2].
      destruct (decide (oldest = k)) as [->|Hok].
      * rewrite bool_decide_eq_true_2 by reflexivity.
        destruct (JsMap.get k reqs) as [lk|] eqn:Hg; [|reflexivity].
        exfalso. apply Hn1. exact (get_Some_keys _ _ _ Hg).
      * rewrite bool_decide_eq_false_2 by congruence.
        unfold getRequest. rewrite Hreqs. cbn [JsMap.get].
        destruct (String.eqb_spec k oldest) as [->|_]; [contradiction|].
        destruct (JsMap.get k reqs) as [lk|] eqn:Hg; [|reflexivity].
        rewrite Hheap; [reflexivity|]. apply Hloc. right. exact (get_In _ _ _ Hg).
  - cbn [fst] in Hreq. rewrite Hreq. rewrite get_set_ne by congruence.
    unfold getRequest.
    destruct (JsMap.get k (requests s)) as [lk|] eqn:Hg; [|reflexivity].
    rewrite Hheap; [reflexivity|]. apply Hloc. exact (get_In _ _ _ Hg).
Qed.

End store_steps.

(** When request IDs identify requests -- a new request never takes an
    empty ID, the ID of a stored record or that of an outstanding body
    fetch, and no request finishes or fails while its body is being
    fetched -- the store never holds more than [maxRequests] records (one
    record when [maxRequests] is 0), and the eviction order lists exactly
    the stored IDs, each once, earliest inserted first.  [clear] may run
    while body fetches are outstanding. *)
Theorem store_within_maxRequests
    (o : NetworkCapture.Options) (es : list NetworkCapture.Event) :
  NetworkCapture.tidy (NetworkCapture.new o) es = true ->
  (NetworkCapture.size (NetworkCapture.run (NetworkCapture.new o) es)
   <= Nat.max 1 (NetworkCapture.maxRequests o))%nat /\
  NetworkCapture.requestOrder (NetworkCapture.run (NetworkCapture.new o) es)
  = JsMap.keys (NetworkCapture.requests (NetworkCapture.run (NetworkCapture.new o) es)) /\
  List.NoDup (NetworkCapture.requestOrder (NetworkCapture.run (NetworkCapture.new o) es)).
Proof.
  intros Ht.
  destruct (ring_run es (NetworkCapture.new o) Ht (ring_new o))
    as (Ho & Hnr & _ & _ & _ & _ & Hsz).
  rewrite options_run in Hsz. split; [exact Hsz|]. split; [exact Ho|].
  rewrite Ho. exact Hnr.
Qed.

(** Under the same discipline, whatever the next event is, the stored IDs
    stay as they are, or [clear] empties the store, or one new ID is
    appended: to all the stored IDs when the store holds fewer than
    [maxRequests] records, and else to all but the earliest inserted
    one. *)
Theorem store_changes_by_commit_or_clear
    (o : NetworkCapture.Options) (es : list NetworkCapture.Event)
    (e : NetworkCapture.Event) :
  NetworkCapture.tidy (NetworkCapture.new o) es = true ->
  JsMap.keys (NetworkCapture.requests
                (NetworkCapture.step (NetworkCapture.run (NetworkCapture.new o) es) e))
  = JsMap.keys (NetworkCapture.requests (NetworkCapture.run (NetworkCapture.new o) es)) \/
  (e = NetworkCapture.Clear /\
   NetworkCapture.requests
     (NetworkCapture.step (NetworkCapture.run (NetworkCapture.new o) es) e) = []) \/
  exists requestId,
    ~ In requestId
        (JsMap.keys (NetworkCapture.requests (NetworkCapture.run (NetworkCapture.new o) es))) /\
    JsMap.keys (NetworkCapture.requests
                  (NetworkCapture.step (NetworkCapture.run (NetworkCapture.new o) es) e))
    = ((if (NetworkCapture.maxRequests o
            <=? NetworkCapture.size (NetworkCapture.run (NetworkCapture.new o) es))%nat
        then tl (JsMap.keys (NetworkCapture.requests
                               (NetworkCapture.run (NetworkCapture.new o) es)))
        else JsMap.keys (NetworkCapture.requests
                           (NetworkCapture.run (NetworkCapture.new o) es)))
       ++ [requestId])%list.
Proof.
  intros Ht.
  pose proof (ring_run es (NetworkCapture.new o) Ht (ring_new o)) as Hr.
  pose proof (valid_run es _ (valid_new o)) as Hv.
  pose proof (keyed_run es _ (valid_new o) (keyed_new o)) as Hk.
  set (s := NetworkCapture.run (NetworkCapture.new o) es) in *.
  assert (Hopt : NetworkCapture.options s = o) by apply options_run.
  destruct (step_store s e) as [Hsame|[->|(requestId & l & s1 & -> & Hr1 & Ho1 & Hopt1 & Hmem & Hheap)]].
  - left. rewrite Hsame. reflexivity.
  - right. left. split; reflexivity.
  - right. right. exists requestId.
    destruct (commit_spec requestId l s1 s Hv Hk Hr Hr1 Ho1 Hopt1 Hmem Hheap)
      as (Hfresh & Hkeys & _).
    rewrite Hopt in Hkeys. split; [exact Hfresh | exact Hkeys].
Qed.

(** C3.  Whenever an event commits a record (an ID that [getRequest] did
    not find is found afterwards) while the store holds [maxRequests]
    records, the record with the earliest insertion order is evicted and
    the new one is inserted last; the other records stay, unchanged and in
    their order, and the store holds [maxRequests] records again.  This
    holds for every event source whose request IDs identify requests, also
    when [clear] runs while body fetches are outstanding.  The ring buffer
    scenario of the claim is an instance. *)
Theorem full_store_commit_evicts_earliest
    (o : NetworkCapture.Options) (es : list NetworkCapture.Event)
    (e : NetworkCapture.Event) (requestId : string) (r : CapturedRequest) :
  NetworkCapture.tidy (NetworkCapture.new o) es = true ->
  NetworkCapture.getRequest requestId (NetworkCapture.run (NetworkCapture.new o) es) = None ->
  NetworkCapture.getRequest requestId
    (NetworkCapture.step (NetworkCapture.run (NetworkCapture.new o) es) e) = Some r ->
  (NetworkCapture.maxRequests o
   <= NetworkCapture.size (NetworkCapture.run (NetworkCapture.new o) es))%nat ->
  JsMap.keys (NetworkCapture.requests
                (NetworkCapture.step (NetworkCapture.run (NetworkCapture.new o) es) e))
  = (tl (JsMap.keys (NetworkCapture.requests (NetworkCapture.run (NetworkCapture.new o) es)))
     ++ [requestId])%list /\
  (forall k,
     head (JsMap.keys (NetworkCapture.requests (NetworkCapture.run (NetworkCapture.new o) es)))
     = Some k ->
     NetworkCapture.getRequest k
       (NetworkCapture.step (NetworkCapture.run (NetworkCapture.new o) es) e) = None) /\
  (forall k,
     In k (tl (JsMap.keys (NetworkCapture.requests
                             (NetworkCapture.run (NetworkCapture.new o) es)))) ->
     NetworkCapture.getRequest k
       (NetworkCapture.step (NetworkCapture.run (NetworkCapture.new o) es) e)
     = NetworkCapture.getRequest k (NetworkCapture.run (NetworkCapture.new o) es)) /\
  NetworkCapture.size (NetworkCapture.step (NetworkCapture.run (NetworkCapture.new o) es) e)
  = Nat.max 1 (NetworkCapture.maxRequests o).
Proof.
  intros Ht Hnone Hsome Hfull.
  pose proof (ring_run es (NetworkCapture.new o) Ht (ring_new o)) as Hr.
  pose proof (valid_run es _ (valid_new o)) as Hv.
  pose proof (keyed_run es _ (valid_new o) (keyed_new o)) as Hk.
  set (s := NetworkCapture.run (NetworkCapture.new o) es) in *.
  assert (Hopt : NetworkCapture.options s = o) by apply options_run.
  pose proof (getRequest_None_keys s requestId Hv Hnone) as Hout.
  pose proof (getRequest_Some_keys _ _ _ Hsome) as Hin.
  destruct (step_store s e)
    as [Hsame|[->|(k0 & l & s1 & Hstep & Hr1 & Ho1 & Hopt1 & Hmem & Hheap)]].
  - rewrite Hsame in Hin. contradiction.
  - destruct Hin.
  - destruct (commit_spec k0 l s1 s Hv Hk Hr Hr1 Ho1 Hopt1 Hmem Hheap)
      as (Hfresh & Hkeys & Hget).
    rewrite <- Hstep in Hkeys, Hget. rewrite Hopt in Hkeys, Hget.
    unfold NetworkCapture.size in Hfull.
    apply Nat.leb_le in Hfull. rewrite Hfull in Hkeys, Hget. cbn [andb] in Hget.
    assert (Heq : requestId = k0).
    { rewrite Hkeys in Hin. apply in_app_or in Hin as [Hin|[<-|[]]]; [|reflexivity].
      exfalso. apply Hout. exact (In_tl _ _ Hin). }
    subst k0.
    destruct Hr as (Ho & Hnr & _ & _ & _ & _ & Hsz).
    split; [exact Hkeys|]. split; [|split].
    + intros k Hhd. rewrite Hget.
      * rewrite bool_decide_eq_true_2 by exact Hhd. reflexivity.
      * intros ->. apply Hout.
        destruct (JsMap.keys (NetworkCapture.requests s)) as [|x ks]; [discriminate|].
        injection Hhd as ->. left. reflexivity.
    + intros k Hk'. rewrite Hget.
      * rewrite bool_decide_eq_false_2; [reflexivity|].
        intros Hhd.
        destruct (JsMap.keys (NetworkCapture.requests s)) as [|x ks]; [discriminate|].
        injection Hhd as ->. apply List.NoDup_cons_iff in Hnr as [Hn _]. exact (Hn Hk').
      * intros ->. apply Hout. exact (In_tl _ _ Hk').
    + unfold NetworkCapture.size, JsMap.size.
      assert (Hlen : length (NetworkCapture.requests (NetworkCapture.step s e))
                     = length (JsMap.keys (NetworkCapture.requests (NetworkCapture.step s e))))
        by (unfold JsMap.keys; rewrite length_map; reflexivity).
      rewrite Hlen, Hkeys, length_app. cbn [length].
      apply Nat.leb_le in Hfull. rewrite Hopt in Hsz.
      unfold JsMap.size in Hfull, Hsz. unfold JsMap.keys.
      destruct (NetworkCapture.requests s) as [|x reqs]; cbn [map tl length] in *;
        rewrite ?length_map; lia.
Qed.

(** ** What a commit stores *)

Section commit_facts.
Import NetworkCapture.

Lemma getRequest_finalizeRequest requestId l s e :
  heap s !! l = Some e ->
  getRequest requestId (finalizeRequest requestId l s) = Some (captured e).
Proof.
  intros He. unfold getRequest.
  destruct (finalizeRequest_requests requestId l s) as (m & -> & _).
  rewrite get_set_eq, finalizeRequest_heap, He. reflexivity.
Qed.

(** The keys of the two maps are unique, as in a [Map]. *)
Lemma keys_unique_step s ev :
  List.NoDup (JsMap.keys (pending s)) -> List.NoDup (JsMap.keys (pending (step s ev))).
Proof.
  intros Hn. destruct ev as [p|p|p b|p| |kf res]; cbn [step].
  - destruct (creates s p) eqn:Hc.
    + change (handleRequestWillBeSent p s) with (step s (RequestWillBeSent p)).
      rewrite (create_step s p Hc).
      destruct (control_inv _ _ (detectPreflight_control p
                  (createRequest p (computeOffset p s))))
        as (_ & _ & _ & _ & _ & -> & _).
      rewrite create_pending. apply NoDup_keys_set, Hn.
    + unfold creates in Hc. unfold handleRequestWillBeSent.
      destruct (shouldExclude s _); [exact Hn|]. cbn in Hc.
      destruct (computeOffset_frame p s) as (_ & _ & _ & _ & Hp & _).
      rewrite Hp.
      destruct (rws_redirectResponse p) as [rr|]; [|discriminate].
      destruct (JsMap.get (rws_requestId p) (pending s)) as [l0|]; [|discriminate].
      cbn. rewrite Hp. exact Hn.
  - unfold handleResponseReceived. destruct (JsMap.get _ _); exact Hn.
  - unfold handleLoadingFinished.
    destruct (JsMap.get (lf_requestId p) (pending s)) as [l0|]; [|exact Hn].
    match goal with |- context [if ?c then _ else _] => destruct c end; [exact Hn|].
    rewrite (proj2 (proj2 (proj2 (proj2 (proj2 (finalizeRequest_frame _ _ _)))))).
    apply NoDup_keys_delete, Hn.
  - unfold handleLoadingFailed.
    destruct (JsMap.get (lx_requestId p) (pending s)) as [l0|]; [|exact Hn].
    rewrite (proj2 (proj2 (proj2 (proj2 (proj2 (finalizeRequest_frame _ _ _)))))).
    apply NoDup_keys_delete, Hn.
  - constructor.
  - unfold fetchSettled. destruct (fetches s !! kf) as [[rid l0]|]; [|exact Hn].
    rewrite (proj2 (proj2 (proj2 (proj2 (proj2 (finalizeRequest_frame _ _ _)))))).
    apply NoDup_keys_delete. destruct res as [[[body b64]|]|]; exact Hn.
Qed.

Lemma keys_unique_run es s :
  List.NoDup (JsMap.keys (pending s)) -> List.NoDup (JsMap.keys (pending (run s es))).
Proof.
  revert s. induction es as [|e es IH]; intros s Hn; [exact Hn|].
  rewrite run_cons. apply IH, keys_unique_step, Hn.
Qed.

Lemma pending_run_lookup o es k l :
  JsMap.get k (pending (run (new o) es)) = Some l ->
  exists e, heap (run (new o) es) !! l = Some e.
Proof.
  intros Hg. pose proof (valid_run es (new o) (valid_new o)) as (Hp & _).
  apply lookup_lt_is_Some_2. exact (locsBelow_In _ _ _ _ Hp (get_In _ _ _ Hg)).
Qed.

End commit_facts.

(** A request that fails is stored at once and is no longer pending.  Its
    record keeps the status it had; when no response had arrived (status 0)
    the status text is the error text.  The record has an end time and a
    duration, and carries the redirect chain collected so far. *)
Theorem loadingFailed_stores_record
    (o : NetworkCapture.Options) (es : list NetworkCapture.Event)
    (p : CDPLoadingFailed) (l : nat) :
  JsMap.get (lx_requestId p)
    (NetworkCapture.pending (NetworkCapture.run (NetworkCapture.new o) es)) = Some l ->
  exists e r,
    NetworkCapture.heap (NetworkCapture.run (NetworkCapture.new o) es) !! l = Some e /\
    NetworkCapture.getRequest (lx_requestId p)
      (NetworkCapture.handleLoadingFailed p
         (NetworkCapture.run (NetworkCapture.new o) es)) = Some r /\
    JsMap.get (lx_requestId p)
      (NetworkCapture.pending
         (NetworkCapture.handleLoadingFailed p
            (NetworkCapture.run (NetworkCapture.new o) es))) = None /\
    status r = status (NetworkCapture.request e) /\
    statusText r = (if (status (NetworkCapture.request e) =? 0)%Z
                    then lx_errorText p
                    else statusText (NetworkCapture.request e)) /\
    endTime (timing r)
    = Some (NetworkCapture.toWallTimeMs
              (NetworkCapture.run (NetworkCapture.new o) es) (lx_timestamp p)) /\
    duration (timing r)
    = Some (NetworkCapture.toWallTimeMs
              (NetworkCapture.run (NetworkCapture.new o) es) (lx_timestamp p)
            - startTime (timing (NetworkCapture.request e)))%R /\
    redirectChain r = NetworkCapture.entry_redirectChain e.
Proof.
  intros Hg. set (s := NetworkCapture.run (NetworkCapture.new o) es) in *.
  destruct (pending_run_lookup o es _ _ Hg) as [e He]. fold s in He.
  assert (Hn : List.NoDup (JsMap.keys (NetworkCapture.pending s)))
    by (apply keys_unique_run; constructor).
  unfold NetworkCapture.handleLoadingFailed. rewrite Hg.
  match goal with
  | |- context [NetworkCapture.finalizeRequest ?a ?b ?c] =>
      destruct (finalizeRequest_frame a b c) as (_ & _ & _ & _ & _ & Hp);
      pose proof (fun e' => getRequest_finalizeRequest a b c e') as Hget;
      change (NetworkCapture.pending c) with (NetworkCapture.pending s) in Hp
  end.
  rewrite Hp.
  eexists e, _. split; [exact He|]. split.
  - apply Hget. unfold NetworkCapture.shareChain, NetworkCapture.modify. cbn.
    rewrite list_lookup_alter_eq, list_lookup_alter_eq, He. reflexivity.
  - split; [apply get_None_keys, keys_delete_out, Hn|].
    cbn. destruct (status (NetworkCapture.request e) =? 0)%Z eqn:Hs; cbn; repeat split.
    apply Z.eqb_eq in Hs. congruence.
Qed.

(** With a body callback, a finished request whose body is worth fetching
    is not stored yet: it stays pending until the fetch settles.  When the
    fetch is fulfilled with a body, the stored record carries that body as
    [truncateBody] leaves it; when it is fulfilled with nothing or
    rejected, the record is stored with the body it had. *)
Theorem body_fetch_round_trip
    (s : NetworkCapture.t) (p : CDPLoadingFinished) (res : NetworkCapture.FetchResult) :
  NetworkCapture.shouldFetchBody <$>
    NetworkCapture.pendingRequest (lf_requestId p) s = Some true ->
  NetworkCapture.requests (NetworkCapture.handleLoadingFinished p true s)
  = NetworkCapture.requests s /\
  NetworkCapture.pending (NetworkCapture.handleLoadingFinished p true s)
  = NetworkCapture.pending s /\
  exists r,
    NetworkCapture.getRequest (lf_requestId p)
      (NetworkCapture.fetchSettled (length (NetworkCapture.fetches s)) res
         (NetworkCapture.handleLoadingFinished p true s)) = Some r /\
    responseSize r = lf_encodedDataLength p /\
    match res with
    | NetworkCapture.Fulfilled (Some (body, base64Encoded)) =>
        responseBody r = Some (NetworkCapture.truncateBody s body base64Encoded)
    | _ =>
        Some (responseBody r)
        = responseBody <$> NetworkCapture.pendingRequest (lf_requestId p) s
    end.
Proof.
  unfold NetworkCapture.pendingRequest.
  destruct (JsMap.get (lf_requestId p) (NetworkCapture.pending s)) as [l|] eqn:Hg;
    [|discriminate].
  destruct (NetworkCapture.heap s !! l) as [e|] eqn:He; [|discriminate].
  cbn [fmap option_fmap option_map]. intros [= Hfetch].
  unfold NetworkCapture.handleLoadingFinished. rewrite Hg.
  set (s1 := NetworkCapture.shareChain l (NetworkCapture.modify l _ s)).
  assert (He1 : NetworkCapture.heap s1 !! l
                = Some (NetworkCapture.mkEntry
                          (NetworkCapture.stampEnd s (lf_timestamp p)
                             (set_responseSize (lf_encodedDataLength p)
                                (NetworkCapture.request e)))
                          (NetworkCapture.entry_redirectChain e) true)).
  { unfold s1, NetworkCapture.shareChain, NetworkCapture.modify. cbn.
    rewrite list_lookup_alter_eq, list_lookup_alter_eq, He. reflexivity. }
  rewrite He1. cbn [NetworkCapture.request].
  change (NetworkCapture.shouldFetchBody
            (NetworkCapture.stampEnd s (lf_timestamp p)
               (set_responseSize (lf_encodedDataLength p) (NetworkCapture.request e))))
    with (NetworkCapture.shouldFetchBody (NetworkCapture.request e)).
  rewrite Hfetch. cbn [andb].
  split; [reflexivity|]. split; [reflexivity|].
  unfold NetworkCapture.fetchSettled.
  change (NetworkCapture.fetches (NetworkCapture.set_fetches _ s1))
    with (NetworkCapture.fetches s ++ [(lf_requestId p, l)])%list.
  rewrite list_lookup_middle by reflexivity.
  destruct res as [[[body b64]|]|].
  - eexists. split.
    + apply getRequest_finalizeRequest.
      unfold NetworkCapture.modify. cbn [NetworkCapture.heap NetworkCapture.set_heap
        NetworkCapture.set_fetches].
      rewrite list_lookup_alter_eq, He1. reflexivity.
    + split; reflexivity.
  - eexists. split.
    + apply getRequest_finalizeRequest. exact He1.
    + split; reflexivity.
  - eexists. split.
    + apply getRequest_finalizeRequest. exact He1.
    + split; reflexivity.
Qed.

(** ** Queries with a filter *)

Section sort_nat_facts.
Context {A : Type} (f : A -> nat).

Lemma insertSorted_sorted_nat x l :
  StronglySorted (fun a b => (f a <= f b)%nat) l ->
  StronglySorted (fun a b => (f a <= f b)%nat)
    (insertSorted (fun a b => (f a <? f b)%nat) x l).
Proof.
  induction 1 as [|y l Hs IH Hy]; cbn [insertSorted].
  - repeat constructor.
  - destruct (Nat.ltb_spec (f y) (f x)) as [Hlt|Hge].
    + constructor; [exact IH|].
      apply List.Forall_forall. intros z Hz.
      apply In_insertSorted in Hz as [->|Hz]; [lia|].
      rewrite List.Forall_forall in Hy. exact (Hy z Hz).
    + constructor; [constructor; assumption|].
      constructor; [lia|].
      rewrite List.Forall_forall in Hy |- *. intros z Hz.
      pose proof (Hy z Hz). lia.
Qed.

Lemma sortBy_sorted_nat l :
  StronglySorted (fun a b => (f a <= f b)%nat)
    (sortBy (fun a b => (f a <? f b)%nat) l).
Proof.
  induction l as [|x l IH]; [constructor|].
  rewrite sortBy_cons. apply insertSorted_sorted_nat, IH.
Qed.

End sort_nat_facts.

Section list_facts.
Context {A : Type}.

Lemma In_take n (l : list A) x : In x (take n l) -> In x l.
Proof.
  revert n. induction l as [|y l IH]; intros [|n]; cbn; try tauto.
  intros [->|H]; [left; reflexivity | right; exact (IH n H)].
Qed.

Lemma StronglySorted_take (R : A -> A -> Prop) n l :
  StronglySorted R l -> StronglySorted R (take n l).
Proof.
  intros H. revert n. induction H as [|x l Hs IH Hx]; intros [|n]; cbn;
    try constructor.
  - apply IH.
  - rewrite List.Forall_forall in Hx |- *. intros y Hy. apply Hx.
    exact (In_take _ _ _ Hy).
Qed.

Lemma length_insertSorted (before : A -> A -> bool) x l :
  length (insertSorted before x l) = S (length l).
Proof.
  induction l as [|y l IH]; cbn; [reflexivity|].
  destruct (before y x); cbn; [rewrite IH|]; reflexivity.
Qed.

Lemma length_sortBy (before : A -> A -> bool) l : length (sortBy before l) = length l.
Proof.
  induction l as [|x l IH]; [reflexivity|].
  rewrite sortBy_cons, length_insertSorted, IH. reflexivity.
Qed.

End list_facts.

Section query_facts.
Import NetworkCapture Query.
Variable RegExp_i : string -> option (string -> bool).

(** The records that [getRequests] returns come in the order of their
    indices.  With a limit [n] other than 0 the result is the first [n]
    records of what the same filter returns without limit (all of them
    when there are no more than [n]), so at most [n] records; a limit of 0
    is no limit. *)
Theorem getRequests_sorted_and_limited
    (filter : option NetworkFilter) (f : NetworkFilter) (s : t) :
  StronglySorted (fun a b => (index a <= index b)%nat) (getRequests RegExp_i filter s) /\
  getRequests RegExp_i (Some f) s
  = match limit f with
    | Some (S n) => take (S n) (getRequests RegExp_i (Some (withoutLimit f)) s)
    | _ => getRequests RegExp_i (Some (withoutLimit f)) s
    end /\
  (forall n, limit f = Some (S n) ->
             (length (getRequests RegExp_i (Some f) s) <= S n)%nat).
Proof.
  assert (Hall : getRequests RegExp_i (Some (withoutLimit f)) s
                 = sortBy byIndex (applyFilter RegExp_i (values s) f)) by reflexivity.
  assert (Heq : getRequests RegExp_i (Some f) s
                = match limit f with
                  | Some (S n) => take (S n) (getRequests RegExp_i (Some (withoutLimit f)) s)
                  | _ => getRequests RegExp_i (Some (withoutLimit f)) s
                  end).
  { rewrite Hall. unfold getRequests. cbv zeta.
    set (results := sortBy byIndex _).
    destruct (limit f) as [[|n]|]; cbn [Nat.eqb negb andb]; [reflexivity| |reflexivity].
    destruct (Nat.ltb_spec (S n) (length results)) as [Hlt|Hge]; [reflexivity|].
    symmetry. apply take_ge. exact Hge. }
  split; [|split; [exact Heq|]].
  - unfold getRequests. cbv zeta.
    set (results := sortBy byIndex _).
    assert (Hs : StronglySorted (fun a b => (index a <= index b)%nat) results)
      by apply (sortBy_sorted_nat index).
    destruct filter as [f'|]; [|exact Hs].
    destruct (limit f') as [[|n]|]; cbn [Nat.eqb negb andb]; [exact Hs| |exact Hs].
    destruct (Nat.ltb_spec (S n) (length results)); [|exact Hs].
    apply StronglySorted_take, Hs.
  - intros n Hn. rewrite Heq, Hn, length_take. lia.
Qed.
Lemma In_values s r :
  In r (values s) <->
  exists k l e, In (k, l) (requests s) /\ heap s !! l = Some e /\ r = captured e.
Proof.
  unfold values. rewrite <- list_elem_of_In, list_elem_of_omap. split.
  - intros ([k l] & Hin & Hr). cbn in Hr.
    destruct (heap s !! l) as [e|] eqn:He; [|discriminate].
    injection Hr as <-. apply list_elem_of_In in Hin. eauto 6.
  - intros (k & l & e & Hin & He & ->). exists (k, l).
    split; [apply list_elem_of_In, Hin|]. cbn. rewrite He. reflexivity.
Qed.

Lemma In_getRequests filter s r :
  In r (getRequests RegExp_i filter s) ->
  In r (values s) /\
  match filter with
  | Some f => passesFilter RegExp_i f r = true
  | None => True
  end.
Proof.
  unfold getRequests. cbv zeta.
  set (results := sortBy byIndex _).
  assert (Hres : In r results ->
            In r (values s) /\
            match filter with
            | Some f => passesFilter RegExp_i f r = true
            | None => True
            end).
  { unfold results. rewrite In_sortBy. destruct filter as [f|]; [|auto].
    unfold applyFilter. rewrite filter_In. auto. }
  destruct filter as [f|]; [|exact Hres].
  destruct (limit f) as [n|]; [|exact Hres].
  destruct (_ && _); [|exact Hres].
  intros H. apply Hres. exact (In_take _ _ _ H).
Qed.

End query_facts.

Section stored_facts.
Import NetworkCapture Query.

Lemma NoDup_keys_get {V} (m : list (string * V)) k v :
  List.NoDup (JsMap.keys m) -> In (k, v) m -> JsMap.get k m = Some v.
Proof.
  induction m as [|[k' v'] m IH]; cbn; [tauto|].
  intros Hn Hin. apply List.NoDup_cons_iff in Hn as [Hk Hn].
  destruct (String.eqb_spec k k') as [->|Hne].
  - destruct Hin as [[= ->]|Hin]; [reflexivity|].
    exfalso. apply Hk. apply In_keys. eauto.
  - destruct Hin as [[= -> ->]|Hin]; [congruence | exact (IH Hn Hin)].
Qed.

Lemma finalizeRequest_unique requestId l s :
  List.NoDup (JsMap.keys (requests s)) ->
  List.NoDup (JsMap.keys (requests (finalizeRequest requestId l s))).
Proof.
  intros Hn. destruct (finalizeRequest_requests requestId l s) as (m & -> & Hm).
  apply NoDup_keys_set.
  destruct Hm as [->|(oldest & rest & _ & ->)]; [exact Hn | apply NoDup_keys_delete, Hn].
Qed.

Lemma stored_unique_step s ev :
  List.NoDup (JsMap.keys (requests s)) -> List.NoDup (JsMap.keys (requests (step s ev))).
Proof.
  intros Hn. destruct ev as [p|p|p b|p| |kf res]; cbn [step].
  - destruct (creates s p) eqn:Hc.
    + change (handleRequestWillBeSent p s) with (step s (RequestWillBeSent p)).
      rewrite (create_step s p Hc).
      destruct (control_inv _ _ (detectPreflight_control p
                  (createRequest p (computeOffset p s))))
        as (-> & _).
      rewrite create_requests. exact Hn.
    + unfold creates in Hc. unfold handleRequestWillBeSent.
      destruct (shouldExclude s _); [exact Hn|]. cbn in Hc.
      destruct (computeOffset_frame p s) as (Hr & _ & _ & _ & Hp & _).
      rewrite Hp.
      destruct (rws_redirectResponse p) as [rr|]; [|discriminate].
      destruct (JsMap.get (rws_requestId p) (pending s)) as [l0|]; [|discriminate].
      cbn. rewrite Hr. exact Hn.
  - unfold handleResponseReceived. destruct (JsMap.get _ _); exact Hn.
  - unfold handleLoadingFinished.
    destruct (JsMap.get (lf_requestId p) (pending s)) as [l0|]; [|exact Hn].
    match goal with |- context [if ?c then _ else _] => destruct c end; [exact Hn|].
    apply finalizeRequest_unique. exact Hn.
  - unfold handleLoadingFailed.
    destruct (JsMap.get (lx_requestId p) (pending s)) as [l0|]; [|exact Hn].
    apply finalizeRequest_unique. exact Hn.
  - constructor.
  - unfold fetchSettled. destruct (fetches s !! kf) as [[rid l0]|]; [|exact Hn].
    apply finalizeRequest_unique. destruct res as [[[body b64]|]|]; exact Hn.
Qed.

Lemma stored_unique_run es s :
  List.NoDup (JsMap.keys (requests s)) -> List.NoDup (JsMap.keys (requests (run s es))).
Proof.
  revert s. induction es as [|e es IH]; intros s Hn; [exact Hn|].
  rewrite run_cons. apply IH, stored_unique_step, Hn.
Qed.

Lemma captured_id e : id (captured e) = id (request e).
Proof. unfold captured. destruct (chain_shared e); reflexivity. Qed.

Lemma values_stored o es r :
  In r (values (run (new o) es)) -> getRequest (id r) (run (new o) es) = Some r.
Proof.
  intros H. apply In_values in H as (k & l & e & Hin & He & ->).
  pose proof (keyed_run es (new o) (valid_new o) (keyed_new o) k l e
                (or_intror (or_introl Hin)) He) as Hk.
  rewrite captured_id, Hk. unfold getRequest.
  rewrite (NoDup_keys_get _ k l (stored_unique_run es (new o) (List.NoDup_nil _)) Hin), He.
  reflexivity.
Qed.

Lemma length_values o es : length (values (run (new o) es)) = size (run (new o) es).
Proof.
  pose proof (valid_run es (new o) (valid_new o)) as (_ & Hr & _).
  unfold values, size, JsMap.size.
  set (s := run (new o) es) in *. clearbody s.
  induction (requests s) as [|[k l] m IH]; [reflexivity|].
  apply List.Forall_cons_iff in Hr as [Hl Hr]. cbn in Hl.
  apply lookup_lt_is_Some_2 in Hl as [e He].
  change (omap (fun kv : string * nat => captured <$> heap s !! kv.2) ((k, l) :: m))
    with (match captured <$> heap s !! l with
          | Some y => y :: omap (fun kv : string * nat => captured <$> heap s !! kv.2) m
          | None => omap (fun kv : string * nat => captured <$> heap s !! kv.2) m
          end).
  rewrite He. cbn. rewrite (IH Hr). reflexivity.
Qed.

End stored_facts.

Section query_theorems.
Import NetworkCapture Query.
Variable RegExp_i : string -> option (string -> bool).

(** Every record that [getRequests] returns is a stored record, the one
    that [getRequest] finds under its ID, and it meets every condition of
    the filter: the status bounds, the resource type, the start time, the
    method up to case, and the URL pattern (as a substring up to case when
    it is not a valid regular expression). *)
Theorem getRequests_returns_matching_records
    (o : Options) (es : list Event) (filter : option NetworkFilter)
    (r : CapturedRequest) :
  In r (getRequests RegExp_i filter (run (new o) es)) ->
  getRequest (id r) (run (new o) es) = Some r /\
  match filter with
  | None => True
  | Some f =>
      match statusMin f with Some lo => (lo <= status r)%Z | None => True end /\
      match statusMax f with Some hi => (status r <= hi)%Z | None => True end /\
      match filter_resourceType f with
      | Some ty => resourceType r = ty
      | None => True
      end /\
      match sinceTimestamp f with
      | Some since => (since <= startTime (timing r))%R
      | None => True
      end /\
      match filter_method f with
      | Some m => m = "" \/ Js.toUpperCase (method r) = Js.toUpperCase m
      | None => True
      end /\
      match urlPattern f with
      | Some pattern =>
          pattern = "" \/
          match RegExp_i pattern with
          | Some test => test (url r) = true
          | None => Js.includes (Js.toLowerCase (url r)) (Js.toLowerCase pattern) = true
          end
      | None => True
      end
  end.
Proof.
  intros H. apply In_getRequests in H as [Hv Hf].
  split; [apply values_stored, Hv|].
  destruct filter as [f|]; [|exact I].
  unfold passesFilter in Hf.
  repeat match type of Hf with _ && _ = true => apply andb_prop in Hf as [Hf ?] end.
  split.
  { destruct (statusMin f) as [lo|]; [|exact I].
    destruct (Z.ltb_spec (status r) lo); [discriminate | lia]. }
  split.
  { destruct (statusMax f) as [hi|]; [|exact I].
    destruct (Z.ltb_spec hi (status r)); [discriminate | lia]. }
  split.
  { destruct (filter_resourceType f) as [ty|]; [|exact I].
    destruct (resourceType r), ty; (reflexivity || discriminate). }
  split.
  { destruct (sinceTimestamp f) as [since|]; [|exact I].
    destruct (Rlt_dec (startTime (timing r)) since); [discriminate | lra]. }
  split.
  { destruct (filter_method f) as [m|]; [|exact I].
    match goal with
    | Hm : (if Js.truthy (Some m) then _ else true) = true |- _ =>
        change (default "" (Some m)) with m in Hm; cbn [Js.truthy] in Hm;
        destruct (String.eqb_spec m "") as [|Hne]; [left; assumption|]; right;
        cbn [negb] in Hm; apply String.eqb_eq; exact Hm
    end. }
  destruct (urlPattern f) as [pattern|]; [|exact I].
  change (default "" (Some pattern)) with pattern in Hf.
  cbn [Js.truthy] in Hf.
  destruct (String.eqb_spec pattern "") as [|Hne]; [left; assumption|]. right.
  cbn [negb] in Hf. destruct (RegExp_i pattern); exact Hf.
Qed.

(** Without a filter [getRequests] returns every stored record. *)
Theorem getRequests_unfiltered_complete (o : Options) (es : list Event) :
  length (getRequests RegExp_i None (run (new o) es)) = size (run (new o) es) /\
  forall requestId r,
    getRequest requestId (run (new o) es) = Some r ->
    In r (getRequests RegExp_i None (run (new o) es)).
Proof.
  unfold getRequests. cbv zeta. split.
  - rewrite length_sortBy. apply length_values.
  - intros requestId r H. apply In_sortBy, In_values.
    unfold getRequest in H.
    destruct (JsMap.get requestId (requests (run (new o) es))) as [l|] eqn:Hg;
      [|discriminate].
    destruct (heap (run (new o) es) !! l) as [e|] eqn:He; [|discriminate].
    injection H as <-. exists requestId, l, e.
    split; [exact (get_In _ _ _ Hg)|]. split; [exact He | reflexivity].
Qed.

End query_theorems.

(** ** A complete request *)

(** A request that is announced, answered and finished, without a body
    callback, is stored with the data of its three events: the ID, the
    next index, the URL and method of the request, the status and MIME type
    of the response, the size and the end time of the completion, and an
    empty redirect chain. *)
Theorem lifecycle_stores_record
    (s : NetworkCapture.t) (p : CDPRequestWillBeSent) (q : CDPResponseReceived)
    (f : CDPLoadingFinished) :
  NetworkCapture.creates s p = true ->
  rr_requestId q = rws_requestId p ->
  lf_requestId f = rws_requestId p ->
  exists r,
    NetworkCapture.getRequest (rws_requestId p)
      (NetworkCapture.run s
         [ NetworkCapture.RequestWillBeSent p; NetworkCapture.ResponseReceived q;
           NetworkCapture.LoadingFinished f false ]) = Some r /\
    id r = rws_requestId p /\
    index r = NetworkCapture.nextIndex s /\
    url r = rq_url (rws_request p) /\
    method r = rq_method (rws_request p) /\
    status r = rs_status (rr_response q) /\
    statusText r = rs_statusText (rr_response q) /\
    mimeType r = rs_mimeType (rr_response q) /\
    responseSize r = lf_encodedDataLength f /\
    startTime (timing r) = (rws_wallTime p * 1000)%R /\
    endTime (timing r)
    = Some (NetworkCapture.toWallTimeMs
              (NetworkCapture.handleRequestWillBeSent p s) (lf_timestamp f)) /\
    duration (timing r)
    = Some (NetworkCapture.toWallTimeMs
              (NetworkCapture.handleRequestWillBeSent p s) (lf_timestamp f)
            - rws_wallTime p * 1000)%R /\
    redirectChain r = [].
Proof.
  intros Hc Hq Hf.
  unfold NetworkCapture.run. cbn [fold_left].
  change (NetworkCapture.handleRequestWillBeSent p s)
    with (NetworkCapture.step s (NetworkCapture.RequestWillBeSent p)).
  rewrite (create_step s p Hc).
  set (s2 := NetworkCapture.createRequest p (NetworkCapture.computeOffset p s)).
  set (s1 := NetworkCapture.detectPreflight p s2).
  destruct (detectPreflight_lookup p s2 _ _ (create_heap_new s p))
    as (e1 & He1 & Hch & Hsh & Hl).
  fold s1 in He1.
  assert (Hp1 : JsMap.get (rws_requestId p) (NetworkCapture.pending s1)
                = Some (length (NetworkCapture.heap s))).
  { unfold s1.
    destruct (control_inv _ _ (detectPreflight_control p s2))
      as (_ & _ & _ & _ & _ & -> & _).
    unfold s2. rewrite create_pending. apply get_set_eq. }
  cbn [NetworkCapture.step].
  unfold NetworkCapture.handleResponseReceived. rewrite Hq, Hp1.
  set (s3 := NetworkCapture.modify _ _ s1).
  unfold NetworkCapture.handleLoadingFinished.
  change (NetworkCapture.pending s3) with (NetworkCapture.pending s1).
  rewrite Hf, Hp1. cbn [andb].
  eexists. split.
  - apply getRequest_finalizeRequest.
    unfold s3, NetworkCapture.shareChain, NetworkCapture.modify. cbn.
    rewrite !list_lookup_alter_eq, He1. reflexivity.
  - pose proof (f_equal id Hl) as Hid. pose proof (f_equal index Hl) as Hix.
    pose proof (f_equal url Hl) as Hurl. pose proof (f_equal method Hl) as Hme.
    pose proof (f_equal (fun r => startTime (timing r)) Hl) as Hst.
    cbn in Hid, Hix, Hurl, Hme, Hst, Hch.
    destruct (computeOffset_frame p s) as (_ & _ & Hn & _).
    rewrite Hn in Hix.
    cbn. destruct (Js.truthy (rr_type q)); cbn;
      rewrite ?Hid, ?Hix, ?Hurl, ?Hme, ?Hst, ?Hch; repeat split; reflexivity.
Qed.

(** * The redaction helpers of the formatter *)

Section json_facts.

Lemma JsonValue_nested_ind (P : JsonValue -> Prop) :
  P JNull -> (forall b, P (JBool b)) -> (forall x, P (JNumber x)) ->
  (forall s, P (JString s)) ->
  (forall items, List.Forall P items -> P (JArray items)) ->
  (forall properties, List.Forall (fun kv => P kv.2) properties -> P (JObject properties)) ->
  forall v, P v.
Proof.
  intros Hnull Hbool Hnum Hstr Harr Hobj. fix IH 1.
  intros [ |b|x|s|items|properties];
    [exact Hnull | apply Hbool | apply Hnum | apply Hstr | |].
  - apply Harr. revert items. fix IHl 1. intros [|item items]; constructor.
    + apply IH.
    + apply IHl.
  - apply Hobj. revert properties. fix IHl 1. intros [|[key value] properties]; constructor.
    + apply IH.
    + apply IHl.
Qed.

End json_facts.

Section redact_facts.
Import Formatter.

Lemma redacted_object properties :
  redacted (JObject properties) <-> List.Forall okProperty properties.
Proof.
  cbn [redacted]. induction properties as [|[key value] properties IH]; cbn [fold_right].
  - split; [constructor | auto].
  - rewrite List.Forall_cons_iff, IH. reflexivity.
Qed.

Lemma redacted_array items :
  redacted (JArray items) <-> List.Forall redacted items.
Proof.
  cbn [redacted]. induction items as [|item items IH]; cbn [fold_right].
  - split; [constructor | auto].
  - rewrite List.Forall_cons_iff, IH. reflexivity.
Qed.

Lemma assign_ok key value result :
  okProperty (key, value) -> List.Forall okProperty result ->
  List.Forall okProperty (assign key value result).
Proof.
  intros Hkv Hres. unfold assign. destruct (String.eqb key "__proto__"); [exact Hres|].
  rewrite List.Forall_forall in Hres |- *. intros kv Hin.
  apply In_set in Hin as [->|Hin]; [exact Hkv | exact (Hres kv Hin)].
Qed.

(** After [redactObject], no sensitive key at any depth of the value holds
    anything but the placeholder [[REDACTED]]. *)
Theorem redactObject_redacted (obj : JsonValue) : redacted (redactObject obj).
Proof.
  induction obj as [ |b|x|s|items IH|properties IH] using JsonValue_nested_ind;
    try exact I.
  - cbn [redactObject]. apply redacted_array.
    induction IH as [|item items Hitem _ IHitems]; cbn [map]; constructor; assumption.
  - cbn [redactObject]. apply redacted_object.
    assert (Hacc : List.Forall okProperty []) by constructor.
    revert Hacc. generalize (@nil (string * JsonValue)) as result.
    induction IH as [|[key value] properties Hvalue _ IHprops]; intros result Hacc;
      cbn [fold_left]; [exact Hacc|].
    apply IHprops. unfold okProperty in *.
    destruct (sensitiveKey key) eqn:Hs.
    + apply assign_ok; [|exact Hacc]. unfold okProperty. cbn [fst snd]. rewrite Hs.
      reflexivity.
    + cbn [snd] in Hvalue.
      destruct value; (apply assign_ok; [|exact Hacc]); unfold okProperty; cbn [fst snd];
        rewrite Hs; (exact I || exact Hvalue).
Qed.

Lemma length_substring0 n s : String.length (Js.substring0 n s) = Nat.min n (String.length s).
Proof.
  unfold Js.substring0. revert n. induction s as [|c s IH]; intros [|n]; cbn; try reflexivity.
  rewrite IH. reflexivity.
Qed.

Lemma prefix_substring0 n s : String.prefix (Js.substring0 n s) s = true.
Proof.
  unfold Js.substring0. revert n. induction s as [|c s IH]; intros [|n]; cbn; try reflexivity.
  destruct (ascii_dec c c) as [_|Hne]; [apply IH | contradiction].
Qed.

Lemma length_append' s1 s2 :
  String.length (s1 ++ s2) = (String.length s1 + String.length s2)%nat.
Proof.
  induction s1 as [|c s1 IH]; [reflexivity|].
  change (S (String.length (s1 ++ s2)) = S (String.length s1 + String.length s2)).
  rewrite IH. reflexivity.
Qed.

(** The value of a sensitive header, whatever the capitalization of its
    name, is replaced by the placeholder; of a value longer than 20
    characters the first 15 stay visible, and nothing else. *)
Theorem redactSensitiveHeader_hides (name value : string) :
  In (Js.toLowerCase name) SENSITIVE_HEADER_NAMES ->
  (String.length (redactSensitiveHeader name value) <= 28)%nat /\
  ((String.length value <= 20)%nat /\ redactSensitiveHeader name value = "[REDACTED]" \/
   (20 < String.length value)%nat /\
   exists shown, redactSensitiveHeader name value = shown ++ "...[REDACTED]" /\
                 String.length shown = 15%nat /\ String.prefix shown value = true).
Proof.
  intros Hin. unfold redactSensitiveHeader.
  assert (Hs : existsb (String.eqb (Js.toLowerCase name)) SENSITIVE_HEADER_NAMES = true).
  { apply existsb_exists. exists (Js.toLowerCase name). split; [exact Hin|].
    apply String.eqb_refl. }
  rewrite Hs. destruct (Nat.leb_spec (String.length value) 20) as [Hle|Hgt].
  - split; [cbn; lia|]. left. auto.
  - assert (Hlen : String.length (Js.substring0 15 value) = 15%nat)
      by (rewrite length_substring0; lia).
    split.
    + rewrite length_append', Hlen. cbn. lia.
    + right. split; [exact Hgt|]. exists (Js.substring0 15 value).
      split; [reflexivity|]. split; [exact Hlen | apply prefix_substring0].
Qed.

End redact_facts.

Lemma redactSensitiveHeader_hides_witness :
  In (Js.toLowerCase "AUTHORIZATION") Formatter.SENSITIVE_HEADER_NAMES /\
  (String.length (Formatter.redactSensitiveHeader "AUTHORIZATION"
                    ("Bearer " ++ Fixtures.token)) <= 28)%nat.
Proof.
  assert (H : In (Js.toLowerCase "AUTHORIZATION") Formatter.SENSITIVE_HEADER_NAMES)
    by (vm_compute; left; reflexivity).
  split; [exact H|].
  exact (proj1 (redactSensitiveHeader_hides "AUTHORIZATION" ("Bearer " ++ Fixtures.token) H)).
Defined.

(** ** Truncated bodies *)


(** * Instances *)

Section stack_instance.
#[local] Open Scope R_scope.
Import Correlator.

Lemma clicked_by_stack :
  correlateRequest Fixtures.twoClicks Fixtures.clickedRequest [Fixtures.clickedRequest]
  = Some (mkMatch (0%nat, Fixtures.firstClick) (Rmax 0.85 (0.95 - INR 1 * 0.02)) stack_trace).
Proof. jsRun. reflexivity. Qed.

End stack_instance.

Lemma correlateRequest_action_recorded_witness :
  Correlator.correlateRequest Fixtures.twoClicksCorrelated Fixtures.preflightByTiming
    [Fixtures.preflightByTiming; Fixtures.actualByTiming]
  = Some (Correlator.mkMatch
            (1%nat, Correlator.set_resultingRequestIds ["req_actual"] Fixtures.secondClick)
            0.85 chain) /\
  Correlator.actions Fixtures.twoClicksCorrelated !! 1%nat
  = Some (Correlator.set_resultingRequestIds ["req_actual"] Fixtures.secondClick).
Proof.
  split; [exact preflight_then_by_chain|].
  exact (correlateRequest_action_recorded _ _ _ _ preflight_then_by_chain).
Defined.

Lemma correlateRequest_confidence_band_witness :
  Correlator.correlateRequest Fixtures.twoClicks Fixtures.corsActual
    [Fixtures.preflightByTiming; Fixtures.corsActual]
  = Some (Correlator.mkMatch (1%nat, Fixtures.secondClick) 0.5 timing_semantic) /\
  ((0.5 <= 0.5 <= 1)%R /\
   (Correlator.minConfidence (Correlator.options Fixtures.twoClicks) <= 0.5)%R).
Proof.
  split; [exact actual_by_timing|].
  exact (correlateRequest_confidence_band _ _ _ _ actual_by_timing).
Defined.

Lemma stack_trace_match_is_closest_witness :
  exists m,
    Correlator.correlateRequest Fixtures.twoClicks Fixtures.clickedRequest
      [Fixtures.clickedRequest] = Some m /\
    Correlator.match_method m = stack_trace /\
    Correlator.match_action m = (0%nat, Fixtures.firstClick) /\
    exists stack eventType asyncDepth,
      init_stack (initiator Fixtures.clickedRequest) = Some stack /\
      Correlator.extractEventOrigin stack = Some (eventType, asyncDepth) /\
      Correlator.eventMatchesAction eventType (Correlator.match_action m).2 = true /\
      Correlator.inWindow Fixtures.twoClicks Fixtures.clickedRequest
        (Correlator.match_action m).2 = true /\
      forall k b, Correlator.actions Fixtures.twoClicks !! k = Some b ->
        Correlator.eventMatchesAction eventType b = true ->
        Correlator.inWindow Fixtures.twoClicks Fixtures.clickedRequest b = true ->
        (Rabs (startTime (timing Fixtures.clickedRequest)
               - action_timestamp (Correlator.match_action m).2)
         <= Rabs (startTime (timing Fixtures.clickedRequest) - action_timestamp b))%R.
Proof.
  eexists. split; [exact clicked_by_stack|]. split; [reflexivity|].
  split; [reflexivity|].
  exact (stack_trace_match_is_closest _ _ _ _ clicked_by_stack eq_refl).
Defined.

Lemma timing_match_is_best_witness :
  Correlator.correlateRequest Fixtures.twoClicks Fixtures.corsPreflight
    [Fixtures.corsPreflight; Fixtures.corsActual]
  = Some (Correlator.mkMatch (0%nat, Fixtures.firstClick) 0.5 timing_semantic) /\
  Correlator.inWindow Fixtures.twoClicks Fixtures.corsPreflight Fixtures.firstClick = true /\
  0.5%R = Correlator.computeScore Fixtures.firstClick Fixtures.corsPreflight /\
  forall k b, Correlator.actions Fixtures.twoClicks !! k = Some b ->
    Correlator.inWindow Fixtures.twoClicks Fixtures.corsPreflight b = true ->
    (Correlator.computeScore b Fixtures.corsPreflight <= 0.5)%R.
Proof.
  split; [exact preflight_first_by_timing|].
  exact (timing_match_is_best _ _ _ _ preflight_first_by_timing (or_introl eq_refl)).
Defined.

Lemma detectAuthFlow_Some_witness :
  Correlator.detectAuthFlow Fixtures.parseLogin
    [Fixtures.authLogin; Fixtures.profileWith "Authorization"]
  = Some {| chain_type := auth_flow; requestIds := ["req_auth"; "req_profile"] |} /\
  exists authReq body token dependents,
    In authReq [Fixtures.authLogin; Fixtures.profileWith "Authorization"] /\
    Correlator.isAuthPost authReq = true /\
    (200 <= status authReq < 300)%Z /\
    Fixtures.parseLogin (default "" (responseBody authReq)) = Some body /\
    Correlator.tokenValue body = Some (Some (JString token)) /\ token <> "" /\
    ["req_auth"; "req_profile"] = id authReq :: map id dependents /\
    dependents <> [] /\
    forall r, In r dependents <->
      In r [Fixtures.authLogin; Fixtures.profileWith "Authorization"] /\
      (startTime (timing authReq) < startTime (timing r))%R /\
      exists header, Correlator.authHeader r = Some header /\ header <> "" /\
                     Js.includes header (Js.substring0 20 token) = true.
Proof.
  assert (H : Correlator.detectAuthFlow Fixtures.parseLogin
                [Fixtures.authLogin; Fixtures.profileWith "Authorization"]
              = Some {| chain_type := auth_flow;
                        requestIds := ["req_auth"; "req_profile"] |}).
  { apply auth_flow_detected. vm_compute. reflexivity. }
  split; [exact H|].
  exact (proj2 (detectAuthFlow_Some Fixtures.parseLogin _ _ H)).
Defined.

Lemma correlateAll_keeps_attributed_witness :
  [Fixtures.preflightByTiming; Fixtures.corsActual] !! 0%nat
  = Some Fixtures.preflightByTiming /\
  exists r',
    (Correlator.correlateAll Fixtures.parseLogin Fixtures.twoClicks
       [Fixtures.preflightByTiming; Fixtures.corsActual]).1.2 !! 0%nat = Some r' /\
    Correlator.unattributed r' = Correlator.unattributed Fixtures.preflightByTiming /\
    (Js.truthy (correlatedActionId Fixtures.preflightByTiming) = true ->
     r' = Fixtures.preflightByTiming).
Proof.
  split; [reflexivity|].
  apply (correlateAll_keeps_attributed Fixtures.parseLogin Fixtures.twoClicks
           [Fixtures.preflightByTiming; Fixtures.corsActual] 0
           Fixtures.preflightByTiming).
  reflexivity.
Defined.

Lemma correlateAction_attributes_own_action_witness :
  [Fixtures.preflightByTiming; Fixtures.actualByTiming] !! 0%nat
  = Some Fixtures.preflightByTiming /\
  exists r',
    (Correlator.correlateAction Fixtures.parseLogin Fixtures.twoClicksCorrelated
       "action_2" [Fixtures.preflightByTiming; Fixtures.actualByTiming]).1.2 !! 0%nat
    = Some r' /\
    Correlator.unattributed r' = Correlator.unattributed Fixtures.preflightByTiming /\
    (r' = Fixtures.preflightByTiming \/
     (correlatedActionId r' = Some "action_2" /\
      exists k a, Correlator.actions Fixtures.twoClicksCorrelated !! k = Some a /\
                  action_id a = "action_2")).
Proof.
  split; [reflexivity|].
  apply (correlateAction_attributes_own_action Fixtures.parseLogin
           Fixtures.twoClicksCorrelated "action_2"
           [Fixtures.preflightByTiming; Fixtures.actualByTiming] 0
           Fixtures.preflightByTiming).
  reflexivity.
Defined.

Section result_instance.
#[local] Open Scope R_scope.
Import Correlator.

Lemma second_click_result JSON_parse :
  exists res,
    (correlateAction JSON_parse Fixtures.twoClicksCorrelated "action_2"
       [Fixtures.preflightByTiming; Fixtures.actualByTiming]).2 = Some res.
Proof.
  unfold correlateAction.
  change (getAction "action_2" Fixtures.twoClicksCorrelated)
    with (Some (1%nat, set_resultingRequestIds ["req_actual"] Fixtures.secondClick)).
  change (length [Fixtures.preflightByTiming; Fixtures.actualByTiming]) with 2%nat.
  cbn [seq fold_left].
  rewrite (correlateActionStep_match Fixtures.twoClicksCorrelated "action_2"
             [Fixtures.preflightByTiming; Fixtures.actualByTiming] [] 0 0
             Fixtures.preflightByTiming _ eq_refl preflight_then_by_chain eq_refl).
  cbn [match_action match_confidence match_method snd].
  change (<[0%nat := set_correlation "action_2" 0.85 chain Fixtures.preflightByTiming]>
            [Fixtures.preflightByTiming; Fixtures.actualByTiming])
    with [Fixtures.preflightByChain; Fixtures.actualByTiming].
  rewrite (correlateActionStep_match Fixtures.twoClicksCorrelated "action_2"
             [Fixtures.preflightByChain; Fixtures.actualByTiming] _ _ 1
             Fixtures.actualByTiming _ eq_refl actual_again_by_timing eq_refl).
  eexists. reflexivity.
Qed.

End result_instance.

Lemma correlateAction_requests_by_startTime_witness :
  exists res,
    (Correlator.correlateAction Fixtures.parseLogin Fixtures.twoClicksCorrelated
       "action_2" [Fixtures.preflightByTiming; Fixtures.actualByTiming]).2 = Some res /\
    StronglySorted
      (fun a b => (startTime (timing a) <= startTime (timing b))%R)
      (Correlator.objects
         (Correlator.correlateAction Fixtures.parseLogin Fixtures.twoClicksCorrelated
            "action_2" [Fixtures.preflightByTiming; Fixtures.actualByTiming]).1.2
         (Correlator.result_requests res)).
Proof.
  destruct (second_click_result Fixtures.parseLogin) as [res H].
  exists res. split; [exact H|].
  exact (correlateAction_requests_by_startTime Fixtures.parseLogin _ _ _ res H).
Defined.

Lemma getRequest_returns_own_id_witness :
  exists r,
    NetworkCapture.getRequest "R3"
      (NetworkCapture.run (NetworkCapture.new (Fixtures.withMaxRequests 3))
         (Fixtures.lifecycle "R2" ++ Fixtures.lifecycle "R3")) = Some r /\
    id r = "R3".
Proof.
  eexists. split; [vm_compute; reflexivity|].
  apply (getRequest_returns_own_id (Fixtures.withMaxRequests 3)
           (Fixtures.lifecycle "R2" ++ Fixtures.lifecycle "R3") "R3").
  vm_compute. reflexivity.
Defined.

Lemma counts_within_nextIndex_witness :
  NetworkCapture.fetchesLive (NetworkCapture.new NetworkCapture.DEFAULT_OPTIONS)
    Fixtures.corsReversed = true /\
  (NetworkCapture.pendingCount
     (NetworkCapture.run (NetworkCapture.new NetworkCapture.DEFAULT_OPTIONS)
        Fixtures.corsReversed) +
   NetworkCapture.size
     (NetworkCapture.run (NetworkCapture.new NetworkCapture.DEFAULT_OPTIONS)
        Fixtures.corsReversed)
   <= NetworkCapture.nextIndex
        (NetworkCapture.run (NetworkCapture.new NetworkCapture.DEFAULT_OPTIONS)
           Fixtures.corsReversed))%nat.
Proof.
  split; [vm_compute; reflexivity|].
  apply (counts_within_nextIndex NetworkCapture.DEFAULT_OPTIONS Fixtures.corsReversed).
  vm_compute. reflexivity.
Defined.

Lemma excluded_and_unknown_events_ignored_witness :
  NetworkCapture.run (NetworkCapture.new Fixtures.excludingOld)
    [ Fixtures.get "req_0" "https://api.example.com/old";
      Fixtures.responseReceived "req_1" "https://api.example.com/users";
      Fixtures.finished "req_1" true;
      NetworkCapture.LoadingFailed (Fixtures.failedParams "req_1");
      NetworkCapture.Clear;
      NetworkCapture.FetchSettled 0 NetworkCapture.Rejected ]
  = NetworkCapture.new Fixtures.excludingOld.
Proof.
  apply (excluded_and_unknown_events_ignored Fixtures.excludingOld).
  vm_compute. reflexivity.
Defined.

Lemma store_within_maxRequests_witness :
  (NetworkCapture.size
     (NetworkCapture.run (NetworkCapture.new (Fixtures.withMaxRequests 2))
        Fixtures.staleRaceThenTwo)
   <= Nat.max 1 (NetworkCapture.maxRequests (Fixtures.withMaxRequests 2)))%nat /\
  NetworkCapture.requestOrder
    (NetworkCapture.run (NetworkCapture.new (Fixtures.withMaxRequests 2))
       Fixtures.staleRaceThenTwo)
  = JsMap.keys
      (NetworkCapture.requests
         (NetworkCapture.run (NetworkCapture.new (Fixtures.withMaxRequests 2))
            Fixtures.staleRaceThenTwo)) /\
  List.NoDup
    (NetworkCapture.requestOrder
       (NetworkCapture.run (NetworkCapture.new (Fixtures.withMaxRequests 2))
          Fixtures.staleRaceThenTwo)).
Proof.
  apply (store_within_maxRequests (Fixtures.withMaxRequests 2)).
  vm_compute. reflexivity.
Defined.

Lemma store_changes_by_commit_or_clear_witness :
  exists requestId,
    ~ In requestId ["R0"; "R1"; "R2"] /\
    JsMap.keys
      (NetworkCapture.requests
         (NetworkCapture.step
            (NetworkCapture.run (NetworkCapture.new (Fixtures.withMaxRequests 3))
               (Fixtures.lifecycle "R0" ++ Fixtures.lifecycle "R1" ++
                Fixtures.lifecycle "R2" ++ Fixtures.responded "R3"))
            (Fixtures.finished "R3" false)))
    = ["R1"; "R2"; requestId].
Proof.
  destruct (store_changes_by_commit_or_clear (Fixtures.withMaxRequests 3)
              (Fixtures.lifecycle "R0" ++ Fixtures.lifecycle "R1" ++
               Fixtures.lifecycle "R2" ++ Fixtures.responded "R3")
              (Fixtures.finished "R3" false))
    as [H|[[H _]|H]].
  - vm_compute. reflexivity.
  - vm_compute in H. discriminate H.
  - discriminate H.
  - exact H.
Defined.

Lemma full_store_commit_evicts_earliest_witness :
  JsMap.keys
    (NetworkCapture.requests
       (NetworkCapture.run (NetworkCapture.new (Fixtures.withMaxRequests 3))
          Fixtures.beforeLastCommit))
  = ["R1"; "R2"; "R3"] /\
  JsMap.keys (NetworkCapture.requests Fixtures.ringBuffer) = ["R2"; "R3"; "R4"] /\
  NetworkCapture.getRequest "R1" Fixtures.ringBuffer = None /\
  (forall k, In k ["R2"; "R3"] ->
     NetworkCapture.getRequest k Fixtures.ringBuffer
     = NetworkCapture.getRequest k
         (NetworkCapture.run (NetworkCapture.new (Fixtures.withMaxRequests 3))
            Fixtures.beforeLastCommit)) /\
  NetworkCapture.size Fixtures.ringBuffer = 3%nat.
Proof.
  assert (Hs : exists r,
             NetworkCapture.getRequest "R4"
               (NetworkCapture.step
                  (NetworkCapture.run (NetworkCapture.new (Fixtures.withMaxRequests 3))
                     Fixtures.beforeLastCommit)
                  (Fixtures.finished "R4" false)) = Some r)
    by (vm_compute; eexists; reflexivity).
  destruct Hs as [r Hs].
  assert (Hb : JsMap.keys
                 (NetworkCapture.requests
                    (NetworkCapture.run (NetworkCapture.new (Fixtures.withMaxRequests 3))
                       Fixtures.beforeLastCommit))
               = ["R1"; "R2"; "R3"]) by (vm_compute; reflexivity).
  assert (Hr : Fixtures.ringBuffer
               = NetworkCapture.step
                   (NetworkCapture.run (NetworkCapture.new (Fixtures.withMaxRequests 3))
                      Fixtures.beforeLastCommit)
                   (Fixtures.finished "R4" false)).
  { assert (Hl : (Fixtures.lifecycle "R0" ++ Fixtures.lifecycle "R1" ++
                  Fixtures.lifecycle "R2" ++ Fixtures.lifecycle "R3" ++
                  Fixtures.lifecycle "R4")%list
                 = (Fixtures.beforeLastCommit ++ [Fixtures.finished "R4" false])%list).
    { unfold Fixtures.beforeLastCommit. rewrite <- !app_assoc. reflexivity. }
    unfold Fixtures.ringBuffer. rewrite Hl, run_app.
    unfold NetworkCapture.run at 1. cbn [fold_left]. reflexivity. }
  destruct (full_store_commit_evicts_earliest (Fixtures.withMaxRequests 3)
              Fixtures.beforeLastCommit (Fixtures.finished "R4" false) "R4" r)
    as (Hkeys & Hhead & Htail & Hsize).
  - vm_compute. reflexivity.
  - vm_compute. reflexivity.
  - exact Hs.
  - vm_compute. lia.
  - rewrite <- Hr in Hkeys, Hhead, Htail, Hsize. rewrite Hb in Hkeys, Hhead, Htail.
    split; [exact Hb|]. split; [exact Hkeys|].
    split; [exact (Hhead "R1" eq_refl)|]. split; [exact Htail | exact Hsize].
Defined.

Lemma loadingFailed_stores_record_witness :
  exists e r,
    NetworkCapture.heap
      (NetworkCapture.run (NetworkCapture.new NetworkCapture.DEFAULT_OPTIONS)
         [Fixtures.get "req_1" "https://api.example.com/users"]) !! 0%nat = Some e /\
    NetworkCapture.getRequest (lx_requestId (Fixtures.failedParams "req_1"))
      (NetworkCapture.handleLoadingFailed (Fixtures.failedParams "req_1")
         (NetworkCapture.run (NetworkCapture.new NetworkCapture.DEFAULT_OPTIONS)
            [Fixtures.get "req_1" "https://api.example.com/users"])) = Some r /\
    JsMap.get (lx_requestId (Fixtures.failedParams "req_1"))
      (NetworkCapture.pending
         (NetworkCapture.handleLoadingFailed (Fixtures.failedParams "req_1")
            (NetworkCapture.run (NetworkCapture.new NetworkCapture.DEFAULT_OPTIONS)
               [Fixtures.get "req_1" "https://api.example.com/users"]))) = None /\
    status r = status (NetworkCapture.request e) /\
    statusText r = (if (status (NetworkCapture.request e) =? 0)%Z
                    then lx_errorText (Fixtures.failedParams "req_1")
                    else statusText (NetworkCapture.request e)) /\
    endTime (timing r)
    = Some (NetworkCapture.toWallTimeMs
              (NetworkCapture.run (NetworkCapture.new NetworkCapture.DEFAULT_OPTIONS)
                 [Fixtures.get "req_1" "https://api.example.com/users"])
              (lx_timestamp (Fixtures.failedParams "req_1"))) /\
    duration (timing r)
    = Some (NetworkCapture.toWallTimeMs
              (NetworkCapture.run (NetworkCapture.new NetworkCapture.DEFAULT_OPTIONS)
                 [Fixtures.get "req_1" "https://api.example.com/users"])
              (lx_timestamp (Fixtures.failedParams "req_1"))
            - startTime (timing (NetworkCapture.request e)))%R /\
    redirectChain r = NetworkCapture.entry_redirectChain e.
Proof.
  apply (loadingFailed_stores_record NetworkCapture.DEFAULT_OPTIONS
           [Fixtures.get "req_1" "https://api.example.com/users"]
           (Fixtures.failedParams "req_1") 0).
  vm_compute. reflexivity.
Defined.

Lemma body_fetch_round_trip_witness :
  exists r,
    NetworkCapture.getRequest "req_1"
      (NetworkCapture.fetchSettled 0
         (NetworkCapture.Fulfilled (Some ("{}", false)))
         (NetworkCapture.handleLoadingFinished (Fixtures.finishedParams "req_1") true
            (NetworkCapture.run (NetworkCapture.new NetworkCapture.DEFAULT_OPTIONS)
               (Fixtures.responded "req_1")))) = Some r /\
    responseSize r = 100%Z /\
    responseBody r
    = Some (NetworkCapture.truncateBody
              (NetworkCapture.run (NetworkCapture.new NetworkCapture.DEFAULT_OPTIONS)
                 (Fixtures.responded "req_1")) "{}" false).
Proof.
  exact (proj2 (proj2
    (body_fetch_round_trip
       (NetworkCapture.run (NetworkCapture.new NetworkCapture.DEFAULT_OPTIONS)
          (Fixtures.responded "req_1"))
       (Fixtures.finishedParams "req_1")
       (NetworkCapture.Fulfilled (Some ("{}", false)))
       ltac:(vm_compute; reflexivity)))).
Defined.

Lemma getRequests_returns_matching_records_witness :
  exists r,
    In r (Query.getRequests (fun _ => None)
            (Some {| Query.urlPattern := None; Query.filter_method := Some "get";
                     Query.statusMin := Some 200%Z; Query.statusMax := None;
                     Query.filter_resourceType := None; Query.sinceActionId := None;
                     Query.sinceTimestamp := None; Query.limit := Some 1%nat |})
            (NetworkCapture.run (NetworkCapture.new (Fixtures.withMaxRequests 3))
               (Fixtures.lifecycle "R2" ++ Fixtures.lifecycle "R3"))) /\
    NetworkCapture.getRequest (id r)
      (NetworkCapture.run (NetworkCapture.new (Fixtures.withMaxRequests 3))
         (Fixtures.lifecycle "R2" ++ Fixtures.lifecycle "R3")) = Some r /\
    (200 <= status r)%Z /\
    ("get" = "" \/ Js.toUpperCase (method r) = Js.toUpperCase "get").
Proof.
  eexists. split; [vm_compute; left; reflexivity|].
  match goal with
  | |- NetworkCapture.getRequest (id ?r) _ = _ /\ _ =>
      pose proof (getRequests_returns_matching_records (fun _ => None)
                    (Fixtures.withMaxRequests 3)
                    (Fixtures.lifecycle "R2" ++ Fixtures.lifecycle "R3")
                    (Some {| Query.urlPattern := None; Query.filter_method := Some "get";
                             Query.statusMin := Some 200%Z; Query.statusMax := None;
                             Query.filter_resourceType := None;
                             Query.sinceActionId := None;
                             Query.sinceTimestamp := None; Query.limit := Some 1%nat |})
                    r ltac:(vm_compute; left; reflexivity)) as H
  end.
  cbn [Query.statusMin Query.statusMax Query.filter_resourceType Query.sinceTimestamp
       Query.filter_method Query.urlPattern] in H.
  destruct H as (H1 & H2 & _ & _ & _ & H3 & _).
  split; [exact H1|]. split; [exact H2 | exact H3].
Defined.

Lemma proximity_in_window_witness :
  Correlator.inWindow (Fixtures.withActions [Fixtures.earlyClick])
    Fixtures.earlyRequest Fixtures.earlyClick = true /\
  (0 < Correlator.proximity
         (startTime (timing Fixtures.earlyRequest)
          - action_timestamp Fixtures.earlyClick) <= 0.375)%R.
Proof.
  assert (H : Correlator.inWindow (Fixtures.withActions [Fixtures.earlyClick])
                Fixtures.earlyRequest Fixtures.earlyClick = true)
    by (jsRun; reflexivity).
  split; [exact H|].
  exact (proximity_in_window _ _ _ H).
Defined.

Lemma detectSequentialChains_spec_witness :
  In {| chain_type := sequential; requestIds := ["req_parent"; "req_child"] |}
    (Correlator.detectSequentialChains [Fixtures.chainParent; Fixtures.chainChild]) /\
  exists before current next after t,
    Permutation (before ++ current :: next :: after)
      [Fixtures.chainParent; Fixtures.chainChild] /\
    StronglySorted (fun a b => (startTime (timing a) <= startTime (timing b))%R)
      (before ++ current :: next :: after) /\
    endTime (timing current) = Some t /\ t <> 0%R /\
    (0 <= startTime (timing next) - t <= 50)%R /\
    sequential = sequential /\ ["req_parent"; "req_child"] = [id current; id next].
Proof.
  assert (H : In {| chain_type := sequential;
                    requestIds := ["req_parent"; "req_child"] |}
                (Correlator.detectSequentialChains
                   [Fixtures.chainParent; Fixtures.chainChild]))
    by (jsRun; left; reflexivity).
  split; [exact H|].
  exact (detectSequentialChains_spec _ _ H).
Defined.

Lemma lifecycle_stores_record_witness :
  exists r,
    NetworkCapture.getRequest "req_1"
      (NetworkCapture.run (NetworkCapture.new NetworkCapture.DEFAULT_OPTIONS)
         [ NetworkCapture.RequestWillBeSent
             (Fixtures.willBeSentParams "req_1" "https://api.example.com/users" "GET"
                Fixtures.scriptInitiator None);
           NetworkCapture.ResponseReceived
             (Fixtures.responseParams "req_1" "https://api.example.com/users");
           NetworkCapture.LoadingFinished (Fixtures.finishedParams "req_1") false ])
    = Some r /\
    id r = "req_1" /\ index r = 0%nat /\
    url r = "https://api.example.com/users" /\ method r = "GET" /\
    status r = 200%Z /\ statusText r = "OK" /\ mimeType r = "text/html" /\
    responseSize r = 100%Z.
Proof.
  destruct (lifecycle_stores_record
              (NetworkCapture.new NetworkCapture.DEFAULT_OPTIONS)
              (Fixtures.willBeSentParams "req_1" "https://api.example.com/users" "GET"
                 Fixtures.scriptInitiator None)
              (Fixtures.responseParams "req_1" "https://api.example.com/users")
              (Fixtures.finishedParams "req_1")
              ltac:(vm_compute; reflexivity) eq_refl eq_refl)
    as (r & H & Hid & Hix & Hurl & Hm & Hs & Hst & Hmt & Hsz & _).
  exists r. repeat split; assumption.
Defined.
